(** * node-mapnik [VectorTile] bindings: a shallow embedding of
      [src/mapnik_vector_tile.cpp] and the properties checked against it.

    The file has two halves.  The first one translates the data model and
    the functions of the binding (point-to-geometry distance, single and
    batch query, tile construction and the size setters, option parsing of
    [composite], [setData], [info] and the validity report; then [addData],
    the simplicity report, the GeoJSON writers and [getData]).  The second
    half states and proves the properties.

    Everything that lives in the libraries the binding links against
    (mapnik, mapnik-vector-tile, protozero, zlib) is collected in the
    interfaces [mapnik_api] and [tile_api]; definitions take an instance of
    them and theorems hold for every instance.  [ref_api] and [ref_tile_api]
    are executable instances used to run the code on concrete inputs. *)

From Stdlib Require Import ZArith SpecFloat Lia.
From stdpp Require Import base gmap strings list sorting pretty.

Set Warnings "-register-all".

Local Open Scope string_scope.
Local Open Scope Z_scope.
Local Open Scope list_scope.

(** ** Numbers *)

(** A C++ [double] is an IEEE-754 binary64 value. *)
Definition double : Type := spec_float.

Definition double_of_Z (z : Z) : double := binary_normalize 53 1024 z 0 false.

Definition d_zero : double := S754_zero false.
Definition d_one : double := S754_finite false 4503599627370496 (-52).
Definition d_minus_one : double := S754_finite true 4503599627370496 (-52).
Definition d_nan : double := S754_nan.

(** The four comparison operators; each is false as soon as one side is NaN. *)
Definition d_lt (a b : double) : bool := SFltb a b.
Definition d_le (a b : double) : bool := SFleb a b.
Definition d_gt (a b : double) : bool := SFltb b a.
Definition d_ge (a b : double) : bool := SFleb b a.

Definition d_add (a b : double) : double := SFadd 53 1024 a b.
Definition d_sub (a b : double) : double := SFsub 53 1024 a b.
Definition d_mul (a b : double) : double := SFmul 53 1024 a b.
Definition d_div (a b : double) : double := SFdiv 53 1024 a b.
Definition d_sqrt (a : double) : double := SFsqrt 53 1024 a.

Definition is_nan (a : double) : bool :=
  match a with S754_nan => true | _ => false end.

(** Two's complement wrap-around of a 32-bit [int]. *)
Definition wrap_int32 (z : Z) : Z := (z + 2147483648) mod 4294967296 - 2147483648.
Definition wrap_uint32 (z : Z) : Z := z mod 4294967296.

Definition INT32_MIN : Z := -2147483648.
Definition INT32_MAX : Z := 2147483647.
Definition INT64_MIN : Z := -9223372036854775808.

Definition in_int32 (z : Z) : Prop := INT32_MIN <= z <= INT32_MAX.

(** Integer part of a double (rounding toward zero); 0 for NaN and the
    infinities. *)
Definition trunc_double (d : double) : Z :=
  match d with
  | S754_finite s m e =>
      let v := if 0 <=? e then Z.shiftl (Z.pos m) e else Z.shiftr (Z.pos m) (- e) in
      if s then - v else v
  | _ => 0
  end.

(** [Napi::Number::Int32Value()]: the integer part, reduced to its bottom
    32 bits; non-finite numbers give 0. *)
Definition Int32Value (d : double) : Z := wrap_int32 (trunc_double d).

Definition bytes : Type := list Byte.byte.

(** ** Geometry *)

Record point : Type := mk_point { pt_x : double; pt_y : double }.

Definition line_string : Type := list point.
Definition linear_ring : Type := list point.
(** A polygon is the vector of its rings: ring 0 is the exterior one. *)
Definition polygon : Type := list linear_ring.

(** The closed variant [mapnik::geometry::geometry<double>]. *)
Inductive geometry : Type :=
| geometry_empty
| geom_point (pt : point)
| geom_line_string (line : line_string)
| geom_polygon (poly : polygon)
| geom_multi_point (pts : list point)
| geom_multi_line_string (lines : list line_string)
| geom_multi_polygon (polys : list polygon)
| geom_collection (geoms : list geometry).

Record feature : Type := mk_feature {
  feature_id : Z;
  feature_geometry : geometry;
  feature_data : list (string * string)
}.

Record box2d : Type := mk_box2d { minx : double; miny : double; maxx : double; maxy : double }.

(** ** Protocol-buffer messages

    A reader is a cursor over the fields of a message.  A length-delimited
    field is kept in the shape the tile format gives it (string, packed
    integers or sub-message).  [pbf_corrupt] stands for bytes in which the
    reader finds no field: moving to it, with [next()], raises an
    exception.  [pbf_truncated tag] stands for a field whose key decodes and
    whose value does not: [next()] and [tag()] succeed, and reading or
    skipping the value raises an exception. *)
Inductive pbf_field : Type :=
| pbf_varint (tag : Z) (value : Z)
| pbf_string (tag : Z) (value : string)
| pbf_packed (tag : Z) (values : list Z)
| pbf_message (tag : Z) (fields : list pbf_field)
| pbf_corrupt
| pbf_truncated (tag : Z).

Definition pbf_reader : Type := list pbf_field.

Definition pbf_tag (f : pbf_field) : Z :=
  match f with
  | pbf_varint t _ | pbf_string t _ | pbf_packed t _ | pbf_message t _
  | pbf_truncated t => t
  | pbf_corrupt => 0
  end.

Definition pbf_exception : string := "pbf exception".

Module Tile_Encoding.
Definition LAYERS : Z := 3.
End Tile_Encoding.

Module Layer_Encoding.
Definition NAME : Z := 1.
Definition FEATURES : Z := 2.
Definition KEYS : Z := 3.
Definition VALUES : Z := 4.
Definition EXTENT : Z := 5.
Definition VERSION : Z := 15.
End Layer_Encoding.

Module Feature_Encoding.
Definition ID : Z := 1.
Definition TAGS : Z := 2.
Definition TYPE : Z := 3.
Definition GEOMETRY : Z := 4.
Definition RASTER : Z := 5.
End Feature_Encoding.

(** ** The tile object *)

(** The state of [mapnik::vector_tile_impl::merc_tile] that the binding
    reads and writes: the address, the two sizes and the encoded layers. *)
Record merc_tile : Type := mk_tile {
  tile_x : Z;
  tile_y : Z;
  tile_z : Z;
  tile_size : Z;
  buffer_size : Z;
  tile_buffer : pbf_reader
}.

Definition is_empty (t : merc_tile) : bool :=
  match tile_buffer t with [] => true | _ => false end.

(** Modelled from the spec: [VectorTile::clear()], declared in
    [mapnik_vector_tile.hpp], which is not among the sources.  The spec lists
    [clear] as the operation that drops all layers; the address and the two
    sizes are per-tile configuration and stay. *)
Definition clear (t : merc_tile) : merc_tile :=
  mk_tile (tile_x t) (tile_y t) (tile_z t) (tile_size t) (buffer_size t) [].

Definition set_tile_size_field (t : merc_tile) (v : Z) : merc_tile :=
  mk_tile (tile_x t) (tile_y t) (tile_z t) v (buffer_size t) (tile_buffer t).
Definition set_buffer_size_field (t : merc_tile) (v : Z) : merc_tile :=
  mk_tile (tile_x t) (tile_y t) (tile_z t) (tile_size t) v (tile_buffer t).
Definition set_x_field (t : merc_tile) (v : Z) : merc_tile :=
  mk_tile v (tile_y t) (tile_z t) (tile_size t) (buffer_size t) (tile_buffer t).
Definition set_y_field (t : merc_tile) (v : Z) : merc_tile :=
  mk_tile (tile_x t) v (tile_z t) (tile_size t) (buffer_size t) (tile_buffer t).
Definition set_z_field (t : merc_tile) (v : Z) : merc_tile :=
  mk_tile (tile_x t) (tile_y t) v (tile_size t) (buffer_size t) (tile_buffer t).

(** The invariant of the data model. *)
Definition tile_invariant (t : merc_tile) : Prop := tile_size t + 2 * buffer_size t > 0.

(** ** Script values and completions *)

Inductive js_value : Type :=
| JsUndefined
| JsNull
| JsBoolean (b : bool)
| JsNumber (d : double)
| JsString (s : string)
| JsArray (items : list js_value)
| JsObject (props : list (string * js_value))
| JsFunction
| JsBuffer (data : bytes)
| JsExternal
| JsVectorTile (tile : merc_tile).

Definition IsNumber (v : js_value) : bool :=
  match v with JsNumber _ => true | _ => false end.
Definition IsString (v : js_value) : bool :=
  match v with JsString _ => true | _ => false end.
Definition IsBoolean (v : js_value) : bool :=
  match v with JsBoolean _ => true | _ => false end.
Definition IsArray (v : js_value) : bool :=
  match v with JsArray _ => true | _ => false end.
Definition IsFunction (v : js_value) : bool :=
  match v with JsFunction => true | _ => false end.
Definition IsBuffer (v : js_value) : bool :=
  match v with JsBuffer _ => true | _ => false end.
Definition IsExternal (v : js_value) : bool :=
  match v with JsExternal => true | _ => false end.
Definition IsObject (v : js_value) : bool :=
  match v with
  | JsArray _ | JsObject _ | JsFunction | JsBuffer _ | JsVectorTile _ => true
  | _ => false
  end.

Definition DoubleValue (v : js_value) : double :=
  match v with JsNumber d => d | _ => d_nan end.
Definition BooleanValue (v : js_value) : bool :=
  match v with JsBoolean b => b | _ => false end.
Definition TOSTR (v : js_value) : string :=
  match v with JsString s => s | _ => EmptyString end.
Definition ArrayItems (v : js_value) : list js_value :=
  match v with JsArray l => l | _ => [] end.

Fixpoint assoc_get (k : string) (props : list (string * js_value)) : option js_value :=
  match props with
  | [] => None
  | (k', v) :: rest => if String.eqb k k' then Some v else assoc_get k rest
  end.

(** [options.Has(key)] and [options.Get(key)]. *)
Definition Has (o : js_value) (k : string) : bool :=
  match o with
  | JsObject props => bool_decide (is_Some (assoc_get k props))
  | _ => false
  end.
Definition Get (o : js_value) (k : string) : js_value :=
  match o with
  | JsObject props => default JsUndefined (assoc_get k props)
  | _ => JsUndefined
  end.

(** [info[i]]: a missing argument reads as [undefined]. *)
Definition arg (info : list js_value) (i : nat) : js_value :=
  default JsUndefined (info !! i).
Definition last_arg (info : list js_value) : js_value :=
  default JsUndefined (last info).

Inductive error_kind : Type := Error | TypeError.

(** C++ code that may raise [std::exception]; [what()] is the message. *)
Inductive except (A : Type) : Type :=
| Ok (a : A)
| Raise (what : string).
Arguments Ok {A} a.
Arguments Raise {A} what.

(** What a binding call does: it returns a value, throws a script exception
    of the given kind, or queues work whose outcome reaches the callback
    ([Raise] is [callback(err)], [Ok] is [callback(null, value)]). *)
Inductive completion (A : Type) : Type :=
| Return (a : A)
| Throw (k : error_kind) (msg : string)
| Callback (outcome : except A).
Arguments Return {A} a.
Arguments Throw {A} k msg.
Arguments Callback {A} outcome.

(** Argument checking: a value, or the exception thrown at the first check
    that fails. *)
Inductive checked (A : Type) : Type :=
| Accept (a : A)
| Reject (k : error_kind) (msg : string).
Arguments Accept {A} a.
Arguments Reject {A} k msg.

#[global] Instance checked_ret : MRet checked := fun A a => Accept a.
#[global] Instance checked_bind : MBind checked := fun A B k m =>
  match m with
  | Accept a => k a
  | Reject e msg => Reject e msg
  end.

(** The recurring shape of an optional option: absent, it keeps the
    default; present, it must have the expected type. *)
Definition number_option (options : js_value) (key : string)
  (k : error_kind) (msg : string) (default : double) : checked double :=
  if Has options key then
    if negb (IsNumber (Get options key)) then Reject k msg
    else Accept (DoubleValue (Get options key))
  else Accept default.

Definition boolean_option (options : js_value) (key : string)
  (k : error_kind) (msg : string) (default : bool) : checked bool :=
  if Has options key then
    if negb (IsBoolean (Get options key)) then Reject k msg
    else Accept (BooleanValue (Get options key))
  else Accept default.

Definition string_option (options : js_value) (key : string)
  (k : error_kind) (msg : string) (default : string) : checked string :=
  if Has options key then
    if negb (IsString (Get options key)) then Reject k msg
    else Accept (TOSTR (Get options key))
  else Accept default.

#[global] Instance except_ret : MRet except := fun A a => Ok a.
#[global] Instance except_bind : MBind except := fun A B k m =>
  match m with
  | Ok a => k a
  | Raise w => Raise w
  end.

(** ** Structural errors of a tile buffer *)

(** [mapnik::vector_tile_impl::validity_error].  The binding names five of
    its members; the others are only produced by the library's layer check
    and are kept by their numeric code. *)
Inductive validity_error : Type :=
| TILE_REPEATED_LAYER_NAMES
| TILE_HAS_UNKNOWN_TAG
| TILE_HAS_DIFFERENT_VERSIONS
| INVALID_PBF_BUFFER
| LAYER_HAS_UNSUPPORTED_VERSION
| LAYER_CHECK_ERROR (code : nat).

#[global] Instance validity_error_eq_dec : EqDecision validity_error.
Proof. solve_decision. Defined.

Definition validity_error_encode (e : validity_error) : nat :=
  match e with
  | TILE_REPEATED_LAYER_NAMES => 0
  | TILE_HAS_UNKNOWN_TAG => 1
  | TILE_HAS_DIFFERENT_VERSIONS => 2
  | INVALID_PBF_BUFFER => 3
  | LAYER_HAS_UNSUPPORTED_VERSION => 4
  | LAYER_CHECK_ERROR c => 5 + c
  end%nat.

Definition validity_error_decode (n : nat) : validity_error :=
  match n with
  | 0 => TILE_REPEATED_LAYER_NAMES
  | 1 => TILE_HAS_UNKNOWN_TAG
  | 2 => TILE_HAS_DIFFERENT_VERSIONS
  | 3 => INVALID_PBF_BUFFER
  | 4 => LAYER_HAS_UNSUPPORTED_VERSION
  | S (S (S (S (S c)))) => LAYER_CHECK_ERROR c
  end%nat.

#[global] Instance validity_error_countable : Countable validity_error.
Proof.
  apply (inj_countable' validity_error_encode validity_error_decode).
  by intros [].
Defined.

(** Feature counts that [layer_is_valid] reports: point, line, polygon,
    unknown and raster features. *)
Record feature_counts : Type := mk_counts {
  point_feature_count : Z;
  line_feature_count : Z;
  polygon_feature_count : Z;
  unknown_feature_count : Z;
  raster_feature_count : Z
}.

(** ** The libraries behind the binding *)

(** [mapnik::vector_tile_impl::tile_datasource_pbf]: a layer message placed
    at a tile address. *)
Record tile_datasource_pbf : Type := mk_datasource {
  ds_layer : pbf_reader;
  ds_x : Z;
  ds_y : Z;
  ds_z : Z
}.

(** [mapnik::query]: a bounding box and the attribute names to fetch. *)
Record mapnik_query : Type := mk_query {
  q_bbox : box2d;
  q_property_names : list string
}.

Definition add_property_name (q : mapnik_query) (name : string) : mapnik_query :=
  mk_query (q_bbox q) (q_property_names q ++ [name])%list.

(** The arguments [_composite] receives besides the tiles. *)
Record composite_options : Type := mk_composite_options {
  scale_factor : double;
  offset_x : Z;
  offset_y : Z;
  area_threshold : double;
  strictly_simple : bool;
  multi_polygon_union : bool;
  fill_type : Z;
  scale_denominator : double;
  reencode : bool;
  max_extent : option box2d;
  simplify_distance : double;
  process_all_rings : bool;
  image_format : string;
  scaling_method : Z;
  threading_mode : Z
}.

(** Functions the binding calls and does not define.  A function that
    reports failure through its boolean result or through an exception
    returns an [option] or an [except]; a feature set is the list of the
    features its [next()] yields (a null or invalid set yields none). *)
Class mapnik_api : Type := {
  (** [mapnik::distance(x0, y0, x1, y1)] *)
  mapnik_distance : double -> double -> double -> double -> double;
  (** [mapnik::point_to_segment_distance(x, y, ax, ay, bx, by)] *)
  point_to_segment_distance :
    double -> double -> double -> double -> double -> double -> double;
  (** [mapnik::detail::pip(x0, y0, x1, y1, x, y)]: the ray from the query
      point crosses the edge *)
  pip : double -> double -> double -> double -> double -> double -> bool;
  (** [proj_transform::forward] and [backward] between EPSG:4326 and
      EPSG:3857; [None] when the call returns false *)
  tr_forward : double -> double -> option (double * double);
  tr_backward : double -> double -> option (double * double);
  (** [box2d<double>()], [expand_to_include] and [pad] *)
  box2d_init : box2d;
  expand_to_include : box2d -> double -> double -> box2d;
  pad : box2d -> double -> box2d;
  (** [merc_tile::layer_reader(name, layer_msg)] *)
  layer_reader : merc_tile -> string -> option pbf_reader;
  (** the datasource over one layer *)
  get_name : tile_datasource_pbf -> string;
  get_descriptors : tile_datasource_pbf -> list string;
  features_at_point : tile_datasource_pbf -> double -> double -> double -> list feature;
  features : tile_datasource_pbf -> mapnik_query -> list feature;
  (** [get_layer_name_and_version] and [layer_is_valid] of the tile library *)
  get_layer_name_and_version : pbf_reader -> except (string * Z);
  layer_is_valid : pbf_reader -> except (gset validity_error * feature_counts);
  validity_error_to_string : validity_error -> string;
  (** the value of the member of the enum; a [std::set<validity_error>] is
      read in the order of these values *)
  validity_error_value : validity_error -> nat;
  (** compression *)
  is_gzip_compressed : bytes -> bool;
  is_zlib_compressed : bytes -> bool;
  zlib_decompress : bytes -> except bytes;
  (** the fields a protozero reader finds in a buffer *)
  pbf_fields : bytes -> pbf_reader;
  (** [merge_from_compressed_buffer(tile, data, size, validate, upgrade)]:
      the exception it raises, if any, and the tile it leaves behind *)
  merge_from_compressed_buffer :
    merc_tile -> bytes -> bool -> bool -> option string * merc_tile;
  (** [decode_geometry<double>(geoms, type, version, 0.0, 0.0, 1.0, 1.0)] *)
  decode_geometry : list Z -> Z -> Z -> except geometry;
  (** [mapnik::geometry::is_valid(geom, message)] *)
  geometry_is_valid : geometry -> bool * string;
  (** [mapnik::util::to_geojson(str, feature)]; [None] when it returns false *)
  to_geojson : feature -> option string;
  (** [mapnik::geometry::reproject_copy(geom, merc -> wgs84, n_err)] *)
  reproject_copy : geometry -> geometry;
  (** [box2d<double>(minx, miny, maxx, maxy)] *)
  box2d_of_corners : double -> double -> double -> double -> box2d;
  (** [polygon_fill_type]: the cast from [int], [positive_fill] and the
      bound [polygon_fill_type_max] *)
  polygon_fill_type_of_int : Z -> Z;
  positive_fill : Z;
  polygon_fill_type_max : Z;
  (** [std::launch::async] and [std::launch::deferred] *)
  launch_async : Z;
  launch_deferred : Z;
  (** [mapnik::scaling_method_from_string] and [SCALING_BILINEAR] *)
  scaling_method_from_string : string -> option Z;
  SCALING_BILINEAR : Z;
  (** the rendering of the source tiles into the target that [_composite]
      sets up: the exception it raises, if any, and the target afterwards *)
  composite_tiles :
    merc_tile -> list merc_tile -> composite_options -> option string * merc_tile
}.

(** ** Point-to-geometry distance *)

Module detail.

Record p2p_result : Type := mk_p2p {
  distance : double;
  x_hit : double;
  y_hit : double
}.

(** The default constructor: no hit. *)
Definition p2p_no_hit : p2p_result := mk_p2p d_minus_one d_zero d_zero.

(** The body shared by every multi-geometry loop: keep the sub-result
    when it is a hit and the first or a strictly closer one. *)
Definition keep_closer (p2p p2p_sub : p2p_result) : p2p_result :=
  if d_ge (distance p2p_sub) d_zero
     && (d_lt (distance p2p) d_zero || d_lt (distance p2p_sub) (distance p2p))
  then mk_p2p (distance p2p_sub) (x_hit p2p_sub) (y_hit p2p_sub)
  else p2p.

Section p2p_distance.
Context `{M : mapnik_api}.
(** The query point [x_], [y_]. *)
Variables (x_ y_ : double).

Definition p2p_point (geom : point) : p2p_result :=
  mk_p2p (mapnik_distance (pt_x geom) (pt_y geom) x_ y_) (pt_x geom) (pt_y geom).

Definition p2p_multi_point (geom : list point) : p2p_result :=
  fold_left (fun p2p pt => keep_closer p2p (p2p_point pt)) geom p2p_no_hit.

(** The loop over [i = 1 .. num_points - 1]; the hit is the first end
    point [pt0] of the closest segment. *)
Fixpoint line_string_loop (geom : line_string) (p2p : p2p_result) : p2p_result :=
  match geom with
  | pt0 :: (pt1 :: _) as rest =>
      let dist :=
        point_to_segment_distance x_ y_ (pt_x pt0) (pt_y pt0) (pt_x pt1) (pt_y pt1) in
      line_string_loop rest
        (if d_ge dist d_zero && (d_lt (distance p2p) d_zero || d_lt dist (distance p2p))
         then mk_p2p dist (pt_x pt0) (pt_y pt0)
         else p2p)
  | _ => p2p
  end.

Definition p2p_line_string (geom : line_string) : p2p_result :=
  line_string_loop geom p2p_no_hit.

Definition p2p_multi_line_string (geom : list line_string) : p2p_result :=
  fold_left (fun p2p line => keep_closer p2p (p2p_line_string line)) geom p2p_no_hit.

(** The inner loop of the polygon case: every edge of the ring the ray
    crosses flips [inside]. *)
Fixpoint ring_loop (ring : linear_ring) (inside : bool) : bool :=
  match ring with
  | pt0 :: (pt1 :: _) as rest =>
      ring_loop rest
        (if pip (pt_x pt0) (pt_y pt0) (pt_x pt1) (pt_y pt1) x_ y_
         then negb inside else inside)
  | _ => inside
  end.

(** The loop over the rings.  [None] is one of the two early returns
    (degenerate exterior ring, or point outside the exterior ring);
    otherwise the final value of [inside]. *)
Fixpoint polygon_loop (rings : list linear_ring) (ring_index : nat) (inside : bool)
  : option bool :=
  match rings with
  | [] => Some inside
  | ring :: rest =>
      if (length ring <? 4)%nat then
        if (ring_index =? 0)%nat then None
        else polygon_loop rest (S ring_index) inside
      else
        let inside' := ring_loop ring inside in
        if (ring_index =? 0)%nat && negb inside' then None
        else polygon_loop rest (S ring_index) inside'
  end.

Definition p2p_polygon (poly : polygon) : p2p_result :=
  match polygon_loop poly 0%nat false with
  | Some true => mk_p2p d_zero d_zero d_zero
  | _ => p2p_no_hit
  end.

Definition p2p_multi_polygon (geom : list polygon) : p2p_result :=
  fold_left (fun p2p poly => keep_closer p2p (p2p_polygon poly)) geom p2p_no_hit.

(** [apply_visitor(p2p_distance(x, y), geom)]. *)
Fixpoint p2p_distance (geom : geometry) : p2p_result :=
  match geom with
  | geometry_empty => p2p_no_hit
  | geom_point pt => p2p_point pt
  | geom_multi_point pts => p2p_multi_point pts
  | geom_line_string line => p2p_line_string line
  | geom_multi_line_string lines => p2p_multi_line_string lines
  | geom_polygon poly => p2p_polygon poly
  | geom_multi_polygon polys => p2p_multi_polygon polys
  | geom_collection collection =>
      fold_left (fun p2p g => keep_closer p2p (p2p_distance g)) collection p2p_no_hit
  end.

End p2p_distance.

End detail.

Definition path_to_point_distance `{M : mapnik_api} (geom : geometry) (x y : double)
  : detail.p2p_result :=
  detail.p2p_distance x y geom.

(** ** Sorting *)

(** [std::sort(first, last, comp)] rearranges the range so that no element
    is ordered by [comp] before one that precedes it; the order of
    equivalent elements is unspecified.  The model inserts the elements one
    by one, from the last to the first. *)
Fixpoint sort_insert {A} (comp : A -> A -> bool) (x : A) (l : list A) : list A :=
  match l with
  | [] => [x]
  | y :: l' => if comp y x then y :: sort_insert comp x l' else x :: y :: l'
  end.

Definition std_sort {A} (comp : A -> A -> bool) (l : list A) : list A :=
  foldr (sort_insert comp) [] l.

(** ** Query results *)

Record query_lonlat : Type := mk_lonlat { lon : double; lat : double }.

Record query_result : Type := mk_query_result {
  qr_layer : string;
  qr_distance : double;
  qr_x_hit : double;
  qr_y_hit : double;
  qr_feature : feature
}.

Record query_hit : Type := mk_query_hit {
  hit_distance : double;
  hit_feature_id : nat
}.

Record queryMany_result : Type := mk_queryMany_result {
  qm_features : gmap nat query_result;
  qm_hits : gmap nat (list query_hit)
}.

(** Modelled from the spec: [operator>] of [query_result], which the lambda
    handed to [std::sort] in [_query] applies.  [query_result] is declared in
    [mapnik_vector_tile.hpp], which is not among the sources; the spec says
    that the comparator orders by distance only. *)
Definition query_result_gt (a b : query_result) : bool :=
  d_gt (qr_distance a) (qr_distance b).

Definition string_empty (s : string) : bool :=
  match s with EmptyString => true | _ => false end.

Definition get_message (f : pbf_field) : except pbf_reader :=
  match f with
  | pbf_message _ fields => Ok fields
  | _ => Raise pbf_exception
  end.

Definition reproject_error : string := "could not reproject lon/lat to mercator".

Module VectorTile.

Section query.
Context `{M : mapnik_api}.

(** The [while ((feature = fs->next()))] loop of [_query]; [layer] is the
    name the results are tagged with. *)
Fixpoint query_features (fs : list feature) (x y tolerance : double) (layer : string)
  (arr : list query_result) : except (list query_result) :=
  match fs with
  | [] => Ok arr
  | feature :: rest =>
      let p2p := path_to_point_distance (feature_geometry feature) x y in
      match tr_backward (detail.x_hit p2p) (detail.y_hit p2p) with
      | None => Raise reproject_error
      | Some (hx, hy) =>
          if d_ge (detail.distance p2p) d_zero && d_le (detail.distance p2p) tolerance
          then query_features rest x y tolerance layer
                 (arr ++ [mk_query_result layer (detail.distance p2p) hx hy feature])%list
          else query_features rest x y tolerance layer arr
      end
  end.

(** The [while (item.next(LAYERS))] loop of [_query] over every layer. *)
Fixpoint query_layers (item : pbf_reader) (d : merc_tile) (x y tolerance : double)
  (arr : list query_result) : except (list query_result) :=
  match item with
  | [] => Ok arr
  | pbf_corrupt :: _ | pbf_truncated _ :: _ => Raise pbf_exception
  | f :: rest =>
      if pbf_tag f =? Tile_Encoding.LAYERS then
        layer_msg ← get_message f;
        let ds := mk_datasource layer_msg (tile_x d) (tile_y d) (tile_z d) in
        arr' ← query_features (features_at_point ds x y tolerance) x y tolerance
                 (get_name ds) arr;
        query_layers rest d x y tolerance arr'
      else query_layers rest d x y tolerance arr
  end.

Definition _query (d : merc_tile) (lon lat tolerance : double) (layer_name : string)
  : except (list query_result) :=
  if is_empty d then Ok []
  else
    match tr_forward lon lat with
    | None => Raise reproject_error
    | Some (x, y) =>
        arr ← (if negb (string_empty layer_name) then
                 match layer_reader d layer_name with
                 | Some layer_msg =>
                     let ds := mk_datasource layer_msg (tile_x d) (tile_y d) (tile_z d) in
                     query_features (features_at_point ds x y tolerance) x y tolerance
                       layer_name []
                 | None => Ok []
                 end
               else query_layers (tile_buffer d) d x y tolerance []);
        Ok (std_sort (fun a b => query_result_gt a b) arr)
    end.

(** [VectorTile::query]: argument checks, then [_query] directly or through
    the work queue when the last argument is a function. *)
Definition query_options (info : list js_value) : checked (double * string) :=
  if (length info <? 2)%nat || negb (IsNumber (arg info 0)) || negb (IsNumber (arg info 1))
  then Reject Error "expects lon,lat info"
  else if (2 <? length info)%nat then
    if negb (IsObject (arg info 2))
    then Reject TypeError "optional third argument must be an options object"
    else
      let options := arg info 2 in
      tolerance ← number_option options "tolerance"
                    TypeError "tolerance value must be a number" d_zero;
      layer_name ← string_option options "layer"
                     TypeError "layer value must be a string" EmptyString;
      Accept (tolerance, layer_name)
  else Accept (d_zero, EmptyString).

Definition query (d : merc_tile) (info : list js_value)
  : completion (list query_result) :=
  match query_options info with
  | Reject k msg => Throw k msg
  | Accept (tolerance, layer_name) =>
      let lon := DoubleValue (arg info 0) in
      let lat := DoubleValue (arg info 1) in
      if negb (IsFunction (last_arg info)) then
        match _query d lon lat tolerance layer_name with
        | Ok result => Return result
        | Raise what => Throw Error what
        end
      else Callback (_query d lon lat tolerance layer_name)
  end.

End query.

Section queryMany.
Context `{M : mapnik_api}.

Definition _queryManySort (a b : query_hit) : bool :=
  d_lt (hit_distance a) (hit_distance b).

(** The first loop of [_queryMany]: reproject every query point and grow
    the bounding box around the reprojected points. *)
Fixpoint reproject_points (query : list query_lonlat) (bbox : box2d)
  (points : list (double * double)) : except (box2d * list (double * double)) :=
  match query with
  | [] => Ok (bbox, points)
  | q :: rest =>
      match tr_forward (lon q) (lat q) with
      | None => Raise reproject_error
      | Some (x, y) => reproject_points rest (expand_to_include bbox x y) (points ++ [(x, y)])%list
      end
  end.

(** [std::map::insert]: an existing key keeps its value. *)
Definition map_insert_new {V} (k : nat) (v : V) (m : gmap nat V) : gmap nat V :=
  match m !! k with
  | Some _ => m
  | None => <[k := v]> m
  end.

(** The state of the scan: the next feature id, whether the current
    feature has a hit, and the two maps. *)
Record scan_state : Type := mk_scan {
  scan_idx : nat;
  scan_has_hit : bool;
  scan_features : gmap nat query_result;
  scan_hits : gmap nat (list query_hit)
}.

(** The loop over the query points [p = 0 ..] for one candidate feature. *)
Fixpoint scan_points (feature : feature) (layer : string) (tolerance : double)
  (points : list (double * double)) (p : nat) (st : scan_state) : scan_state :=
  match points with
  | [] => st
  | pt :: rest =>
      let p2p := path_to_point_distance (feature_geometry feature) pt.1 pt.2 in
      if d_ge (detail.distance p2p) d_zero && d_le (detail.distance p2p) tolerance then
        let res := mk_query_result layer d_zero d_zero d_zero feature in
        let hit := mk_query_hit (detail.distance p2p) (scan_idx st) in
        let hits :=
          match scan_hits st !! p with
          | None => <[p := [hit]]> (scan_hits st)
          | Some point_hits => <[p := (point_hits ++ [hit])%list]> (scan_hits st)
          end in
        scan_points feature layer tolerance rest (S p)
          (mk_scan (scan_idx st) true (map_insert_new (scan_idx st) res (scan_features st)) hits)
      else scan_points feature layer tolerance rest (S p) st
  end.

(** The loop over the candidate features. *)
Fixpoint scan_features_loop (fs : list feature) (layer : string) (tolerance : double)
  (points : list (double * double)) (st : scan_state) : scan_state :=
  match fs with
  | [] => st
  | feature :: rest =>
      let st1 :=
        scan_points feature layer tolerance points 0%nat
          (mk_scan (scan_idx st) false (scan_features st) (scan_hits st)) in
      scan_features_loop rest layer tolerance points
        (mk_scan (if scan_has_hit st1 then S (scan_idx st1) else scan_idx st1)
                 (scan_has_hit st1) (scan_features st1) (scan_hits st1))
  end.

(** The query handed to the datasource: the padded bounding box, and the
    requested fields or, when none is requested, every attribute. *)
Definition queryMany_query (ds : tile_datasource_pbf) (bbox : box2d) (fields : list string)
  : mapnik_query :=
  fold_left add_property_name
    (match fields with [] => get_descriptors ds | _ => fields end)
    (mk_query bbox []).

Definition _queryMany (d : merc_tile) (query : list query_lonlat) (tolerance : double)
  (layer_name : string) (fields : list string) : except queryMany_result :=
  match layer_reader d layer_name with
  | None => Raise "Could not find layer in vector tile"
  | Some layer_msg =>
      '(bbox, points) ← reproject_points query box2d_init [];
      let bbox := pad bbox tolerance in
      let ds := mk_datasource layer_msg (tile_x d) (tile_y d) (tile_z d) in
      let q := queryMany_query ds bbox fields in
      let st := scan_features_loop (features ds q) (get_name ds) tolerance points
                  (mk_scan 0 false ∅ ∅) in
      Ok (mk_queryMany_result (scan_features st) (std_sort _queryManySort <$> scan_hits st))
  end.






End queryMany.

(** *** Construction and the size properties *)

(** What [new VectorTile(...)] wraps: an object handed over by the binding
    itself, or a fresh tile. *)
Inductive constructed : Type :=
| WrapExternal
| Construct (d : merc_tile).

(** [std::int64_t max_at_zoom = pow(2, z)].  The conversion is exact up to
    [z = 62]; beyond, the double is out of the range of [int64_t] and the
    conversion yields the smallest value. *)
Definition max_at_zoom (z : Z) : Z := if z <? 63 then 2 ^ z else INT64_MIN.

Definition New_sizes (info : list js_value) : checked (Z * Z) :=
  if (3 <? length info)%nat then
    if negb (IsObject (arg info 3))
    then Reject TypeError "optional fourth argument must be an options object"
    else
      let options := arg info 3 in
      tile_size ←
        (if Has options "tile_size" then
           if negb (IsNumber (Get options "tile_size"))
           then Reject TypeError "optional arg 'tile_size' must be a number"
           else
             let tile_size_tmp := Int32Value (DoubleValue (Get options "tile_size")) in
             if tile_size_tmp <=? 0
             then Reject TypeError "optional arg 'tile_size' must be greater then zero"
             else Accept tile_size_tmp
         else Accept 4096);
      buffer_size ←
        (if Has options "buffer_size" then
           if negb (IsNumber (Get options "buffer_size"))
           then Reject TypeError "optional arg 'buffer_size' must be a number"
           else Accept (Int32Value (DoubleValue (Get options "buffer_size")))
         else Accept 128);
      Accept (tile_size, buffer_size)
  else Accept (4096, 128).

(** [VectorTile::New].  The sum [static_cast<double>(tile_size) +
    (2 * buffer_size)] multiplies in [int] and adds in [double], where the
    sum of two 32-bit values is exact. *)
Definition New (IsConstructCall : bool) (info : list js_value) : completion constructed :=
  if negb IsConstructCall
  then Throw Error "Cannot call constructor as function, you need to use 'new' keyword"
  else if IsExternal (arg info 0) then Return WrapExternal
  else if (length info <? 3)%nat then Throw Error "please provide a z, x, y"
  else if negb (IsNumber (arg info 0)) || negb (IsNumber (arg info 1))
          || negb (IsNumber (arg info 2))
  then Throw TypeError "required parameters (z, x, and y) must be a integers"
  else
    let z := Int32Value (DoubleValue (arg info 0)) in
    let x := Int32Value (DoubleValue (arg info 1)) in
    let y := Int32Value (DoubleValue (arg info 2)) in
    if (z <? 0) || (x <? 0) || (y <? 0)
    then Throw TypeError
           "required parameters (z, x, and y) must be greater then or equal to zero"
    else if x >=? max_at_zoom z
    then Throw TypeError
           "required parameter x is out of range of possible values based on z value"
    else if y >=? max_at_zoom z
    then Throw TypeError
           "required parameter y is out of range of possible values based on z value"
    else
      match New_sizes info with
      | Reject k msg => Throw k msg
      | Accept (tile_size, buffer_size) =>
          if tile_size + wrap_int32 (2 * buffer_size) <=? 0
          then Throw Error "too large of a negative buffer for tilesize"
          else Return (Construct (mk_tile x y z tile_size buffer_size []))
      end.

(** A property setter: what the assignment completes with, and the tile
    afterwards. *)
Definition set_tile_x (d : merc_tile) (value : js_value) : completion unit * merc_tile :=
  if negb (IsNumber value) then (Throw Error "Must provide a number", d)
  else
    let val := Int32Value (DoubleValue value) in
    if val <? 0
    then (Throw Error "tile x coordinate must be greater then or equal to zero", d)
    else (Return (), set_x_field d val).

Definition set_tile_y (d : merc_tile) (value : js_value) : completion unit * merc_tile :=
  if negb (IsNumber value) then (Throw Error "Must provide a number", d)
  else
    let val := Int32Value (DoubleValue value) in
    if val <? 0
    then (Throw Error "tile y coordinate must be greater then or equal to zero", d)
    else (Return (), set_y_field d val).

Definition set_tile_z (d : merc_tile) (value : js_value) : completion unit * merc_tile :=
  if negb (IsNumber value) then (Throw Error "Must provide a number", d)
  else
    let val := Int32Value (DoubleValue value) in
    if val <? 0
    then (Throw Error "tile z coordinate must be greater then or equal to zero", d)
    else (Return (), set_z_field d val).

Definition set_tile_size (d : merc_tile) (value : js_value) : completion unit * merc_tile :=
  if negb (IsNumber value) then (Throw Error "Must provide a number", d)
  else
    let val := Int32Value (DoubleValue value) in
    if val <=? 0
    then (Throw Error "tile size must be greater then zero", d)
    else (Return (), set_tile_size_field d val).

Definition set_buffer_size (d : merc_tile) (value : js_value) : completion unit * merc_tile :=
  if negb (IsNumber value) then (Throw Error "Must provide a number", d)
  else
    let val := Int32Value (DoubleValue value) in
    if wrap_int32 (wrap_int32 (tile_size d) + wrap_int32 (2 * val)) <=? 0
    then (Throw Error "too large of a negative buffer for tilesize", d)
    else (Return (), set_buffer_size_field d val).

(** *** Compositing: option parsing *)

Section composite.
Context `{M : mapnik_api}.

(** A numeric option with a range check on the value given. *)
Definition ranged_option (options : js_value) (key : string) (msg : string)
  (out_of_range : double -> bool) (msg_range : string) (default : double) : checked double :=
  if Has options key then
    if negb (IsNumber (Get options key)) then Reject TypeError msg
    else
      let v := DoubleValue (Get options key) in
      if out_of_range v then Reject TypeError msg_range else Accept v
  else Accept default.

Definition fill_type_option (options : js_value) : checked Z :=
  if Has options "fill_type" then
    if negb (IsNumber (Get options "fill_type"))
    then Reject TypeError "optional arg 'fill_type' must be a number"
    else
      let fill_type :=
        polygon_fill_type_of_int (Int32Value (DoubleValue (Get options "fill_type"))) in
      if fill_type >=? polygon_fill_type_max
      then Reject TypeError "optional arg 'fill_type' out of possible range"
      else Accept fill_type
  else Accept positive_fill.

Definition threading_mode_option (options : js_value) (msg : string) : checked Z :=
  if Has options "threading_mode" then
    if negb (IsNumber (Get options "threading_mode"))
    then Reject TypeError "option 'threading_mode' must be an unsigned integer"
    else
      let threading_mode := Int32Value (DoubleValue (Get options "threading_mode")) in
      if negb (threading_mode =? launch_async)
         && negb (threading_mode =? launch_deferred)
         && negb (threading_mode =? Z.lor launch_async launch_deferred)
      then Reject TypeError msg
      else Accept threading_mode
  else Accept launch_deferred.

Definition offset_option (options : js_value) (key : string) (msg : string) : checked Z :=
  if Has options key then
    if negb (IsNumber (Get options key)) then Reject TypeError msg
    else Accept (wrap_uint32 (Int32Value (DoubleValue (Get options key))))
  else Accept 0.

Definition max_extent_option (options : js_value) : checked (option box2d) :=
  if Has options "max_extent" then
    let max_extent_opt := Get options "max_extent" in
    if negb (IsArray max_extent_opt)
    then Reject TypeError "max_extent value must be an array of [minx,miny,maxx,maxy]"
    else
      let bbox := ArrayItems max_extent_opt in
      if negb (length bbox =? 4)%nat
      then Reject TypeError "max_extent value must be an array of [minx,miny,maxx,maxy]"
      else if negb (IsNumber (arg bbox 0)) || negb (IsNumber (arg bbox 1))
              || negb (IsNumber (arg bbox 2)) || negb (IsNumber (arg bbox 3))
      then Reject Error "max_extent [minx,miny,maxx,maxy] must be numbers"
      else Accept (Some (box2d_of_corners (DoubleValue (arg bbox 0)) (DoubleValue (arg bbox 1))
                                          (DoubleValue (arg bbox 2)) (DoubleValue (arg bbox 3))))
  else Accept None.

Definition image_scaling_option (options : js_value) : checked Z :=
  if Has options "image_scaling" then
    if negb (IsString (Get options "image_scaling"))
    then Reject TypeError "option 'image_scaling' must be a string"
    else
      match scaling_method_from_string (TOSTR (Get options "image_scaling")) with
      | None =>
          Reject TypeError
            "option 'image_scaling' must be a string and a valid scaling method (e.g 'bilinear')"
      | Some method => Accept method
      end
  else Accept SCALING_BILINEAR.

Definition default_composite_options : composite_options :=
  mk_composite_options d_one 0 0
    (S754_finite false 7205759403792794 (-56)) (* 0.1 *)
    true false positive_fill d_zero false None d_zero false "webp"
    SCALING_BILINEAR launch_deferred.

(** The options block of [_compositeSync], in the order of its checks. *)
Definition compositeSync_options (options : js_value) : checked composite_options :=
  area_threshold ← ranged_option options "area_threshold"
      "option 'area_threshold' must be an floating point number"
      (fun v => d_lt v d_zero) "option 'area_threshold' can not be negative"
      (area_threshold default_composite_options);
  simplify_distance ← ranged_option options "simplify_distance"
      "option 'simplify_distance' must be an floating point number"
      (fun v => d_lt v d_zero) "option 'simplify_distance' can not be negative" d_zero;
  strictly_simple ← boolean_option options "strictly_simple"
      TypeError "option 'strictly_simple' must be a boolean" true;
  multi_polygon_union ← boolean_option options "multi_polygon_union"
      TypeError "option 'multi_polygon_union' must be a boolean" false;
  fill_type ← fill_type_option options;
  threading_mode ← threading_mode_option options "optional arg 'threading_mode' is invalid";
  scale_factor ← ranged_option options "scale"
      "optional arg 'scale' must be a number"
      (fun v => d_le v d_zero) "optional arg 'scale' must be greater then zero" d_one;
  scale_denominator ← ranged_option options "scale_denominator"
      "optional arg 'scale_denominator' must be a number"
      (fun v => d_lt v d_zero)
      "optional arg 'scale_denominator' must be non negative number" d_zero;
  offset_x ← offset_option options "offset_x" "optional arg 'offset_x' must be a number";
  offset_y ← offset_option options "offset_y" "optional arg 'offset_y' must be a number";
  reencode ← boolean_option options "reencode"
      TypeError "reencode value must be a boolean" false;
  max_extent ← max_extent_option options;
  process_all_rings ← boolean_option options "process_all_rings"
      TypeError "option 'process_all_rings' must be a boolean" false;
  scaling_method ← image_scaling_option options;
  image_format ← string_option options "image_format"
      TypeError "option 'image_format' must be a string" "webp";
  Accept (mk_composite_options scale_factor offset_x offset_y area_threshold
            strictly_simple multi_polygon_union fill_type scale_denominator reencode
            max_extent simplify_distance process_all_rings image_format scaling_method
            threading_mode).

(** The options block of the asynchronous [composite]. *)
Definition composite_options_async (options : js_value) : checked composite_options :=
  area_threshold ← ranged_option options "area_threshold"
      "option 'area_threshold' must be a number"
      (fun v => d_lt v d_zero) "option 'area_threshold' can not be negative"
      (area_threshold default_composite_options);
  strictly_simple ← boolean_option options "strictly_simple"
      TypeError "strictly_simple value must be a boolean" true;
  multi_polygon_union ← boolean_option options "multi_polygon_union"
      TypeError "multi_polygon_union value must be a boolean" false;
  fill_type ← fill_type_option options;
  threading_mode ← threading_mode_option options
      "optional arg 'threading_mode' is not a valid value";
  simplify_distance ← ranged_option options "simplify_distance"
      "option 'simplify_distance' must be an floating point number"
      (fun v => d_lt v d_zero) "option 'simplify_distance' can not be negative" d_zero;
  scale_factor ← ranged_option options "scale"
      "optional arg 'scale' must be a number"
      (fun v => d_lt v d_zero) "option 'scale' can not be negative" d_one;
  scale_denominator ← ranged_option options "scale_denominator"
      "optional arg 'scale_denominator' must be a number"
      (fun v => d_lt v d_zero) "option 'scale_denominator' can not be negative" d_zero;
  offset_x ← offset_option options "offset_x" "optional arg 'offset_x' must be a number";
  offset_y ← offset_option options "offset_y" "optional arg 'offset_y' must be a number";
  reencode ← boolean_option options "reencode"
      TypeError "reencode value must be a boolean" false;
  max_extent ← max_extent_option options;
  process_all_rings ← boolean_option options "process_all_rings"
      TypeError "option 'process_all_rings' must be a boolean" false;
  scaling_method ← image_scaling_option options;
  image_format ← string_option options "image_format"
      TypeError "option 'image_format' must be a string" "webp";
  Accept (mk_composite_options scale_factor offset_x offset_y area_threshold
            strictly_simple multi_polygon_union fill_type scale_denominator reencode
            max_extent simplify_distance process_all_rings image_format scaling_method
            threading_mode).

(** The loop that unwraps the array of source tiles. *)
Fixpoint unwrap_tiles (vtiles : list js_value) : checked (list merc_tile) :=
  match vtiles with
  | [] => Accept []
  | val :: rest =>
      match val with
      | JsVectorTile vt => tiles ← unwrap_tiles rest; Accept (vt :: tiles)
      | _ => Reject TypeError "must provide an array of VectorTile objects"
      end
  end.

(** [_composite]: configure the processor and render the source tiles into
    the target. *)
Definition _composite (target_vt : merc_tile) (vtiles : list merc_tile)
  (options : composite_options) : option string * merc_tile :=
  composite_tiles target_vt vtiles options.

Definition compositeSync_args (info : list js_value)
  : checked (composite_options * list merc_tile) :=
  if (length info <? 1)%nat || negb (IsArray (arg info 0))
  then Reject TypeError
         "must provide an array of VectorTile objects and an optional options object"
  else
    let vtiles := ArrayItems (arg info 0) in
    if (length vtiles <? 1)%nat
    then Reject TypeError
           "must provide an array with at least one VectorTile object and an optional options object"
    else
      options ←
        (if (1 <? length info)%nat then
           if negb (IsObject (arg info 1))
           then Reject TypeError "optional second argument must be an options object"
           else compositeSync_options (arg info 1)
         else Accept default_composite_options);
      vtiles_vec ← unwrap_tiles vtiles;
      Accept (options, vtiles_vec).

Definition _compositeSync (target_vt : merc_tile) (info : list js_value)
  : completion unit * merc_tile :=
  match compositeSync_args info with
  | Reject k msg => (Throw k msg, target_vt)
  | Accept (options, vtiles_vec) =>
      match _composite target_vt vtiles_vec options with
      | (Some what, target') => (Throw TypeError what, target')
      | (None, target') => (Return (), target')
      end
  end.

Definition compositeSync (target_vt : merc_tile) (info : list js_value)
  : completion unit * merc_tile :=
  _compositeSync target_vt info.

Definition composite_args (info : list js_value)
  : checked (composite_options * list merc_tile) :=
  if negb (IsArray (arg info 0))
  then Reject TypeError
         "must provide an array of VectorTile objects and an optional options object"
  else
    let vtiles := ArrayItems (arg info 0) in
    if (length vtiles <? 1)%nat
    then Reject TypeError
           "must provide an array with at least one VectorTile object and an optional options object"
    else
      options ←
        (if (2 <? length info)%nat then
           if negb (IsObject (arg info 1))
           then Reject TypeError "optional second argument must be an options object"
           else composite_options_async (arg info 1)
         else Accept default_composite_options);
      vtiles_vec ← unwrap_tiles vtiles;
      Accept (options, vtiles_vec).

(** [VectorTile::composite]: without a callback it is [_compositeSync];
    with one, the work is queued and [EIO_Composite] runs [_composite]. *)
Definition composite (target_vt : merc_tile) (info : list js_value)
  : completion unit * merc_tile :=
  if (length info <? 2)%nat || negb (IsFunction (last_arg info))
  then _compositeSync target_vt info
  else
    match composite_args info with
    | Reject k msg => (Throw k msg, target_vt)
    | Accept (options, vtiles_vec) =>
        match _composite target_vt vtiles_vec options with
        | (Some what, target') => (Callback (Raise what), target')
        | (None, target') => (Callback (Ok ()), target')
        end
    end.

End composite.

(** *** Replacing the data of a tile *)

Section setData.
Context `{M : mapnik_api}.

Definition BufferData (v : js_value) : bytes :=
  match v with JsBuffer data => data | _ => [] end.

(** The [validate] and [upgrade] options, in the order the code returns
    them to its two locals [upgrade] and [validate]. *)
Definition setData_options (info : list js_value) : checked (bool * bool) :=
  if (1 <? length info)%nat then
    if negb (IsObject (arg info 1)) then Reject TypeError "second arg must be a options object"
    else
      let options := arg info 1 in
      validate ← boolean_option options "validate"
                   TypeError "option 'validate' must be a boolean" false;
      upgrade ← boolean_option options "upgrade"
                  TypeError "option 'upgrade' must be a boolean" false;
      Accept (validate, upgrade)
  else Accept (false, false).

(** The [try] block shared by [_setDataSync] and [EIO_SetData]:
    [d->clear()] and then the merge of the buffer into the tile. *)
Definition clear_and_merge (d : merc_tile) (data : bytes) (validate upgrade : bool)
  : option string * merc_tile :=
  merge_from_compressed_buffer (clear d) data validate upgrade.

Definition _setDataSync (d : merc_tile) (info : list js_value)
  : completion unit * merc_tile :=
  if (length info <? 1)%nat || negb (IsObject (arg info 0))
  then (Throw TypeError "first argument must be a buffer object", d)
  else if negb (IsBuffer (arg info 0))
  then (Throw TypeError "first arg must be a buffer object", d)
  else
    let data := BufferData (arg info 0) in
    if (length data <=? 0)%nat
    then (Throw Error "cannot accept empty buffer as protobuf", d)
    else
      match setData_options info with
      | Reject k msg => (Throw k msg, d)
      | Accept (validate, upgrade) =>
          match clear_and_merge d data validate upgrade with
          | (Some what, d') => (Throw Error what, d')
          | (None, d') => (Return (), d')
          end
      end.

Definition setDataSync (d : merc_tile) (info : list js_value)
  : completion unit * merc_tile :=
  _setDataSync d info.

(** The work item of the asynchronous [setData]. *)
Definition EIO_SetData (d : merc_tile) (data : bytes) (validate upgrade : bool)
  : except unit * merc_tile :=
  if (length data <=? 0)%nat
  then (Raise "cannot accept empty buffer as protobuf", d)
  else
    match clear_and_merge d data validate upgrade with
    | (Some what, d') => (Raise what, d')
    | (None, d') => (Ok (), d')
    end.

Definition setData (d : merc_tile) (info : list js_value)
  : completion unit * merc_tile :=
  if negb (IsFunction (last_arg info)) then _setDataSync d info
  else if (length info <? 1)%nat || negb (IsObject (arg info 0))
  then (Throw TypeError "first argument must be a buffer object", d)
  else if negb (IsBuffer (arg info 0))
  then (Throw TypeError "first arg must be a buffer object", d)
  else
    match setData_options info with
    | Reject k msg => (Throw k msg, d)
    | Accept (validate, upgrade) =>
        let '(outcome, d') := EIO_SetData d (BufferData (arg info 0)) validate upgrade in
        (Callback outcome, d')
    end.

End setData.

(** *** The structural check [info] *)

Record layer_info : Type := mk_layer_info {
  li_name : option string;
  li_features : Z;
  li_point_features : Z;
  li_linestring_features : Z;
  li_polygon_features : Z;
  li_unknown_features : Z;
  li_raster_features : Z;
  li_version : Z;
  li_errors : option (list string)
}.

(** The object [info] returns. *)
Record info_out : Type := mk_info_out {
  out_layers : list layer_info;
  out_errors : bool;
  out_tile_errors : option (list string)
}.

(** The locals of [info] that change across the loop over the message. *)
Record info_state : Type := mk_info_state {
  layers : list layer_info;
  errors : gset validity_error;
  has_errors : bool;
  first_layer : bool;
  layer_names_set : gset string;
  version : Z
}.

Section info.
Context `{M : mapnik_api}.

(** The order of a [std::set<validity_error>]. *)
Definition validity_error_le (a b : validity_error) : Prop :=
  (validity_error_value a <= validity_error_value b)%nat.

#[global] Instance validity_error_le_dec (a b : validity_error)
  : Decision (validity_error_le a b).
Proof. unfold validity_error_le. apply _. Defined.

(** The loop [for (auto const& e : errors)] over a
    [std::set<validity_error>]: the members in ascending order of their
    values. *)
Definition error_strings (errs : gset validity_error) : list string :=
  validity_error_to_string <$> merge_sort validity_error_le (elements errs).

(** The body of [case LAYERS]; [Raise] when one of the library calls
    throws. *)
Definition info_layer (layer_view : pbf_reader) (st : info_state) : except info_state :=
  '(layer_name, layer_version) ← get_layer_name_and_version layer_view;
  let layer_errors : gset validity_error :=
    if (version st >? 2) || (version st <? 1) then {[ LAYER_HAS_UNSUPPORTED_VERSION ]} else ∅ in
  '(found, counts) ← layer_is_valid layer_view;
  let layer_errors := layer_errors ∪ found in
  let feature_count :=
    point_feature_count counts + line_feature_count counts + polygon_feature_count counts
    + unknown_feature_count counts + raster_feature_count counts in
  let repeated :=
    negb (string_empty layer_name) && bool_decide (layer_name ∈ layer_names_set st) in
  let names :=
    if string_empty layer_name then layer_names_set st
    else {[ layer_name ]} ∪ layer_names_set st in
  let errors1 :=
    if repeated then {[ TILE_REPEATED_LAYER_NAMES ]} ∪ errors st else errors st in
  let layer_obj :=
    mk_layer_info (if string_empty layer_name then None else Some layer_name)
      feature_count (point_feature_count counts) (line_feature_count counts)
      (polygon_feature_count counts) (unknown_feature_count counts)
      (raster_feature_count counts) layer_version
      (if bool_decide (layer_errors = ∅) then None else Some (error_strings layer_errors)) in
  let has_errors1 := if bool_decide (layer_errors = ∅) then has_errors st else true in
  let version1 := if first_layer st then layer_version else version st in
  let errors2 :=
    if negb (first_layer st) && negb (version st =? layer_version)
    then {[ TILE_HAS_DIFFERENT_VERSIONS ]} ∪ errors1 else errors1 in
  Ok (mk_info_state (layers st ++ [layer_obj])%list errors2 has_errors1 false names version1).

(** The [while (tile_msg.next())] loop.  The boolean tells whether an
    exception left the loop; the state is the one reached by then. *)
Fixpoint info_loop (tile_msg : pbf_reader) (st : info_state) : info_state * bool :=
  match tile_msg with
  | [] => (st, false)
  | pbf_corrupt :: _ => (st, true)
  | pbf_truncated tag :: _ =>
      if tag =? Tile_Encoding.LAYERS then (st, true)
      else
        (mk_info_state (layers st) ({[ TILE_HAS_UNKNOWN_TAG ]} ∪ errors st) (has_errors st)
           (first_layer st) (layer_names_set st) (version st), true)
  | f :: rest =>
      if pbf_tag f =? Tile_Encoding.LAYERS then
        match layer_view ← get_message f; info_layer layer_view st with
        | Ok st' => info_loop rest st'
        | Raise _ => (st, true)
        end
      else
        info_loop rest
          (mk_info_state (layers st) ({[ TILE_HAS_UNKNOWN_TAG ]} ∪ errors st) (has_errors st)
             (first_layer st) (layer_names_set st) (version st))
  end.

Definition info_initial : info_state := mk_info_state [] ∅ false true ∅ 1.

(** The message the reader is set on: the buffer, inflated first when it
    starts with a gzip or zlib header. *)
Definition info_message (data : bytes) : except pbf_reader :=
  if is_gzip_compressed data || is_zlib_compressed data
  then decompressed ← zlib_decompress data; Ok (pbf_fields decompressed)
  else Ok (pbf_fields data).

Definition info (info : list js_value) : completion info_out :=
  if (length info <? 1)%nat || negb (IsObject (arg info 0))
  then Throw TypeError "must provide a buffer argument"
  else if negb (IsBuffer (arg info 0))
  then Throw TypeError "first argument is invalid, must be a Buffer"
  else
    let data := BufferData (arg info 0) in
    let '(st, threw) :=
      match info_message data with
      | Ok tile_msg => info_loop tile_msg info_initial
      | Raise _ => (info_initial, true)
      end in
    let errors := if threw then {[ INVALID_PBF_BUFFER ]} ∪ errors st else errors st in
    let has_errors := has_errors st || negb (bool_decide (errors = ∅)) in
    Return (mk_info_out (layers st) has_errors
              (if bool_decide (errors = ∅) then None else Some (error_strings errors))).

End info.

End VectorTile.

(** ** Geometry validity report *)

Record not_valid_feature : Type := mk_not_valid_feature {
  message : string;
  layer : string;
  nv_feature_id : Z;
  geojson : string
}.

Definition double_quote : string := String (Ascii.ascii_of_nat 34) EmptyString.
Definition quoted (s : string) : string := double_quote +:+ s +:+ double_quote.

(** The text the visitor puts before and after the feature. *)
Definition feature_collection_open : string :=
  "{" +:+ quoted "type" +:+ ":" +:+ quoted "FeatureCollection" +:+ ","
  +:+ quoted "features" +:+ ":[".
Definition feature_collection_close : string := "]}".

Definition d_max : double := S754_finite false 9007199254740991 971.
Definition d_lowest : double := S754_finite true 9007199254740991 971.

Section validity.
Context `{M : mapnik_api}.

(** The block every case of [visitor_geom_valid] ends in: copy the feature
    with the offending geometry, print it and record the finding. *)
Definition emplace_not_valid (errors : list not_valid_feature) (feature : feature)
  (layer_name : string) (message : string) (geom : geometry)
  : except (list not_valid_feature) :=
  let feature_new := mk_feature (feature_id feature) geom (feature_data feature) in
  match to_geojson feature_new with
  | None => Raise "Failed to generate GeoJSON geometry"
  | Some feature_str =>
      Ok (errors ++ [mk_not_valid_feature message layer_name (feature_id feature)
                       (feature_collection_open +:+ feature_str +:+ feature_collection_close)])%list
  end.

(** The cases that test validity twice (point, multi point, line string
    and polygon). *)
Definition check_twice (errors : list not_valid_feature) (feature : feature)
  (layer_name : string) (geom : geometry) : except (list not_valid_feature) :=
  if negb (geometry_is_valid geom).1 then
    if negb (geometry_is_valid geom).1
    then emplace_not_valid errors feature layer_name (geometry_is_valid geom).2 geom
    else Ok errors
  else Ok errors.

(** The cases that test validity once (each part, or the whole, of a
    multi line string or multi polygon). *)
Definition check_once (errors : list not_valid_feature) (feature : feature)
  (layer_name : string) (geom : geometry) : except (list not_valid_feature) :=
  if negb (geometry_is_valid geom).1
  then emplace_not_valid errors feature layer_name (geometry_is_valid geom).2 geom
  else Ok errors.

Fixpoint check_parts (errors : list not_valid_feature) (feature : feature)
  (layer_name : string) (parts : list geometry) : except (list not_valid_feature) :=
  match parts with
  | [] => Ok errors
  | part :: rest =>
      errors' ← check_once errors feature layer_name part;
      check_parts errors' feature layer_name rest
  end.

(** [apply_visitor(visitor_geom_valid(errors, feature, layer_name,
    split_multi_features), geom)]. *)
Fixpoint visitor_geom_valid (feature : feature) (layer_name : string)
  (split_multi_features : bool) (geom : geometry) (errors : list not_valid_feature)
  : except (list not_valid_feature) :=
  match geom with
  | geometry_empty => Ok errors
  | geom_point _ | geom_multi_point _ | geom_line_string _ | geom_polygon _ =>
      check_twice errors feature layer_name geom
  | geom_multi_line_string lines =>
      if split_multi_features
      then check_parts errors feature layer_name (geom_line_string <$> lines)
      else check_once errors feature layer_name geom
  | geom_multi_polygon polys =>
      if split_multi_features
      then check_parts errors feature layer_name (geom_polygon <$> polys)
      else check_once errors feature layer_name geom
  | geom_collection geoms =>
      foldl (fun acc g =>
               errors' ← acc;
               visitor_geom_valid feature layer_name split_multi_features g errors')
            (Ok errors) geoms
  end.

(** The loop of the datasource branch of [layer_not_valid]. *)
Fixpoint not_valid_features (fs : list feature) (layer_name : string)
  (split_multi_features lat_lon : bool) (errors : list not_valid_feature)
  : except (list not_valid_feature) :=
  match fs with
  | [] => Ok errors
  | feature :: rest =>
      errors' ←
        visitor_geom_valid feature layer_name split_multi_features
          (if lat_lon then reproject_copy (feature_geometry feature)
           else feature_geometry feature)
          errors;
      not_valid_features rest layer_name split_multi_features lat_lon errors'
  end.

(** The locals filled by the first loop of the other branch. *)
Record layer_fields : Type := mk_layer_fields {
  lf_features : list pbf_reader;
  lf_version : Z;
  lf_name : string
}.

Fixpoint read_layer (layer_msg : pbf_reader) (acc : layer_fields) : except layer_fields :=
  match layer_msg with
  | [] => Ok acc
  | pbf_corrupt :: _ | pbf_truncated _ :: _ => Raise pbf_exception
  | f :: rest =>
      if pbf_tag f =? Layer_Encoding.NAME then
        match f with
        | pbf_string _ name =>
            read_layer rest (mk_layer_fields (lf_features acc) (lf_version acc) name)
        | _ => Raise pbf_exception
        end
      else if pbf_tag f =? Layer_Encoding.FEATURES then
        match f with
        | pbf_message _ feature_msg =>
            read_layer rest
              (mk_layer_fields (lf_features acc ++ [feature_msg])%list (lf_version acc)
                 (lf_name acc))
        | _ => Raise pbf_exception
        end
      else if pbf_tag f =? Layer_Encoding.VERSION then
        match f with
        | pbf_varint _ v =>
            read_layer rest (mk_layer_fields (lf_features acc) (wrap_uint32 v) (lf_name acc))
        | _ => Raise pbf_exception
        end
      else read_layer rest acc
  end.

(** The locals filled by the loop over one feature message. *)
Record feature_fields : Type := mk_feature_fields {
  ff_geom_itr : list Z;
  ff_has_geom : bool;
  ff_has_geom_type : bool;
  ff_geom_type_enum : Z;
  ff_feature_id : Z
}.

Fixpoint read_feature (feature_msg : pbf_reader) (acc : feature_fields)
  : except feature_fields :=
  match feature_msg with
  | [] => Ok acc
  | pbf_corrupt :: _ | pbf_truncated _ :: _ => Raise pbf_exception
  | f :: rest =>
      if pbf_tag f =? Feature_Encoding.ID then
        match f with
        | pbf_varint _ v =>
            read_feature rest
              (mk_feature_fields (ff_geom_itr acc) (ff_has_geom acc) (ff_has_geom_type acc)
                 (ff_geom_type_enum acc) v)
        | _ => Raise pbf_exception
        end
      else if pbf_tag f =? Feature_Encoding.TYPE then
        match f with
        | pbf_varint _ v =>
            read_feature rest
              (mk_feature_fields (ff_geom_itr acc) (ff_has_geom acc) true
                 (wrap_int32 v) (ff_feature_id acc))
        | _ => Raise pbf_exception
        end
      else if pbf_tag f =? Feature_Encoding.GEOMETRY then
        match f with
        | pbf_packed _ vs =>
            read_feature rest
              (mk_feature_fields vs true (ff_has_geom_type acc)
                 (ff_geom_type_enum acc) (ff_feature_id acc))
        | _ => Raise pbf_exception
        end
      else read_feature rest acc
  end.

(** The second loop of that branch.  The feature handed to the visitor is
    created with id 1 and an empty context. *)
Fixpoint not_valid_messages (layer_features : list pbf_reader) (version : Z)
  (layer_name : string) (split_multi_features : bool) (errors : list not_valid_feature)
  : except (list not_valid_feature) :=
  match layer_features with
  | [] => Ok errors
  | feature_msg :: rest =>
      ff ← read_feature feature_msg (mk_feature_fields [] false false 0 0);
      errors' ←
        (if ff_has_geom ff && ff_has_geom_type ff then
           geom ← decode_geometry (ff_geom_itr ff) (ff_geom_type_enum ff) version;
           visitor_geom_valid (mk_feature 1 geom []) layer_name split_multi_features
             geom errors
         else Ok errors);
      not_valid_messages rest version layer_name split_multi_features errors'
  end.

Definition layer_not_valid (layer_msg : pbf_reader) (x y z : Z)
  (errors : list not_valid_feature) (split_multi_features lat_lon web_merc : bool)
  : except (list not_valid_feature) :=
  if web_merc || lat_lon then
    let ds := mk_datasource layer_msg x y z in
    let q :=
      fold_left add_property_name (get_descriptors ds)
        (mk_query (box2d_of_corners d_lowest d_lowest d_max d_max) []) in
    not_valid_features (features ds q) (get_name ds) split_multi_features lat_lon errors
  else
    lf ← read_layer layer_msg (mk_layer_fields [] 1 EmptyString);
    not_valid_messages (lf_features lf) (lf_version lf) (lf_name lf)
      split_multi_features errors.

(** The loop of [vector_tile_not_valid] over the layers of the tile. *)
Fixpoint not_valid_layers (tile_msg : pbf_reader) (v : merc_tile)
  (errors : list not_valid_feature) (split_multi_features lat_lon web_merc : bool)
  : except (list not_valid_feature) :=
  match tile_msg with
  | [] => Ok errors
  | pbf_corrupt :: _ | pbf_truncated _ :: _ => Raise pbf_exception
  | f :: rest =>
      if pbf_tag f =? Tile_Encoding.LAYERS then
        layer_msg ← get_message f;
        errors' ← layer_not_valid layer_msg (tile_x v) (tile_y v) (tile_z v) errors
                    split_multi_features lat_lon web_merc;
        not_valid_layers rest v errors' split_multi_features lat_lon web_merc
      else not_valid_layers rest v errors split_multi_features lat_lon web_merc
  end.

Definition vector_tile_not_valid (v : merc_tile)
  (split_multi_features lat_lon web_merc : bool) : except (list not_valid_feature) :=
  not_valid_layers (tile_buffer v) v [] split_multi_features lat_lon web_merc.

Definition validity_options (options : js_value) : checked (bool * bool * bool) :=
  split_multi_features ← boolean_option options "split_multi_features"
      Error "option 'split_multi_features' must be a boolean" false;
  lat_lon ← boolean_option options "lat_lon"
      Error "option 'lat_lon' must be a boolean" false;
  web_merc ← boolean_option options "web_merc"
      Error "option 'web_merc' must be a boolean" false;
  Accept (split_multi_features, lat_lon, web_merc).

Definition _reportGeometryValiditySync (d : merc_tile) (info : list js_value)
  : completion (list not_valid_feature) :=
  match
    (if (1 <=? length info)%nat then
       if negb (IsObject (arg info 0)) then Reject Error "The first argument must be an object"
       else validity_options (arg info 0)
     else Accept (false, false, false))
  with
  | Reject k msg => Throw k msg
  | Accept (split_multi_features, lat_lon, web_merc) =>
      match vector_tile_not_valid d split_multi_features lat_lon web_merc with
      | Ok errors => Return errors
      | Raise what => Throw Error what
      end
  end.

Definition reportGeometryValiditySync (d : merc_tile) (info : list js_value)
  : completion (list not_valid_feature) :=
  _reportGeometryValiditySync d info.

Definition reportGeometryValidity (d : merc_tile) (info : list js_value)
  : completion (list not_valid_feature) :=
  if (length info =? 0)%nat || ((length info =? 1)%nat && negb (IsFunction (arg info 0)))
  then _reportGeometryValiditySync d info
  else
    match
      (if (2 <=? length info)%nat then
         if negb (IsObject (arg info 0)) then Reject Error "The first argument must be an object"
         else validity_options (arg info 0)
       else Accept (false, false, false))
    with
    | Reject k msg => Throw k msg
    | Accept (split_multi_features, lat_lon, web_merc) =>
        if negb (IsFunction (last_arg info))
        then Throw TypeError "last argument must be a callback function"
        else Callback (vector_tile_not_valid d split_multi_features lat_lon web_merc)
    end.

End validity.

(** ** A reference instance of the library interface

    The functions below stand in for the libraries when the code is run on
    a concrete input.  They follow the documented behaviour of the
    libraries on the small inputs used here: binary64 arithmetic for the
    distances and the ray test, the wire format of the spec for buffers and
    geometry commands, the identity for the projection, and a validity test
    that knows two defects of a ring (too few points, crossing edges). *)
Module reference.

Definition distance2 (x0 y0 x1 y1 : double) : double :=
  let dx := d_sub x1 x0 in
  let dy := d_sub y1 y0 in
  d_add (d_mul dx dx) (d_mul dy dy).

Definition distance (x0 y0 x1 y1 : double) : double := d_sqrt (distance2 x0 y0 x1 y1).

Definition d_1e_14 : double := S754_finite false 6338253001141147 (-99).

Definition point_to_segment_distance (x y ax ay bx by' : double) : double :=
  let len2 := distance2 ax ay bx by' in
  if d_lt len2 d_1e_14 then distance x y ax ay
  else
    let r := d_div (d_add (d_mul (d_sub x ax) (d_sub bx ax)) (d_mul (d_sub y ay) (d_sub by' ay)))
                   len2 in
    if d_lt r d_zero then distance x y ax ay
    else if d_gt r d_one then distance x y bx by'
    else
      let s := d_div (d_sub (d_mul (d_sub ay y) (d_sub bx ax)) (d_mul (d_sub ax x) (d_sub by' ay)))
                     len2 in
      d_mul (SFabs s) (d_sqrt len2).

Definition pip (x0 y0 x1 y1 x y : double) : bool :=
  ((d_le y1 y && d_lt y y0) || (d_le y0 y && d_lt y y1))
  && d_lt x (d_add (d_div (d_mul (d_sub x0 x1) (d_sub y y1)) (d_sub y0 y1)) x1).

Definition box_valid (b : box2d) : bool := d_le (minx b) (maxx b) && d_le (miny b) (maxy b).

Definition expand_to_include (b : box2d) (x y : double) : box2d :=
  if negb (box_valid b) then mk_box2d x y x y
  else
    mk_box2d (if d_lt x (minx b) then x else minx b) (if d_lt y (miny b) then y else miny b)
             (if d_gt x (maxx b) then x else maxx b) (if d_gt y (maxy b) then y else maxy b).

Definition pad (b : box2d) (padding : double) : box2d :=
  mk_box2d (d_sub (minx b) padding) (d_sub (miny b) padding)
           (d_add (maxx b) padding) (d_add (maxy b) padding).

(** *** Geometry commands *)

Definition zigzag (n : Z) : Z := Z.lxor (Z.shiftr n 1) (- Z.land n 1).

Fixpoint take_points (count : nat) (cx cy : Z) (l : list Z)
  : option (list (Z * Z) * (Z * Z) * list Z) :=
  match count with
  | O => Some ([], (cx, cy), l)
  | S count' =>
      match l with
      | dx :: dy :: l' =>
          let x := cx + zigzag dx in
          let y := cy + zigzag dy in
          match take_points count' x y l' with
          | Some (pts, cur, l'') => Some ((x, y) :: pts, cur, l'')
          | None => None
          end
      | _ => None
      end
  end.

Definition flush (cur : list (Z * Z)) (parts : list (list (Z * Z))) : list (list (Z * Z)) :=
  match cur with [] => parts | _ => (parts ++ [cur])%list end.

Fixpoint decode_commands (fuel : nat) (cx cy : Z) (l : list Z) (cur : list (Z * Z))
  (parts : list (list (Z * Z))) : option (list (list (Z * Z))) :=
  match fuel with
  | O => None
  | S fuel' =>
      match l with
      | [] => Some (flush cur parts)
      | c :: l' =>
          let count := Z.to_nat (Z.shiftr c 3) in
          match Z.land c 7 with
          | 1 =>
              match take_points count cx cy l' with
              | Some (pts, (x, y), l'') => decode_commands fuel' x y l'' pts (flush cur parts)
              | None => None
              end
          | 2 =>
              match take_points count cx cy l' with
              | Some (pts, (x, y), l'') => decode_commands fuel' x y l'' (cur ++ pts)%list parts
              | None => None
              end
          | 7 => decode_commands fuel' cx cy l' [] (flush (cur ++ take 1 cur)%list parts)
          | _ => None
          end
      end
  end.

Definition to_point (p : Z * Z) : point := mk_point (double_of_Z p.1) (double_of_Z p.2).

(** Twice the signed area of a ring (surveyor's formula). *)
Fixpoint ring_area (ring : list (Z * Z)) : Z :=
  match ring with
  | a :: (b :: _) as rest => a.1 * b.2 - b.1 * a.2 + ring_area rest
  | _ => 0
  end.

(** A ring of positive area is the exterior ring of a new polygon; any
    other ring is a hole of the polygon before it. *)
Fixpoint group_rings (rings : list (list (Z * Z))) (polys : list (list (list (Z * Z))))
  : list (list (list (Z * Z))) :=
  match rings with
  | [] => polys
  | ring :: rest =>
      group_rings rest
        (match reverse polys with
         | last_poly :: before =>
             if 0 <? ring_area ring then (polys ++ [[ring]])%list
             else (reverse before ++ [(last_poly ++ [ring])%list])%list
         | [] => [[ring]]
         end)
  end.

Definition decode_geometry (geoms : list Z) (geom_type version : Z) : except geometry :=
  match decode_commands (S (length geoms)) 0 0 geoms [] [] with
  | None => Raise "invalid geometry commands"
  | Some parts =>
      Ok (match geom_type with
          | 1 =>
              match concat parts with
              | [] => geometry_empty
              | [p] => geom_point (to_point p)
              | pts => geom_multi_point (to_point <$> pts)
              end
          | 2 =>
              match parts with
              | [] => geometry_empty
              | [line] => geom_line_string (to_point <$> line)
              | lines => geom_multi_line_string (map (map to_point) lines)
              end
          | 3 =>
              match group_rings parts [] with
              | [] => geometry_empty
              | [rings] => geom_polygon (map (map to_point) rings)
              | polys => geom_multi_polygon (map (map (map to_point)) polys)
              end
          | _ => geometry_empty
          end)
  end.

(** *** Wire format *)

Fixpoint read_varint (data : bytes) (shift : N) (acc : N) : option (N * bytes) :=
  match data with
  | [] => None
  | b :: rest =>
      let n := Byte.to_N b in
      let acc' := N.lor acc (N.shiftl (N.land n 127) shift) in
      if N.ltb n 128 then Some (acc', rest) else read_varint rest (shift + 7)%N acc'
  end.

(** The message a length-delimited field holds, by enclosing message
    (0 tile, 1 layer, 2 feature, 3 value) and tag. *)
Inductive payload_kind : Type := kind_string | kind_packed | kind_message (level : nat).

Definition payload_of (level : nat) (tag : Z) : payload_kind :=
  match level, tag with
  | 0%nat, 3 => kind_message 1
  | 1%nat, 2 => kind_message 2
  | 1%nat, 4 => kind_message 3
  | 2%nat, 2 | 2%nat, 4 => kind_packed
  | _, _ => kind_string
  end.

Fixpoint read_packed (fuel : nat) (data : bytes) : option (list Z) :=
  match fuel with
  | O => None
  | S fuel' =>
      match data with
      | [] => Some []
      | _ =>
          match read_varint data 0 0 with
          | Some (v, rest) =>
              match read_packed fuel' rest with
              | Some vs => Some (Z.of_N v :: vs)
              | None => None
              end
          | None => None
          end
      end
  end.

Fixpoint read_message (fuel : nat) (level : nat) (data : bytes) : pbf_reader :=
  match fuel with
  | O => [pbf_corrupt]
  | S fuel' =>
      match data with
      | [] => []
      | _ =>
          match read_varint data 0 0 with
          | None => [pbf_corrupt]
          | Some (key, rest) =>
              let tag := Z.of_N (N.shiftr key 3) in
              match N.land key 7 with
              | 0%N =>
                  match read_varint rest 0 0 with
                  | Some (v, rest') => pbf_varint tag (Z.of_N v) :: read_message fuel' level rest'
                  | None => [pbf_truncated tag]
                  end
              | 2%N =>
                  match read_varint rest 0 0 with
                  | Some (len, rest') =>
                      let n := N.to_nat len in
                      if (length rest' <? n)%nat then [pbf_truncated tag]
                      else
                        let body := take n rest' in
                        let field :=
                          match payload_of level tag with
                          | kind_string => pbf_string tag (String.string_of_list_byte body)
                          | kind_packed =>
                              match read_packed (S (length body)) body with
                              | Some vs => pbf_packed tag vs
                              | None => pbf_corrupt
                              end
                          | kind_message level' => pbf_message tag (read_message fuel' level' body)
                          end in
                        field :: read_message fuel' level (drop n rest')
                  | None => [pbf_truncated tag]
                  end
              | _ => [pbf_corrupt]
              end
          end
      end
  end.

Definition pbf_fields (data : bytes) : pbf_reader := read_message (S (length data)) 0 data.

Definition is_gzip_compressed (data : bytes) : bool :=
  match data with
  | b0 :: b1 :: _ => N.eqb (Byte.to_N b0) 31 && N.eqb (Byte.to_N b1) 139
  | _ => false
  end.

Definition is_zlib_compressed (data : bytes) : bool :=
  match data with
  | b0 :: b1 :: _ =>
      N.eqb (Byte.to_N b0) 120
      && (N.eqb (Byte.to_N b1) 156 || N.eqb (Byte.to_N b1) 1
          || N.eqb (Byte.to_N b1) 218 || N.eqb (Byte.to_N b1) 94)
  | _ => false
  end.

(** *** Layers *)

Fixpoint layer_name_of (layer_msg : pbf_reader) : string :=
  match layer_msg with
  | pbf_string 1 name :: _ => name
  | _ :: rest => layer_name_of rest
  | [] => EmptyString
  end.

Fixpoint layer_version_of (layer_msg : pbf_reader) : Z :=
  match layer_msg with
  | pbf_varint 15 v :: _ => v
  | _ :: rest => layer_version_of rest
  | [] => 1
  end.

Definition has_corrupt (msg : pbf_reader) : bool :=
  existsb (fun f => match f with pbf_corrupt | pbf_truncated _ => true | _ => false end) msg.

Definition get_layer_name_and_version (layer_msg : pbf_reader) : except (string * Z) :=
  if has_corrupt layer_msg then Raise pbf_exception
  else Ok (layer_name_of layer_msg, layer_version_of layer_msg).

Fixpoint find_layer (buffer : pbf_reader) (name : string) : option pbf_reader :=
  match buffer with
  | pbf_message 3 layer_msg :: rest =>
      if String.eqb (layer_name_of layer_msg) name then Some layer_msg else find_layer rest name
  | _ :: rest => find_layer rest name
  | [] => None
  end.

Definition layer_reader (t : merc_tile) (name : string) : option pbf_reader :=
  find_layer (tile_buffer t) name.

Fixpoint field_varint (tag default : Z) (msg : pbf_reader) : Z :=
  match msg with
  | pbf_varint t v :: rest => if t =? tag then v else field_varint tag default rest
  | _ :: rest => field_varint tag default rest
  | [] => default
  end.

Fixpoint field_packed (tag : Z) (msg : pbf_reader) : option (list Z) :=
  match msg with
  | pbf_packed t vs :: rest => if t =? tag then Some vs else field_packed tag rest
  | _ :: rest => field_packed tag rest
  | [] => None
  end.

(** The features of a layer that have a geometry the commands decode to. *)
Fixpoint layer_features (version : Z) (layer_msg : pbf_reader) : list feature :=
  match layer_msg with
  | pbf_message 2 feature_msg :: rest =>
      match field_packed 4 feature_msg with
      | Some geoms =>
          match decode_geometry geoms (field_varint 3 0 feature_msg) version with
          | Ok geometry_empty | Raise _ => layer_features version rest
          | Ok geom => mk_feature (field_varint 1 0 feature_msg) geom [] :: layer_features version rest
          end
      | None => layer_features version rest
      end
  | _ :: rest => layer_features version rest
  | [] => []
  end.

Definition features_of (ds : tile_datasource_pbf) : list feature :=
  layer_features (layer_version_of (ds_layer ds)) (ds_layer ds).

Fixpoint count_features (layer_msg : pbf_reader) (c : feature_counts) : feature_counts :=
  match layer_msg with
  | pbf_message 2 feature_msg :: rest =>
      count_features rest
        (match field_varint 3 0 feature_msg with
         | 1 => mk_counts (point_feature_count c + 1) (line_feature_count c)
                  (polygon_feature_count c) (unknown_feature_count c) (raster_feature_count c)
         | 2 => mk_counts (point_feature_count c) (line_feature_count c + 1)
                  (polygon_feature_count c) (unknown_feature_count c) (raster_feature_count c)
         | 3 => mk_counts (point_feature_count c) (line_feature_count c)
                  (polygon_feature_count c + 1) (unknown_feature_count c) (raster_feature_count c)
         | _ => mk_counts (point_feature_count c) (line_feature_count c)
                  (polygon_feature_count c) (unknown_feature_count c + 1) (raster_feature_count c)
         end)
  | _ :: rest => count_features rest c
  | [] => c
  end.

Definition layer_is_valid (layer_msg : pbf_reader)
  : except (gset validity_error * feature_counts) :=
  if has_corrupt layer_msg then Raise pbf_exception
  else Ok (∅, count_features layer_msg (mk_counts 0 0 0 0 0)).

Definition validity_error_to_string (e : validity_error) : string :=
  match e with
  | TILE_REPEATED_LAYER_NAMES => "TILE_REPEATED_LAYER_NAMES"
  | TILE_HAS_UNKNOWN_TAG => "TILE_HAS_UNKNOWN_TAG"
  | TILE_HAS_DIFFERENT_VERSIONS => "TILE_HAS_DIFFERENT_VERSIONS"
  | INVALID_PBF_BUFFER => "INVALID_PBF_BUFFER"
  | LAYER_HAS_UNSUPPORTED_VERSION => "LAYER_HAS_UNSUPPORTED_VERSION"
  | LAYER_CHECK_ERROR c => "LAYER_CHECK_ERROR_" +:+ pretty c
  end.

(** The merge appends the layers of the buffer one by one and stops at the
    first field that is not a layer. *)
Fixpoint merge_fields (fields : pbf_reader) (t : merc_tile) : option string * merc_tile :=
  match fields with
  | [] => (None, t)
  | pbf_message 3 layer_msg :: rest =>
      if string_empty (layer_name_of layer_msg)
         || bool_decide (is_Some (find_layer (tile_buffer t) (layer_name_of layer_msg)))
      then merge_fields rest t
      else
        merge_fields rest
          (mk_tile (tile_x t) (tile_y t) (tile_z t) (tile_size t) (buffer_size t)
             (tile_buffer t ++ [pbf_message 3 layer_msg])%list)
  | pbf_corrupt :: _ | pbf_truncated _ :: _ => (Some pbf_exception, t)
  | _ :: _ => (Some "Vector Tile Buffer contains invalid tag", t)
  end.

Definition merge_from_compressed_buffer (t : merc_tile) (data : bytes)
  (validate upgrade : bool) : option string * merc_tile :=
  if is_gzip_compressed data || is_zlib_compressed data
  then (Some "decompression error", t)
  else merge_fields (pbf_fields data) t.

Definition composite_tiles (target : merc_tile) (vtiles : list merc_tile)
  (options : composite_options) : option string * merc_tile :=
  fold_left (fun acc vt => merge_fields (tile_buffer vt) acc.2) vtiles (None, target).

(** *** Validity of a ring *)

Definition grid (p : point) : Z * Z := (trunc_double (pt_x p), trunc_double (pt_y p)).

Definition orient (a b c : Z * Z) : Z :=
  (b.1 - a.1) * (c.2 - a.2) - (b.2 - a.2) * (c.1 - a.1).

(** The open segments [a b] and [c d] cross in one interior point. *)
Definition segments_cross (a b c d : Z * Z) : bool :=
  (Z.sgn (orient a b c) * Z.sgn (orient a b d) <? 0)
  && (Z.sgn (orient c d a) * Z.sgn (orient c d b) <? 0).

Fixpoint edges (ring : list (Z * Z)) : list ((Z * Z) * (Z * Z)) :=
  match ring with
  | a :: (b :: _) as rest => (a, b) :: edges rest
  | _ => []
  end.

Definition ring_crosses_itself (ring : linear_ring) : bool :=
  let es := edges (grid <$> ring) in
  existsb (fun e => existsb (fun e' => segments_cross e.1 e.2 e'.1 e'.2) es) es.

Definition polygon_is_valid (poly : polygon) : bool * string :=
  if existsb (fun ring => (length ring <? 4)%nat) poly
  then (false, "Geometry has too few points")
  else if existsb ring_crosses_itself poly
  then (false, "Geometry has invalid self-intersections")
  else (true, EmptyString).

Definition geometry_is_valid (geom : geometry) : bool * string :=
  match geom with
  | geom_polygon poly => polygon_is_valid poly
  | geom_multi_polygon polys =>
      match filter (fun poly => (polygon_is_valid poly).1 = false) polys with
      | [] => (true, EmptyString)
      | poly :: _ => polygon_is_valid poly
      end
  | geom_line_string line =>
      if (length line <? 2)%nat then (false, "Geometry has too few points")
      else (true, EmptyString)
  | geom_multi_line_string lines =>
      if existsb (fun line => (length line <? 2)%nat) lines
      then (false, "Geometry has too few points")
      else (true, EmptyString)
  | _ => (true, EmptyString)
  end.

Definition geometry_type_name (geom : geometry) : string :=
  match geom with
  | geometry_empty => "Empty"
  | geom_point _ => "Point"
  | geom_line_string _ => "LineString"
  | geom_polygon _ => "Polygon"
  | geom_multi_point _ => "MultiPoint"
  | geom_multi_line_string _ => "MultiLineString"
  | geom_multi_polygon _ => "MultiPolygon"
  | geom_collection _ => "GeometryCollection"
  end.

Definition to_geojson (f : feature) : option string :=
  Some ("{" +:+ quoted "type" +:+ ":" +:+ quoted "Feature" +:+ ","
        +:+ quoted "id" +:+ ":" +:+ pretty (feature_id f) +:+ ","
        +:+ quoted "geometry" +:+ ":{" +:+ quoted "type" +:+ ":"
        +:+ quoted (geometry_type_name (feature_geometry f)) +:+ "}}").

Definition scaling_method_from_string (name : string) : option Z :=
  if String.eqb name "near" then Some 0
  else if String.eqb name "bilinear" then Some 1
  else None.

End reference.

Definition ref_api : mapnik_api := {|
  mapnik_distance := reference.distance;
  point_to_segment_distance := reference.point_to_segment_distance;
  pip := reference.pip;
  tr_forward := fun x y => Some (x, y);
  tr_backward := fun x y => Some (x, y);
  box2d_init := mk_box2d d_zero d_zero d_minus_one d_minus_one;
  expand_to_include := reference.expand_to_include;
  pad := reference.pad;
  layer_reader := reference.layer_reader;
  get_name := fun ds => reference.layer_name_of (ds_layer ds);
  get_descriptors := fun _ => [];
  features_at_point := fun ds _ _ _ => reference.features_of ds;
  features := fun ds _ => reference.features_of ds;
  get_layer_name_and_version := reference.get_layer_name_and_version;
  layer_is_valid := reference.layer_is_valid;
  validity_error_to_string := reference.validity_error_to_string;
  validity_error_value := validity_error_encode;
  is_gzip_compressed := reference.is_gzip_compressed;
  is_zlib_compressed := reference.is_zlib_compressed;
  zlib_decompress := fun _ => Raise "decompression error";
  pbf_fields := reference.pbf_fields;
  merge_from_compressed_buffer := reference.merge_from_compressed_buffer;
  decode_geometry := reference.decode_geometry;
  geometry_is_valid := reference.geometry_is_valid;
  to_geojson := reference.to_geojson;
  reproject_copy := fun geom => geom;
  box2d_of_corners := mk_box2d;
  polygon_fill_type_of_int := fun v => v mod 256;
  positive_fill := 2;
  polygon_fill_type_max := 4;
  launch_async := 1;
  launch_deferred := 2;
  scaling_method_from_string := reference.scaling_method_from_string;
  SCALING_BILINEAR := 1;
  composite_tiles := reference.composite_tiles
|}.

(** ** Inputs used in the examples *)

Module examples.

(** A point feature message: id, type 1, one [MoveTo] to [(x, y)]. *)
Definition point_feature (id x y : Z) : pbf_field :=
  pbf_message Layer_Encoding.FEATURES
    [pbf_varint Feature_Encoding.ID id; pbf_varint Feature_Encoding.TYPE 1;
     pbf_packed Feature_Encoding.GEOMETRY [9; 2 * x; 2 * y]].

(** A tile with one layer, "roads", holding the points (1, 0) and (2, 0). *)
Definition two_points : merc_tile :=
  mk_tile 0 0 0 4096 128
    [pbf_message Tile_Encoding.LAYERS
       [pbf_string Layer_Encoding.NAME "roads"; pbf_varint Layer_Encoding.VERSION 2;
        point_feature 7 1 0; point_feature 8 2 0]].

Definition near_point : feature := mk_feature 7 (geom_point (mk_point d_one d_zero)) [].
Definition far_point : feature :=
  mk_feature 8 (geom_point (mk_point (double_of_Z 2) d_zero)) [].

Definition near_result : query_result :=
  mk_query_result "roads" d_one d_one d_zero near_point.
Definition far_result : query_result :=
  mk_query_result "roads" (double_of_Z 2) (double_of_Z 2) d_zero far_point.

Definition number (z : Z) : js_value := JsNumber (double_of_Z z).

(** The arguments of [vt.query(0, 0, {tolerance: 5, layer: "roads"})]. *)
Definition query_roads_args : list js_value :=
  [number 0; number 0; JsObject [("tolerance", number 5); ("layer", JsString "roads")]].

(** A closed square ring with the corners (lo, lo) and (hi, hi). *)
Definition square (lo hi : Z) : linear_ring :=
  [mk_point (double_of_Z lo) (double_of_Z lo); mk_point (double_of_Z hi) (double_of_Z lo);
   mk_point (double_of_Z hi) (double_of_Z hi); mk_point (double_of_Z lo) (double_of_Z hi);
   mk_point (double_of_Z lo) (double_of_Z lo)].

(** The bytes of a tile message with two layers that hold nothing but the
    name "roads" (field 3, length 7; inside it field 1, length 5). *)
Definition roads_layer_bytes : bytes :=
  [Byte.x1a; Byte.x07; Byte.x0a; Byte.x05; Byte.x72; Byte.x6f; Byte.x61; Byte.x64; Byte.x73].
Definition two_roads_layers : bytes := roads_layer_bytes ++ roads_layer_bytes.

(** A buffer that starts with a field the tile format does not have
    (field 1, a varint). *)
Definition not_a_tile : bytes := [Byte.x08; Byte.x01].

(** The arguments of [new VectorTile(0, 0, 0, {tile_size: 4096,
    buffer_size: -2000})]. *)
Definition narrow_buffer_args : list js_value :=
  [number 0; number 0; number 0;
   JsObject [("tile_size", number 4096); ("buffer_size", number (-2000))]].

Definition narrow_buffer_tile : merc_tile := mk_tile 0 0 0 4096 (-2000) [].

(** The arguments of [vt.composite([vt2], {scale: 0}, callback)] and of
    [vt.compositeSync([vt2], {scale: 0})]. *)
Definition empty_tile : merc_tile := mk_tile 0 0 0 4096 128 [].
Definition scale_zero_async : list js_value :=
  [JsArray [JsVectorTile empty_tile]; JsObject [("scale", JsNumber d_zero)]; JsFunction].
Definition scale_zero_sync : list js_value :=
  [JsArray [JsVectorTile empty_tile]; JsObject [("scale", JsNumber d_zero)]].

(** Geometry commands of a closed ring that crosses itself, with corners
    (0, 0), (0, 2), (4, 0) and (4, 4) moved by (dx, dy) from the cursor; the
    parameters are zigzag encoded. *)
Definition bowtie_commands (dx dy : Z) : list Z := [9; dx; dy; 26; 0; 4; 8; 3; 0; 8; 15].

Definition polygon_feature (id : Z) (commands : list Z) : pbf_field :=
  pbf_message Layer_Encoding.FEATURES
    [pbf_varint Feature_Encoding.ID id; pbf_varint Feature_Encoding.TYPE 3;
     pbf_packed Feature_Encoding.GEOMETRY commands].

(** A tile whose only feature, with id 7, is one bowtie polygon. *)
Definition bowtie_tile : merc_tile :=
  mk_tile 0 0 0 4096 128
    [pbf_message Tile_Encoding.LAYERS
       [pbf_string Layer_Encoding.NAME "layer"; pbf_varint Layer_Encoding.VERSION 2;
        polygon_feature 7 (bowtie_commands 0 0)]].

(** A tile whose only feature is a multi polygon of two bowties, the
    second one starting at (10, 0). *)
Definition two_bowties_tile : merc_tile :=
  mk_tile 0 0 0 4096 128
    [pbf_message Tile_Encoding.LAYERS
       [pbf_string Layer_Encoding.NAME "layer"; pbf_varint Layer_Encoding.VERSION 2;
        polygon_feature 7 (bowtie_commands 0 0 ++ bowtie_commands 12 7)]].

End examples.

(** * Vocabulary of the properties *)

Ltac order_cases :=
  repeat match goal with
  | H : context [Z.compare ?x ?y] |- _ => destruct (Z.compare_spec x y)
  | |- context [Z.compare ?x ?y] => destruct (Z.compare_spec x y)
  | H : context [Pos.compare_cont Eq ?x ?y] |- _ =>
      change (Pos.compare_cont Eq x y) with (Pos.compare x y) in *;
      destruct (Pos.compare_spec x y)
  | |- context [Pos.compare_cont Eq ?x ?y] =>
      change (Pos.compare_cont Eq x y) with (Pos.compare x y) in *;
      destruct (Pos.compare_spec x y)
  end.

Section vocabulary.
Context `{M : mapnik_api}.

(** A hit is a distance between 0 and the tolerance; it is never NaN. *)
Definition is_hit (dist tolerance : double) : bool :=
  d_ge dist d_zero && d_le dist tolerance.

(** Ascending and descending order of the distances of query results. *)
Definition ascending (arr : list query_result) : Prop :=
  forall (i j : nat) (a b : query_result),
    (i < j)%nat -> arr !! i = Some a -> arr !! j = Some b ->
    d_le (qr_distance a) (qr_distance b) = true.

Definition descending (arr : list query_result) : Prop :=
  forall (i j : nat) (a b : query_result),
    (i < j)%nat -> arr !! i = Some a -> arr !! j = Some b ->
    d_le (qr_distance b) (qr_distance a) = true.

(** What one candidate feature contributes to the result. *)
Definition hit_of (layer : string) (x y tolerance : double) (f : feature)
  : option query_result :=
  let p2p := path_to_point_distance (feature_geometry f) x y in
  match tr_backward (detail.x_hit p2p) (detail.y_hit p2p) with
  | Some (hx, hy) =>
      if is_hit (detail.distance p2p) tolerance
      then Some (mk_query_result layer (detail.distance p2p) hx hy f)
      else None
  | None => None
  end.

(** The feature registers a hit against the point. *)
Definition point_hit (f : feature) (tolerance : double) (pt : double * double) : bool :=
  is_hit (detail.distance (path_to_point_distance (feature_geometry f) pt.1 pt.2)) tolerance.

(** The feature registers a hit against at least one of the points. *)
Definition has_hit (tolerance : double) (points : list (double * double)) (f : feature)
  : bool :=
  existsb (point_hit f tolerance) points.

Definition feature_record (layer : string) (f : feature) : query_result :=
  mk_query_result layer d_zero d_zero d_zero f.

Definition hits_ok (tolerance : double) (hits : gmap nat (list query_hit)) : Prop :=
  forall (p : nat) (l : list query_hit),
    hits !! p = Some l -> Forall (fun h => is_hit (hit_distance h) tolerance = true) l.

(** The hit of the feature [numbered.2], known under the id [numbered.1],
    against the point [pt]: its distance to the point, when that is between
    0 and the tolerance. *)
Definition hit_at (tolerance : double) (pt : double * double) (numbered : nat * feature)
  : option query_hit :=
  let dist :=
    detail.distance (path_to_point_distance (feature_geometry numbered.2) pt.1 pt.2) in
  if is_hit dist tolerance then Some (mk_query_hit dist numbered.1) else None.

(** The hits of one query point.  [hitting] is the list of the features in
    the features map, so that the feature under the id [idx] is
    [hitting !! idx]; each of them that registers a hit against the point
    contributes that hit, with its id and its distance to the point. *)
Definition point_hits (tolerance : double) (hitting : list feature) (pt : double * double)
  : list query_hit :=
  omap (hit_at tolerance pt) (imap pair hitting).

Definition ascending_hits (hits : list query_hit) : Prop :=
  forall (i j : nat) (a b : query_hit),
    (i < j)%nat -> hits !! i = Some a -> hits !! j = Some b ->
    d_le (hit_distance a) (hit_distance b) = true.

(** The result of a batch query over the candidate features [candidates]
    of the layer [layer].  The features map holds, under the ids 0, 1, 2,
    ..., the candidates that register a hit against at least one point, in
    the order of the candidates.  The hits map holds, under the index of
    every query point that is hit at all, the hits of that point in
    ascending order of distance, and nothing under any other index. *)
Definition batch_result (layer : string) (tolerance : double)
  (points : list (double * double)) (candidates : list feature)
  (result : queryMany_result) : Prop :=
  let hitting := filter (fun f => has_hit tolerance points f = true) candidates in
  (forall idx : nat,
     qm_features result !! idx = feature_record layer <$> hitting !! idx)
  /\ (forall p : nat,
        match points !! p with
        | Some pt =>
            exists hits : list query_hit,
              hits ≡ₚ point_hits tolerance hitting pt
              /\ ascending_hits hits
              /\ qm_hits result !! p = match hits with [] => None | _ => Some hits end
        | None => qm_hits result !! p = None
        end).

(** The bounding box of a list of points, grown from [bbox]. *)
Definition bounding_box (bbox : box2d) (points : list (double * double)) : box2d :=
  fold_left (fun b pt => expand_to_include b pt.1 pt.2) points bbox.

(** The loop gets past the field without an exception: the field decodes
    and, when it is a layer, so do its name, version and features. *)
Definition readable_field (f : pbf_field) : bool :=
  match f with
  | pbf_corrupt | pbf_truncated _ => false
  | _ =>
      if pbf_tag f =? Tile_Encoding.LAYERS then
        match get_message f with
        | Ok layer_view =>
            match get_layer_name_and_version layer_view, layer_is_valid layer_view with
            | Ok _, Ok _ => true
            | _, _ => false
            end
        | Raise _ => false
        end
      else true
  end.

(** The segments of a line string or of a ring: every point but the last
    with the point that follows it, in order. *)
Fixpoint segments (geom : list point) : list (point * point) :=
  match geom with
  | pt0 :: (pt1 :: _) as rest => (pt0, pt1) :: segments rest
  | _ => []
  end.

(** The ray test on one edge: the ray from the point [(x, y)] crosses the
    edge from [s.1] to [s.2]. *)
Definition crosses (x y : double) (s : point * point) : bool :=
  pip (pt_x s.1) (pt_y s.1) (pt_x s.2) (pt_y s.2) x y.

(** The ray from the point crosses an odd number of edges of the ring. *)
Definition inside_ring (x y : double) (ring : linear_ring) : bool :=
  Nat.odd (length (filter (fun s => crosses x y s = true) (segments ring))).

(** Even-odd rule over several rings. *)
Definition even_odd (x y : double) (rings : list linear_ring) : bool :=
  foldr (fun ring acc => xorb (inside_ring x y ring) acc) false rings.

Definition has_four_points (ring : linear_ring) : bool := (4 <=? length ring)%nat.

(** One stop of the report: a feature, the name of its layer, and the
    geometry handed to the visitor. *)
Record visit : Type := mk_visit {
  visit_feature : feature;
  visit_layer : string;
  visit_geometry : geometry
}.

(** The geometries the visitor tests for one geometry: the geometry
    itself; with [split_multi_features], the parts of a multi line string
    or multi polygon; for a collection, what it tests for the members. *)
Fixpoint tested_geometries (split_multi_features : bool) (geom : geometry)
  : list geometry :=
  match geom with
  | geometry_empty => []
  | geom_multi_line_string lines =>
      if split_multi_features then geom_line_string <$> lines else [geom]
  | geom_multi_polygon polys =>
      if split_multi_features then geom_polygon <$> polys else [geom]
  | geom_collection geoms =>
      flat_map (tested_geometries split_multi_features) geoms
  | _ => [geom]
  end.

(** Those of them that fail the validity test. *)
Definition offending (split_multi_features : bool) (geom : geometry) : list geometry :=
  filter (fun g => (geometry_is_valid g).1 = false)
    (tested_geometries split_multi_features geom).

(** The finding for an offending geometry, when the feature prints. *)
Definition finding (f : feature) (layer_name : string) (geom : geometry)
  : option not_valid_feature :=
  feature_str ← to_geojson (mk_feature (feature_id f) geom (feature_data f));
  Some (mk_not_valid_feature (geometry_is_valid geom).2 layer_name (feature_id f)
          (feature_collection_open +:+ feature_str +:+ feature_collection_close)).

Definition expected_findings (split_multi_features : bool) (v : visit)
  : list not_valid_feature :=
  omap (finding (visit_feature v) (visit_layer v))
    (offending split_multi_features (visit_geometry v)).

(** The findings of a list of geometries, all of which print. *)
Definition findings_of (f : feature) (layer_name : string) (geoms : list geometry)
  (errors errors' : list not_valid_feature) : Prop :=
  errors' = errors ++ omap (finding f layer_name)
                        (filter (fun g => (geometry_is_valid g).1 = false) geoms)
  /\ Forall (fun g => is_Some (finding f layer_name g))
       (filter (fun g => (geometry_is_valid g).1 = false) geoms).

Definition datasource_visits (fs : list feature) (layer_name : string) (lat_lon : bool)
  : list visit :=
  (fun f => mk_visit f layer_name
              (if lat_lon then reproject_copy (feature_geometry f) else feature_geometry f))
  <$> fs.

(** The layer messages of a tile message, in order. *)
Fixpoint tile_layers (tile_msg : pbf_reader) : list pbf_reader :=
  match tile_msg with
  | [] => []
  | pbf_message tag layer_msg :: rest =>
      if tag =? Tile_Encoding.LAYERS then layer_msg :: tile_layers rest
      else tile_layers rest
  | _ :: rest => tile_layers rest
  end.

(** The feature messages of a layer message, in order: the payloads of
    its fields with the tag FEATURES. *)
Definition feature_messages (layer_msg : pbf_reader) : list pbf_reader :=
  omap (fun f =>
          match f with
          | pbf_message tag feature_msg =>
              if tag =? Layer_Encoding.FEATURES then Some feature_msg else None
          | _ => None
          end)
       layer_msg.

(** The values of the fields of a message that hold a string, a number or
    packed numbers under a given tag, in order. *)
Definition string_fields (tag : Z) (msg : pbf_reader) : list string :=
  omap (fun f =>
          match f with
          | pbf_string tag' value => if tag' =? tag then Some value else None
          | _ => None
          end)
       msg.

Definition varint_fields (tag : Z) (msg : pbf_reader) : list Z :=
  omap (fun f =>
          match f with
          | pbf_varint tag' value => if tag' =? tag then Some value else None
          | _ => None
          end)
       msg.

Definition packed_fields (tag : Z) (msg : pbf_reader) : list (list Z) :=
  omap (fun f =>
          match f with
          | pbf_packed tag' values => if tag' =? tag then Some values else None
          | _ => None
          end)
       msg.

(** The name and the version of a layer message: the last name field, or
    the empty string; the last version field as a [uint32], or 1. *)
Definition layer_name_field (layer_msg : pbf_reader) : string :=
  default EmptyString (last (string_fields Layer_Encoding.NAME layer_msg)).

Definition layer_version_field (layer_msg : pbf_reader) : Z :=
  default 1 (wrap_uint32 <$> last (varint_fields Layer_Encoding.VERSION layer_msg)).

(** The geometry and the geometry type of a feature message: the last
    field of each kind, if there is one. *)
Definition geometry_field (feature_msg : pbf_reader) : option (list Z) :=
  last (packed_fields Feature_Encoding.GEOMETRY feature_msg).

Definition type_field (feature_msg : pbf_reader) : option Z :=
  wrap_int32 <$> last (varint_fields Feature_Encoding.TYPE feature_msg).

(** The stop at one feature message of a layer named [layer_name]: none
    when the message has no geometry or no type; otherwise one, at the
    decoded geometry. *)
Definition message_visits (version : Z) (layer_name : string) (feature_msg : pbf_reader)
  (visits : list visit) : Prop :=
  match geometry_field feature_msg, type_field feature_msg with
  | Some geoms, Some geom_type =>
      exists geom : geometry,
        decode_geometry geoms geom_type version = Ok geom
        /\ visits = [mk_visit (mk_feature 1 geom []) layer_name geom]
  | _, _ => visits = []
  end.

(** The visits of a layer.  With [lat_lon] or [web_merc]: one for every
    feature the datasource of the layer yields when asked for everything.
    Otherwise: those of every feature message of the layer, in order. *)
Definition layer_visits (x y z : Z) (lat_lon web_merc : bool) (layer_msg : pbf_reader)
  (visits : list visit) : Prop :=
  if web_merc || lat_lon then
    let ds := mk_datasource layer_msg x y z in
    let q :=
      fold_left add_property_name (get_descriptors ds)
        (mk_query (box2d_of_corners d_lowest d_lowest d_max d_max) []) in
    visits = datasource_visits (features ds q) (get_name ds) lat_lon
  else
    exists per_feature : list (list visit),
      Forall2 (message_visits (layer_version_field layer_msg) (layer_name_field layer_msg))
        (feature_messages layer_msg) per_feature
      /\ visits = concat per_feature.

(** The visits of a tile: those of every layer message of the tile, layer
    after layer and feature after feature. *)
Definition tile_visits (v : merc_tile) (lat_lon web_merc : bool) (visits : list visit)
  : Prop :=
  exists per_layer : list (list visit),
    Forall2 (layer_visits (tile_x v) (tile_y v) (tile_z v) lat_lon web_merc)
      (tile_layers (tile_buffer v)) per_layer
    /\ visits = concat per_layer.

(** The report is the list of the findings of the visits, in order, and
    every offending geometry of every visit has its finding. *)
Definition reports (split_multi_features : bool) (visits : list visit)
  (errors errors' : list not_valid_feature) : Prop :=
  errors' = errors ++ flat_map (expected_findings split_multi_features) visits
  /\ Forall (fun v => length (expected_findings split_multi_features v)
                      = length (offending split_multi_features (visit_geometry v)))
       visits.

(** The geometry is not empty and fails the validity test. *)
Definition fails_validity (geom : geometry) : bool :=
  match geom with
  | geometry_empty => false
  | _ => negb (geometry_is_valid geom).1
  end.

Definition is_collection (geom : geometry) : bool :=
  match geom with geom_collection _ => true | _ => false end.

(** The number of feature messages in the layers of a tile. *)
Definition tile_feature_count (d : merc_tile) : nat :=
  length (flat_map
            (fun f =>
               match f with
               | pbf_message 3 layer_msg =>
                   filter (fun g => pbf_tag g = Layer_Encoding.FEATURES) layer_msg
               | _ => []
               end)
            (tile_buffer d)).

End vocabulary.

(** * More of the binding

    The functions below are the rest of the binding that reads or replaces
    the data of a tile: [addData], the simplicity report, the GeoJSON
    writers and [getData]. *)

(** ** More of the libraries behind the binding *)

(** Functions and constants the code below calls and does not define. *)
Class tile_api : Type := {
  (** [mapnik::geometry::is_simple(geom)] *)
  geometry_is_simple : geometry -> bool;
  (** [merc_tile::has_layer(name)], [get_layers()] and
      [layer_reader(index, layer_msg)] *)
  has_layer : merc_tile -> string -> bool;
  get_layers : merc_tile -> list string;
  layer_reader_at : merc_tile -> nat -> option pbf_reader;
  (** [merc_tile::data()] with [size()], [release_buffer()] and [clear()] *)
  tile_data : merc_tile -> bytes;
  release_buffer : merc_tile -> bytes * merc_tile;
  tile_clear : merc_tile -> merc_tile;
  (** [node::Buffer::kMaxLength] *)
  kMaxLength : Z;
  (** [zlib_compress(data, size, output, true, level, strategy)] *)
  zlib_compress : bytes -> Z -> Z -> except bytes;
  (** the constants of [zlib.h] the binding names *)
  Z_DEFAULT_COMPRESSION : Z;
  Z_DEFAULT_STRATEGY : Z;
  Z_FILTERED : Z;
  Z_HUFFMAN_ONLY : Z;
  Z_RLE : Z;
  Z_FIXED : Z
}.

(** ** Non-simple geometries *)

Record not_simple_feature : Type := mk_not_simple_feature {
  ns_layer : string;
  ns_feature_id : Z
}.

Section simplicity.
Context `{M : mapnik_api} `{T : tile_api}.

(** An exception of the datasource or of its feature set is not part of
    the interface: the function is read as far as the library calls
    return. *)
Definition layer_not_simple (layer_msg : pbf_reader) (x y z : Z)
  (errors : list not_simple_feature) : list not_simple_feature :=
  let ds := mk_datasource layer_msg x y z in
  let q :=
    fold_left add_property_name (get_descriptors ds)
      (mk_query (box2d_of_corners d_lowest d_lowest d_max d_max) []) in
  fold_left
    (fun errors feature =>
       if negb (geometry_is_simple (feature_geometry feature))
       then errors ++ [mk_not_simple_feature (get_name ds) (feature_id feature)]
       else errors)
    (features ds q) errors.

(** The loop of [vector_tile_not_simple] over the layers of the tile. *)
Fixpoint not_simple_layers (tile_msg : pbf_reader) (v : merc_tile)
  (errors : list not_simple_feature) : except (list not_simple_feature) :=
  match tile_msg with
  | [] => Ok errors
  | pbf_corrupt :: _ | pbf_truncated _ :: _ => Raise pbf_exception
  | f :: rest =>
      if pbf_tag f =? Tile_Encoding.LAYERS then
        layer_msg ← get_message f;
        not_simple_layers rest v
          (layer_not_simple layer_msg (tile_x v) (tile_y v) (tile_z v) errors)
      else not_simple_layers rest v errors
  end.

Definition vector_tile_not_simple (v : merc_tile) : except (list not_simple_feature) :=
  not_simple_layers (tile_buffer v) v [].

Definition _reportGeometrySimplicitySync (d : merc_tile) (info : list js_value)
  : completion (list not_simple_feature) :=
  match vector_tile_not_simple d with
  | Ok errors => Return errors
  | Raise what => Throw Error what
  end.

Definition reportGeometrySimplicitySync (d : merc_tile) (info : list js_value)
  : completion (list not_simple_feature) :=
  _reportGeometrySimplicitySync d info.

Definition reportGeometrySimplicity (d : merc_tile) (info : list js_value)
  : completion (list not_simple_feature) :=
  if (length info =? 0)%nat then _reportGeometrySimplicitySync d info
  else if negb (IsFunction (last_arg info))
  then Throw TypeError "last argument must be a callback function"
  else Callback (vector_tile_not_simple d).

End simplicity.

(** ** Adding data to a tile *)

Module VectorTile_data.

Section addData.
Context `{M : mapnik_api}.

(** The [validate] and [upgrade] options of [addData]. *)
Definition addData_options (info : list js_value) : checked (bool * bool) :=
  if (1 <? length info)%nat then
    if negb (IsObject (arg info 1)) then Reject TypeError "second arg must be a options object"
    else
      let options := arg info 1 in
      validate ← boolean_option options "validate"
                   TypeError "option 'validate' must be a boolean" false;
      upgrade ← boolean_option options "upgrade"
                  TypeError "option 'upgrade' must be a boolean" false;
      Accept (validate, upgrade)
  else Accept (false, false).

Definition _addDataSync (d : merc_tile) (info : list js_value)
  : completion unit * merc_tile :=
  if (length info <? 1)%nat || negb (IsObject (arg info 0))
  then (Throw TypeError "first argument must be a buffer object", d)
  else if negb (IsBuffer (arg info 0))
  then (Throw TypeError "first arg must be a buffer object", d)
  else
    let data := VectorTile.BufferData (arg info 0) in
    if (length data <=? 0)%nat
    then (Throw Error "cannot accept empty buffer as protobuf", d)
    else
      match addData_options info with
      | Reject k msg => (Throw k msg, d)
      | Accept (validate, upgrade) =>
          match merge_from_compressed_buffer d data validate upgrade with
          | (Some what, d') => (Throw Error what, d')
          | (None, d') => (Return (), d')
          end
      end.

Definition addDataSync (d : merc_tile) (info : list js_value)
  : completion unit * merc_tile :=
  _addDataSync d info.

(** The work item of the asynchronous [addData]. *)
Definition EIO_AddData (d : merc_tile) (data : bytes) (validate upgrade : bool)
  : except unit * merc_tile :=
  if (length data <=? 0)%nat
  then (Raise "cannot accept empty buffer as protobuf", d)
  else
    match merge_from_compressed_buffer d data validate upgrade with
    | (Some what, d') => (Raise what, d')
    | (None, d') => (Ok (), d')
    end.

Definition addData (d : merc_tile) (info : list js_value)
  : completion unit * merc_tile :=
  if negb (IsFunction (last_arg info)) then _addDataSync d info
  else if (length info <? 1)%nat || negb (IsObject (arg info 0))
  then (Throw TypeError "first argument must be a buffer object", d)
  else if negb (IsBuffer (arg info 0))
  then (Throw TypeError "first arg must be a buffer object", d)
  else
    match addData_options info with
    | Reject k msg => (Throw k msg, d)
    | Accept (validate, upgrade) =>
        let '(outcome, d') :=
          EIO_AddData d (VectorTile.BufferData (arg info 0)) validate upgrade in
        (Callback outcome, d')
    end.

End addData.

End VectorTile_data.

(** ** GeoJSON of a tile *)

(** The separator between two features of a layer: a line feed and a
    comma. *)
Definition newline_comma : string := String (Ascii.ascii_of_nat 10) ",".

(** The text every layer object starts with, up to its name, and the text
    between the name and the features. *)
Definition layer_collection_open (layer_name : string) : string :=
  ("{" +:+ quoted "type" +:+ ":" +:+ quoted "FeatureCollection" +:+ ",")
  +:+ (quoted "name" +:+ ":" +:+ double_quote +:+ layer_name +:+ double_quote +:+ ","
       +:+ quoted "features" +:+ ":[").

Inductive geojson_write_type : Type :=
| geojson_write_all
| geojson_write_array
| geojson_write_layer_name
| geojson_write_layer_index.

Section to_geojson.
Context `{M : mapnik_api} `{T : tile_api}.

(** The loop of [layer_to_geojson] over the features of the layer; [first]
    is true until a feature has been written. *)
Fixpoint layer_features_to_geojson (fs : list feature) (result : string) (first : bool)
  : except (string * bool) :=
  match fs with
  | [] => Ok (result, first)
  | feature :: rest =>
      let result := if first then result else result +:+ newline_comma in
      let feature_new :=
        mk_feature (feature_id feature) (reproject_copy (feature_geometry feature))
          (feature_data feature) in
      match to_geojson feature_new with
      | None => Raise "Failed to generate GeoJSON geometry"
      | Some feature_str => layer_features_to_geojson rest (result +:+ feature_str) false
      end
  end.

(** [layer_to_geojson(layer, result, x, y, z)]: whether a feature was
    written, and the text after the call. *)
Definition layer_to_geojson (layer : pbf_reader) (result : string) (x y z : Z)
  : except (bool * string) :=
  let ds := mk_datasource layer x y z in
  let q :=
    fold_left add_property_name (get_descriptors ds)
      (mk_query (box2d_of_corners d_lowest d_lowest d_max d_max) []) in
  '(result, first) ← layer_features_to_geojson (features ds q) result true;
  Ok (negb first, result).

(** [name_msg.next(Layer_Encoding::NAME)] followed by [get_string()]:
    the first name field of the layer, if it has one. *)
Fixpoint next_name (name_msg : pbf_reader) : except (option string) :=
  match name_msg with
  | [] => Ok None
  | pbf_corrupt :: _ | pbf_truncated _ :: _ => Raise pbf_exception
  | f :: rest =>
      if pbf_tag f =? Layer_Encoding.NAME then
        match f with
        | pbf_string _ name => Ok (Some name)
        | _ => Raise pbf_exception
        end
      else next_name rest
  end.

(** The loop of [write_geojson_array] over the layers of the tile. *)
Fixpoint write_geojson_array_loop (tile_msg : pbf_reader) (v : merc_tile)
  (result : string) (first : bool) : except string :=
  match tile_msg with
  | [] => Ok result
  | pbf_corrupt :: _ | pbf_truncated _ :: _ => Raise pbf_exception
  | f :: rest =>
      if pbf_tag f =? Tile_Encoding.LAYERS then
        let result := if first then result else result +:+ "," in
        data_view ← get_message f;
        name ← next_name data_view;
        let layer_name := default EmptyString name in
        let result := result +:+ layer_collection_open layer_name in
        '(hit, features) ←
          layer_to_geojson data_view EmptyString (tile_x v) (tile_y v) (tile_z v);
        let result := if hit : bool then result +:+ features else result in
        write_geojson_array_loop rest v (result +:+ "]}") false
      else write_geojson_array_loop rest v result first
  end.

Definition write_geojson_array (result : string) (v : merc_tile) : except string :=
  result ← write_geojson_array_loop (tile_buffer v) v (result +:+ "[") true;
  Ok (result +:+ "]").

(** The loop of [write_geojson_all] over the layers of the tile. *)
Fixpoint write_geojson_all_loop (tile_msg : pbf_reader) (v : merc_tile)
  (result : string) (first : bool) : except string :=
  match tile_msg with
  | [] => Ok result
  | pbf_corrupt :: _ | pbf_truncated _ :: _ => Raise pbf_exception
  | f :: rest =>
      if pbf_tag f =? Tile_Encoding.LAYERS then
        layer_msg ← get_message f;
        '(hit, features) ←
          layer_to_geojson layer_msg EmptyString (tile_x v) (tile_y v) (tile_z v);
        if hit : bool then
          write_geojson_all_loop rest v
            ((if first then result else result +:+ ",") +:+ features) false
        else write_geojson_all_loop rest v result first
      else write_geojson_all_loop rest v result first
  end.

Definition write_geojson_all (result : string) (v : merc_tile) : except string :=
  result ← write_geojson_all_loop (tile_buffer v) v (result +:+ feature_collection_open) true;
  Ok (result +:+ "]}").

Definition write_geojson_layer_index (result : string) (layer_idx : nat) (v : merc_tile)
  : except (bool * string) :=
  match layer_reader_at v layer_idx with
  | Some layer_msg =>
      if (layer_idx <? length (get_layers v))%nat then
        let layer_name := default EmptyString (get_layers v !! layer_idx) in
        '(_, result) ←
          layer_to_geojson layer_msg (result +:+ layer_collection_open layer_name)
            (tile_x v) (tile_y v) (tile_z v);
        Ok (true, result +:+ "]}")
      else Ok (false, result)
  | None => Ok (false, result)
  end.

Definition write_geojson_layer_name (result : string) (name : string) (v : merc_tile)
  : except (bool * string) :=
  match layer_reader v name with
  | Some layer_msg =>
      '(_, result) ←
        layer_to_geojson layer_msg (result +:+ layer_collection_open name)
          (tile_x v) (tile_y v) (tile_z v);
      Ok (true, result +:+ "]}")
  | None => Ok (false, result)
  end.

Definition layer_argument_error : string :=
  "'layer' argument must be either a layer name (string) or layer index (integer)".

Definition _toGeoJSONSync (v : merc_tile) (info : list js_value) : completion string :=
  if (length info <? 1)%nat
  then Throw Error
         "first argument must be either a layer name (string) or layer index (integer)"
  else
    let layer_id := arg info 0 in
    if negb (IsString layer_id || IsNumber layer_id)
    then Throw TypeError layer_argument_error
    else if IsString layer_id then
      let layer_name := TOSTR layer_id in
      if String.eqb layer_name "__array__" then
        match write_geojson_array EmptyString v with
        | Ok result => Return result
        | Raise what => Throw TypeError what
        end
      else if String.eqb layer_name "__all__" then
        match write_geojson_all EmptyString v with
        | Ok result => Return result
        | Raise what => Throw TypeError what
        end
      else
        match write_geojson_layer_name EmptyString layer_name v with
        | Ok (true, result) => Return result
        | Ok (false, _) => Throw TypeError ("Layer name '" +:+ layer_name +:+ "' not found")
        | Raise what => Throw TypeError what
        end
    else
      let layer_idx := Int32Value (DoubleValue layer_id) in
      if layer_idx <? 0 then Throw TypeError "A layer index can not be negative"
      else if layer_idx >=? wrap_int32 (Z.of_nat (length (get_layers v)))
      then Throw TypeError "Layer index exceeds the number of layers in the vector tile."
      else
        match write_geojson_layer_index EmptyString (Z.to_nat layer_idx) v with
        | Ok (true, result) => Return result
        | Ok (false, _) =>
            Throw TypeError "Layer could not be retrieved (should have not reached here)"
        | Raise what => Throw TypeError what
        end.

Definition toGeoJSONSync (v : merc_tile) (info : list js_value) : completion string :=
  _toGeoJSONSync v info.

(** The work item of the asynchronous [toGeoJSON], [VectorTile::to_geojson]. *)
Definition to_geojson_work (v : merc_tile) (type : geojson_write_type)
  (layer_idx : Z) (layer_name : string) : except string :=
  match type with
  | geojson_write_all => write_geojson_all EmptyString v
  | geojson_write_array => write_geojson_array EmptyString v
  | geojson_write_layer_name =>
      '(_, result) ← write_geojson_layer_name EmptyString layer_name v; Ok result
  | geojson_write_layer_index =>
      '(_, result) ← write_geojson_layer_index EmptyString (Z.to_nat layer_idx) v;
      Ok result
  end.

Definition toGeoJSON (v : merc_tile) (info : list js_value) : completion string :=
  if (length info <? 1)%nat || negb (IsFunction (last_arg info))
  then _toGeoJSONSync v info
  else
    let layer_id := arg info 0 in
    if negb (IsString layer_id || IsNumber layer_id)
    then Throw TypeError layer_argument_error
    else if IsString layer_id then
      let layer_name := TOSTR layer_id in
      if String.eqb layer_name "__array__"
      then Callback (to_geojson_work v geojson_write_array 0 EmptyString)
      else if String.eqb layer_name "__all__"
      then Callback (to_geojson_work v geojson_write_all 0 EmptyString)
      else if negb (has_layer v layer_name)
      then Throw TypeError ("The layer does not contain the name: " +:+ layer_name)
      else Callback (to_geojson_work v geojson_write_layer_name 0 layer_name)
    else
      let layer_idx := Int32Value (DoubleValue layer_id) in
      if layer_idx <? 0 then Throw TypeError "A layer index can not be negative"
      else if layer_idx >=? wrap_int32 (Z.of_nat (length (get_layers v)))
      then Throw TypeError "Layer index exceeds the number of layers in the vector tile."
      else Callback (to_geojson_work v geojson_write_layer_index layer_idx EmptyString).

End to_geojson.

(** ** Reading the data of a tile *)

Record get_data_options : Type := mk_get_data_options {
  gd_compress : bool;
  gd_release : bool;
  gd_level : Z;
  gd_strategy : Z
}.

Section getData.
Context `{T : tile_api}.

Definition compression_option (options : js_value) : checked bool :=
  if Has options "compression" then
    if negb (IsString (Get options "compression"))
    then Reject TypeError
           "option 'compression' must be a string, either 'gzip', or 'none' (default)"
    else Accept (String.eqb "gzip" (TOSTR (Get options "compression")))
  else Accept false.

Definition level_error : string :=
  "option 'level' must be an integer between 0 (no compression) and 9 (best compression) inclusive".

Definition level_option (options : js_value) : checked Z :=
  if Has options "level" then
    if negb (IsNumber (Get options "level")) then Reject TypeError level_error
    else
      let level := Int32Value (DoubleValue (Get options "level")) in
      if (level <? 0) || (level >? 9) then Reject TypeError level_error
      else Accept level
  else Accept Z_DEFAULT_COMPRESSION.

Definition strategy_error : string :=
  "option 'strategy' must be one of the following strings: FILTERED, HUFFMAN_ONLY, RLE, FIXED, DEFAULT".

Definition strategy_option (options : js_value) : checked Z :=
  if Has options "strategy" then
    let param_val := Get options "strategy" in
    if negb (IsString param_val) then Reject TypeError strategy_error
    else if String.eqb "FILTERED" (TOSTR param_val) then Accept Z_FILTERED
    else if String.eqb "HUFFMAN_ONLY" (TOSTR param_val) then Accept Z_HUFFMAN_ONLY
    else if String.eqb "RLE" (TOSTR param_val) then Accept Z_RLE
    else if String.eqb "FIXED" (TOSTR param_val) then Accept Z_FIXED
    else if String.eqb "DEFAULT" (TOSTR param_val) then Accept Z_DEFAULT_STRATEGY
    else Reject TypeError strategy_error
  else Accept Z_DEFAULT_STRATEGY.

(** The options block of [_getDataSync] and of [getData]; they differ in
    the kind of the exception for a [release] that is not a boolean. *)
Definition getData_options (options : js_value) (release_kind : error_kind)
  : checked get_data_options :=
  compress ← compression_option options;
  release ← boolean_option options "release" release_kind
              "option 'release' must be a boolean" false;
  level ← level_option options;
  strategy ← strategy_option options;
  Accept (mk_get_data_options compress release level strategy).

Definition default_get_data_options : get_data_options :=
  mk_get_data_options false false Z_DEFAULT_COMPRESSION Z_DEFAULT_STRATEGY.

Definition too_large (raw_size : nat) : string :=
  "Data is too large to convert to a node::Buffer "
  +:+ "(" +:+ pretty raw_size +:+ " raw bytes >= node::Buffer::kMaxLength)".

Definition _getDataSync (d : merc_tile) (info : list js_value)
  : completion bytes * merc_tile :=
  match
    (if (0 <? length info)%nat then
       if negb (IsObject (arg info 0)) then Reject TypeError "first arg must be a options object"
       else getData_options (arg info 0) Error
     else Accept default_get_data_options)
  with
  | Reject k msg => (Throw k msg, d)
  | Accept o =>
      let raw_size := length (tile_data d) in
      if (raw_size <=? 0)%nat then (Return [], d)
      else if Z.of_nat raw_size >=? kMaxLength then (Throw TypeError (too_large raw_size), d)
      else if negb (gd_compress o) then
        if gd_release o then
          let '(data, d') := release_buffer d in (Return data, d')
        else (Return (tile_data d), d)
      else
        match zlib_compress (tile_data d) (gd_level o) (gd_strategy o) with
        | Raise what => (Throw TypeError what, d)
        | Ok compressed => (Return compressed, if gd_release o then tile_clear d else d)
        end
  end.

Definition getDataSync (d : merc_tile) (info : list js_value)
  : completion bytes * merc_tile :=
  _getDataSync d info.

(** The work item of the asynchronous [getData]: the compressed data, or
    nothing when no compression is asked for. *)
Definition get_data (d : merc_tile) (o : get_data_options) : except bytes :=
  if gd_compress o then zlib_compress (tile_data d) (gd_level o) (gd_strategy o)
  else Ok [].

Definition after_get_data (d : merc_tile) (o : get_data_options) (work : except bytes)
  : completion bytes * merc_tile :=
  match work with
  | Raise what => (Callback (Raise what), d)
  | Ok data =>
      if negb (length data =? 0)%nat
      then (Callback (Ok data), if gd_release o then tile_clear d else d)
      else
        let raw_size := length (tile_data d) in
        if (raw_size <=? 0)%nat then (Callback (Ok []), d)
        else if Z.of_nat raw_size >=? kMaxLength
        then (Callback (Raise (too_large raw_size)), d)
        else if gd_release o then
          let '(data, d') := release_buffer d in (Callback (Ok data), d')
        else (Callback (Ok (tile_data d)), d)
  end.

Definition getData (d : merc_tile) (info : list js_value)
  : completion bytes * merc_tile :=
  if (length info =? 0)%nat || negb (IsFunction (last_arg info))
  then _getDataSync d info
  else
    match
      (if (1 <? length info)%nat then
         if negb (IsObject (arg info 0))
         then Reject TypeError "first arg must be a options object"
         else getData_options (arg info 0) TypeError
       else Accept default_get_data_options)
    with
    | Reject k msg => (Throw k msg, d)
    | Accept o => after_get_data d o (get_data d o)
    end.

End getData.

(** ** Vocabulary of the distance properties *)

(** The result is a hit: its distance is not negative (and not NaN). *)
Definition p2p_is_hit (r : detail.p2p_result) : bool :=
  d_ge (detail.distance r) d_zero.

(** The parts a multi geometry or a collection is made of. *)
Definition sub_geometries (geom : geometry) : list geometry :=
  match geom with
  | geom_multi_point pts => geom_point <$> pts
  | geom_multi_line_string lines => geom_line_string <$> lines
  | geom_multi_polygon polys => geom_polygon <$> polys
  | geom_collection geoms => geoms
  | _ => []
  end.

Definition is_multi_geometry (geom : geometry) : bool :=
  match geom with
  | geom_multi_point _ | geom_multi_line_string _ | geom_multi_polygon _
  | geom_collection _ => true
  | _ => false
  end.

(** The state of a loop that keeps the closest hit among the parts seen so
    far: no hit yet and no part seen is one, or a hit that is the result of
    one of the parts and is at most as far as every part that is a hit. *)
Definition closest_so_far {A : Type} (sub : A -> detail.p2p_result) (seen : list A)
  (p2p : detail.p2p_result) : Prop :=
  (p2p = detail.p2p_no_hit /\ Forall (fun a => p2p_is_hit (sub a) = false) seen)
  \/ (p2p_is_hit p2p = true
      /\ (exists a, a ∈ seen /\ sub a = p2p)
      /\ Forall (fun a => p2p_is_hit (sub a) = true ->
                          d_le (detail.distance p2p) (detail.distance (sub a)) = true) seen).

(** What one segment contributes to the loop of the line string case: its
    distance to the query point, and its first end point as the hit. *)
Definition segment_result `{M : mapnik_api} (x y : double) (s : point * point)
  : detail.p2p_result :=
  detail.mk_p2p
    (point_to_segment_distance x y (pt_x s.1) (pt_y s.1) (pt_x s.2) (pt_y s.2))
    (pt_x s.1) (pt_y s.1).

(** The hit the polygon case reports. *)
Definition p2p_inside : detail.p2p_result := detail.mk_p2p d_zero d_zero d_zero.

(** ** Inputs used in the further examples *)

Module samples.

Definition pt (x y : Z) : point := mk_point (double_of_Z x) (double_of_Z y).

(** The multi point (1, 0), (2, 0). *)
Definition two_points_geometry : geometry := geom_multi_point [pt 1 0; pt 2 0].

End samples.

(** ** Vocabulary of the batch query properties *)

(** Every hit names a feature of the features map, and the hits are filed
    under the index of a query point, each list holding a hit. *)
Definition hits_refer_to_features (n_points : nat) (features : gmap nat query_result)
  (hits : gmap nat (list query_hit)) : Prop :=
  forall (p : nat) (l : list query_hit),
    hits !! p = Some l ->
    (p < n_points)%nat /\ l <> []
    /\ forall h, h ∈ l -> is_Some (features !! hit_feature_id h).

(** ** Vocabulary of the report and data properties *)

(** The query that asks a layer for all of its features and attributes. *)
Definition everything `{M : mapnik_api} (ds : tile_datasource_pbf) : mapnik_query :=
  fold_left add_property_name (get_descriptors ds)
    (mk_query (box2d_of_corners d_lowest d_lowest d_max d_max) []).

(** The features of a layer that are not simple, by layer name and id. *)
Definition not_simple_in_layer `{M : mapnik_api} `{T : tile_api} (v : merc_tile)
  (layer_msg : pbf_reader) : list not_simple_feature :=
  let ds := mk_datasource layer_msg (tile_x v) (tile_y v) (tile_z v) in
  (fun f => mk_not_simple_feature (get_name ds) (feature_id f))
  <$> filter (fun f => geometry_is_simple (feature_geometry f) = false)
        (features ds (everything ds)).

(** ** Vocabulary of the GeoJSON properties *)

(** Every string with the separator before it, and the strings with the
    separator between them. *)
Fixpoint prefixed (sep : string) (l : list string) : string :=
  match l with
  | [] => EmptyString
  | x :: rest => sep +:+ x +:+ prefixed sep rest
  end.

Definition join (sep : string) (l : list string) : string :=
  match l with
  | [] => EmptyString
  | x :: rest => x +:+ prefixed sep rest
  end.

(** The feature as [layer_to_geojson] prints it: a copy with the geometry
    reprojected. *)
Definition reprojected `{M : mapnik_api} (f : feature) : feature :=
  mk_feature (feature_id f) (reproject_copy (feature_geometry f)) (feature_data f).

(** [strs] are the GeoJSON texts of the features of the layer, in order. *)
Definition layer_strings `{M : mapnik_api} (v : merc_tile) (layer_msg : pbf_reader)
  (strs : list string) : Prop :=
  let ds := mk_datasource layer_msg (tile_x v) (tile_y v) (tile_z v) in
  Forall2 (fun f str => to_geojson (reprojected f) = Some str)
    (features ds (everything ds)) strs.

(** The name in the first name field of a layer message; empty when it
    has none. *)
Fixpoint first_name (layer_msg : pbf_reader) : string :=
  match layer_msg with
  | [] => EmptyString
  | f :: rest =>
      if pbf_tag f =? Layer_Encoding.NAME then
        match f with pbf_string _ name => name | _ => EmptyString end
      else first_name rest
  end.

(** One layer as [write_geojson_array] and the single-layer writers print
    it. *)
Definition layer_collection (layer_name : string) (strs : list string) : string :=
  layer_collection_open layer_name +:+ join newline_comma strs +:+ "]}".

(** ** A reference instance of the second interface

    As for [ref_api]: the layers of a tile are the layer messages of its
    buffer, the data of a tile is its buffer in the wire format, a geometry
    is simple when no ring of it crosses itself, and the compressor is a
    stand-in that puts the gzip magic number before the data. *)
Module reference_tile.

Definition byte_of_N (n : N) : Byte.byte := default Byte.x00 (Byte.of_N n).

Fixpoint varint_bytes (fuel : nat) (n : N) : bytes :=
  match fuel with
  | O => []
  | S fuel' =>
      if (n <? 128)%N then [byte_of_N n]
      else byte_of_N (128 + n mod 128) :: varint_bytes fuel' (n / 128)
  end.

Definition write_varint (n : N) : bytes := varint_bytes 10 n.

Definition write_key (tag : Z) (wire_type : N) : bytes :=
  write_varint (N.lor (N.shiftl (Z.to_N tag) 3) wire_type).

Definition write_delimited (tag : Z) (body : bytes) : bytes :=
  write_key tag 2 ++ write_varint (N.of_nat (length body)) ++ body.

Fixpoint write_field (f : pbf_field) : bytes :=
  match f with
  | pbf_varint tag v => write_key tag 0 ++ write_varint (Z.to_N v)
  | pbf_string tag s => write_delimited tag (String.list_byte_of_string s)
  | pbf_packed tag vs => write_delimited tag (concat ((fun v => write_varint (Z.to_N v)) <$> vs))
  | pbf_message tag fields =>
      write_delimited tag
        ((fix write_fields (fs : list pbf_field) : bytes :=
            match fs with
            | [] => []
            | f :: rest => write_field f ++ write_fields rest
            end) fields)
  | pbf_corrupt => [Byte.xff]
  | pbf_truncated tag => write_key tag 2 ++ write_varint 1
  end.

Definition tile_data (t : merc_tile) : bytes := concat (write_field <$> tile_buffer t).

Definition tile_clear (t : merc_tile) : merc_tile :=
  mk_tile (tile_x t) (tile_y t) (tile_z t) (tile_size t) (buffer_size t) [].

Definition geometry_is_simple (geom : geometry) : bool :=
  match geom with
  | geom_polygon poly => negb (existsb reference.ring_crosses_itself poly)
  | geom_multi_polygon polys =>
      negb (existsb (existsb reference.ring_crosses_itself) polys)
  | _ => true
  end.

End reference_tile.

Definition ref_tile_api : tile_api := {|
  geometry_is_simple := reference_tile.geometry_is_simple;
  has_layer := fun t name => bool_decide (is_Some (reference.layer_reader t name));
  get_layers := fun t => reference.layer_name_of <$> tile_layers (tile_buffer t);
  layer_reader_at := fun t i => tile_layers (tile_buffer t) !! i;
  tile_data := reference_tile.tile_data;
  release_buffer := fun t => (reference_tile.tile_data t, reference_tile.tile_clear t);
  tile_clear := reference_tile.tile_clear;
  kMaxLength := 4294967296;
  zlib_compress := fun data _ _ => Ok ([Byte.x1f; Byte.x8b] ++ data);
  Z_DEFAULT_COMPRESSION := -1;
  Z_DEFAULT_STRATEGY := 0;
  Z_FILTERED := 1;
  Z_HUFFMAN_ONLY := 2;
  Z_RLE := 3;
  Z_FIXED := 4
|}.

(** ** Vocabulary of the query properties *)

(** The results one layer contributes to a query at the point [(x, y)]:
    the hits among the features its datasource yields at the point. *)
Definition layer_hits `{M : mapnik_api} (d : merc_tile) (x y tolerance : double)
  (layer_msg : pbf_reader) : list query_result :=
  let ds := mk_datasource layer_msg (tile_x d) (tile_y d) (tile_z d) in
  omap (hit_of (get_name ds) x y tolerance) (features_at_point ds x y tolerance).

(** The same with the layer name the caller gave. *)
Definition named_layer_hits `{M : mapnik_api} (d : merc_tile) (x y tolerance : double)
  (layer_name : string) (layer_msg : pbf_reader) : list query_result :=
  let ds := mk_datasource layer_msg (tile_x d) (tile_y d) (tile_z d) in
  omap (hit_of layer_name x y tolerance) (features_at_point ds x y tolerance).

(** ** Vocabulary of the [info] properties *)

(** A layer of the object [info] returns adds up: the feature count is the
    sum of the counts by kind, a name is not empty, and neither is a list
    of errors. *)
Definition layer_totals (l : VectorTile.layer_info) : Prop :=
  VectorTile.li_features l
  = VectorTile.li_point_features l + VectorTile.li_linestring_features l
    + VectorTile.li_polygon_features l + VectorTile.li_unknown_features l
    + VectorTile.li_raster_features l
  /\ VectorTile.li_name l <> Some EmptyString
  /\ VectorTile.li_errors l <> Some [].

(** An assignment to one of the five properties of a tile object, and the
    tile after a script has made a list of assignments in turn (catching
    what a setter throws). *)
Inductive tile_property : Type :=
| prop_x
| prop_y
| prop_z
| prop_tileSize
| prop_bufferSize.

Definition assign (d : merc_tile) (a : tile_property * js_value) : merc_tile :=
  (match a.1 with
   | prop_x => VectorTile.set_tile_x d a.2
   | prop_y => VectorTile.set_tile_y d a.2
   | prop_z => VectorTile.set_tile_z d a.2
   | prop_tileSize => VectorTile.set_tile_size d a.2
   | prop_bufferSize => VectorTile.set_buffer_size d a.2
   end).2.

Definition assign_all (d : merc_tile) (assignments : list (tile_property * js_value))
  : merc_tile :=
  foldl assign d assignments.

(** The assignments under which the check of the sizes is the check of the
    invariant: none to [tileSize], and no buffer size below -2^30 (whose
    double does not fit an [int]). *)
Definition size_checked (a : tile_property * js_value) : Prop :=
  a.1 <> prop_tileSize
  /\ (a.1 = prop_bufferSize -> -1073741824 <= Int32Value (DoubleValue a.2)).

(** Inversion of a chain of accepted option checks. *)
Ltac bind_inv H :=
  repeat match type of H with
  | mbind _ ?m = Accept _ =>
      let E := fresh "E" in
      destruct m eqn:E; simpl in H; [|discriminate H]
  end.

(** * Properties *)

(** ** Order of doubles *)

Lemma d_le_trans a b c : d_le a b = true -> d_le b c = true -> d_le a c = true.
Proof.
  unfold d_le, SFleb, SFcompare.
  destruct a as [[]|[]| |[] ma ea], b as [[]|[]| |[] mb eb], c as [[]|[]| |[] mc ec];
    simpl; try done; intros H1 H2; order_cases; simpl in *; try done; try lia.
Qed.

Lemma d_lt_le a b : d_lt a b = true -> d_le a b = true.
Proof.
  unfold d_lt, d_le, SFltb, SFleb. by destruct (SFcompare a b) as [[]|].
Qed.

Lemma d_le_not_nan a b : d_le a b = true -> is_nan a = false /\ is_nan b = false.
Proof. by destruct a as [[]|[]| |[] ma ea], b as [[]|[]| |[] mb eb]. Qed.

Lemma d_nlt_le a b :
  is_nan a = false -> is_nan b = false -> d_lt a b = false -> d_le b a = true.
Proof.
  unfold d_lt, d_le, SFltb, SFleb, SFcompare.
  destruct a as [[]|[]| |[] ma ea], b as [[]|[]| |[] mb eb];
    simpl; try done; intros _ _ H; order_cases; simpl in *; try done; try lia.
Qed.

Lemma is_hit_not_nan dist tolerance : is_hit dist tolerance = true -> is_nan dist = false.
Proof.
  unfold is_hit, d_ge. intros [H _]%andb_prop. by apply d_le_not_nan in H as [_ ?].
Qed.

Lemma is_hit_mono dist t t' :
  d_le t t' = true -> is_hit dist t = true -> is_hit dist t' = true.
Proof.
  unfold is_hit. intros Ht [H0 H1]%andb_prop.
  rewrite H0. simpl. by apply d_le_trans with t.
Qed.

(** ** Sorting *)

Section std_sort.
Context {A : Type} (comp : A -> A -> bool) (R : relation A) (P : A -> Prop).
Hypothesis R_trans : forall x y z, P x -> P y -> P z -> R x y -> R y z -> R x z.
Hypothesis comp_true : forall x y, P x -> P y -> comp y x = true -> R y x.
Hypothesis comp_false : forall x y, P x -> P y -> comp y x = false -> R x y.

Lemma sort_insert_Permutation x l : sort_insert comp x l ≡ₚ x :: l.
Proof.
  induction l as [|y l IH]; simpl; [done|].
  destruct (comp y x); [|done].
  rewrite IH. apply Permutation_swap.
Qed.

Lemma std_sort_Permutation l : std_sort comp l ≡ₚ l.
Proof.
  induction l as [|x l IH]; simpl; [done|].
  unfold std_sort in *. simpl. rewrite sort_insert_Permutation. by rewrite IH.
Qed.

Lemma sort_insert_sorted x l :
  P x -> Forall P l -> StronglySorted R l -> StronglySorted R (sort_insert comp x l).
Proof.
  intros Hx Hl Hs. induction Hs as [|y l Hs IH Hy]; simpl.
  - repeat constructor.
  - apply Forall_cons in Hl as [HPy HPl].
    destruct (comp y x) eqn:Hc.
    + constructor; [by apply IH|].
      rewrite sort_insert_Permutation. constructor; [by apply comp_true|done].
    + constructor; [by constructor|].
      constructor; [by apply comp_false|].
      apply Forall_forall. intros z Hz.
      apply (R_trans x y z); try done.
      * by eapply Forall_forall in HPl.
      * by apply comp_false.
      * by eapply Forall_forall in Hy.
Qed.

Lemma std_sort_sorted l : Forall P l -> StronglySorted R (std_sort comp l).
Proof.
  induction l as [|x l IH]; intros Hl; [constructor|].
  apply Forall_cons in Hl as [Hx Hl]. unfold std_sort in *. simpl.
  apply sort_insert_sorted; [done| |by apply IH].
  change (Forall P (std_sort comp l)). by rewrite std_sort_Permutation.
Qed.

End std_sort.

(** Sorted lists read by index. *)
Lemma StronglySorted_lookup {A} (R : relation A) (l : list A) (i j : nat) (x y : A) :
  StronglySorted R l -> (i < j)%nat -> l !! i = Some x -> l !! j = Some y -> R x y.
Proof.
  intros Hs. revert i j. induction Hs as [|z l Hs IH Hz]; intros i j Hij Hi Hj; [done|].
  destruct i as [|i], j as [|j]; try lia; simpl in *.
  - injection Hi as ->. eapply Forall_forall in Hz; [done|]. by eapply list_elem_of_lookup_2.
  - apply (IH i j); [lia|done..].
Qed.

(** ** The single-point query *)

Section query_properties.
Context `{M : mapnik_api}.

Lemma hit_of_is_hit layer x y tolerance f r :
  hit_of layer x y tolerance f = Some r -> is_hit (qr_distance r) tolerance = true.
Proof.
  unfold hit_of. destruct (tr_backward _ _) as [[hx hy]|]; [|done].
  destruct (is_hit _ _) eqn:Hh; [|done]. by intros [= <-].
Qed.

Lemma hit_of_mono layer x y t t' f r :
  d_le t t' = true -> hit_of layer x y t f = Some r -> hit_of layer x y t' f = Some r.
Proof.
  unfold hit_of. intros Ht. destruct (tr_backward _ _) as [[hx hy]|]; [|done].
  destruct (is_hit _ t) eqn:Hh; [|done]. by rewrite (is_hit_mono _ t t').
Qed.

Lemma query_features_Ok fs x y tolerance layer arr arr' :
  VectorTile.query_features fs x y tolerance layer arr = Ok arr' ->
  arr' = (arr ++ omap (hit_of layer x y tolerance) fs)%list.
Proof.
  revert arr. induction fs as [|f fs IH]; intros arr; simpl.
  - intros [= <-]. by rewrite app_nil_r.
  - unfold hit_of at 1. fold (is_hit (detail.distance (path_to_point_distance (feature_geometry f) x y)) tolerance).
    destruct (tr_backward _ _) as [[hx hy]|]; [|done].
    destruct (is_hit _ _); intros H%IH; subst arr'; [|done].
    by rewrite <- app_assoc.
Qed.

Lemma query_features_total fs x y tolerance layer arr :
  (forall hx hy, is_Some (tr_backward hx hy)) ->
  exists arr', VectorTile.query_features fs x y tolerance layer arr = Ok arr'.
Proof.
  intros Hb. revert arr. induction fs as [|f fs IH]; intros arr; simpl; [by eexists|].
  destruct (Hb (detail.x_hit (path_to_point_distance (feature_geometry f) x y))
               (detail.y_hit (path_to_point_distance (feature_geometry f) x y)))
    as [[hx hy] ->].
  destruct (_ && _); apply IH.
Qed.

(** Every result the feature loop adds is a hit. *)
Lemma query_features_hits fs x y tolerance layer arr arr' :
  VectorTile.query_features fs x y tolerance layer arr = Ok arr' ->
  Forall (fun r => is_hit (qr_distance r) tolerance = true) arr ->
  Forall (fun r => is_hit (qr_distance r) tolerance = true) arr'.
Proof.
  intros -> %query_features_Ok Harr. apply Forall_app. split; [done|].
  apply Forall_forall. intros r [f [_ Hf]]%list_elem_of_omap. by eapply hit_of_is_hit.
Qed.

Lemma query_layers_hits item d x y tolerance arr arr' :
  VectorTile.query_layers item d x y tolerance arr = Ok arr' ->
  Forall (fun r => is_hit (qr_distance r) tolerance = true) arr ->
  Forall (fun r => is_hit (qr_distance r) tolerance = true) arr'.
Proof.
  revert arr. induction item as [|f item IH]; intros arr; simpl; [by intros [= <-]|].
  assert (Hstep : (if pbf_tag f =? Tile_Encoding.LAYERS
              then layer_msg ← get_message f;
                   arr1 ← VectorTile.query_features
                     (features_at_point (mk_datasource layer_msg (tile_x d) (tile_y d) (tile_z d)) x y tolerance)
                     x y tolerance
                     (get_name (mk_datasource layer_msg (tile_x d) (tile_y d) (tile_z d))) arr;
                   VectorTile.query_layers item d x y tolerance arr1
              else VectorTile.query_layers item d x y tolerance arr) = Ok arr' ->
          Forall (fun r => is_hit (qr_distance r) tolerance = true) arr ->
          Forall (fun r => is_hit (qr_distance r) tolerance = true) arr').
  { destruct (pbf_tag f =? Tile_Encoding.LAYERS); [|apply IH].
    destruct (get_message f) as [layer_msg|]; [|done]. simpl.
    destruct (VectorTile.query_features _ _ _ _ _ _) as [arr1|] eqn:H1; [|done]. simpl.
    intros H2 Harr. eapply IH; [done|]. by eapply query_features_hits. }
  destruct f; try done; apply Hstep.
Qed.

Lemma _query_hits d lon lat tolerance layer_name arr :
  VectorTile._query d lon lat tolerance layer_name = Ok arr ->
  Forall (fun r => is_hit (qr_distance r) tolerance = true) arr.
Proof.
  unfold VectorTile._query. destruct (is_empty d); [by intros [= <-]|].
  destruct (tr_forward lon lat) as [[x y]|]; [|done].
  match goal with |- context [mbind _ ?m] => destruct m as [arr0|] eqn:Harr0 end; [|done].
  simpl. intros [= <-]. rewrite std_sort_Permutation.
  destruct (negb (string_empty layer_name)).
  - destruct (layer_reader d layer_name) as [layer_msg|].
    + by eapply query_features_hits.
    + by injection Harr0 as <-.
  - by eapply query_layers_hits.
Qed.

(** The order [std::sort] leaves the results of [_query] in: a result never
    precedes one that is strictly farther. *)
Lemma _query_descending d lon lat tolerance layer_name arr :
  VectorTile._query d lon lat tolerance layer_name = Ok arr -> descending arr.
Proof.
  intros Hq. pose proof (_query_hits _ _ _ _ _ _ Hq) as Hhits. revert Hq Hhits.
  unfold VectorTile._query. destruct (is_empty d).
  { intros [= <-] _ i j a b _ Ha. by rewrite lookup_nil in Ha. }
  destruct (tr_forward lon lat) as [[x y]|]; [|done].
  match goal with |- context [mbind _ ?m] => destruct m as [arr0|] end; simpl; [|done].
  intros [= <-] Hhits i j a b Hij Ha Hb.
  rewrite std_sort_Permutation in Hhits.
  eapply (StronglySorted_lookup
            (fun a b => d_le (qr_distance b) (qr_distance a) = true)); [|done..].
  apply (std_sort_sorted _ _ (fun r => is_nan (qr_distance r) = false)).
  - intros u v w _ _ _ Huv Hvw. by apply d_le_trans with (qr_distance v).
  - intros u v _ _ Hc. by apply d_lt_le.
  - intros u v Hu Hv Hc. by apply d_nlt_le.
  - eapply Forall_impl; [done|]. intros r Hr. exact (is_hit_not_nan _ _ Hr).
Qed.

End query_properties.

(** *** Monotonicity in the tolerance *)

Section query_monotone.
Context `{M : mapnik_api}.
Variables (t t' : double).
Hypothesis backward_total : forall hx hy, is_Some (tr_backward hx hy).
Hypothesis prefilter_mono :
  forall ds x y f, f ∈ features_at_point ds x y t -> f ∈ features_at_point ds x y t'.
Hypothesis tolerance_le : d_le t t' = true.

Lemma query_features_mono fs fs' x y layer arr1 arr1' arr2 :
  (forall f, f ∈ fs -> f ∈ fs') ->
  VectorTile.query_features fs x y t layer arr1 = Ok arr1' ->
  (forall r, r ∈ arr1 -> r ∈ arr2) ->
  exists arr2', VectorTile.query_features fs' x y t' layer arr2 = Ok arr2'
                /\ forall r, r ∈ arr1' -> r ∈ arr2'.
Proof.
  intros Hfs -> %query_features_Ok Harr.
  destruct (query_features_total fs' x y t' layer arr2 backward_total) as [arr2' H2].
  exists arr2'. split; [done|].
  apply query_features_Ok in H2 as ->.
  intros r [Hr|Hr]%elem_of_app; apply elem_of_app; [left; by apply Harr|right].
  apply list_elem_of_omap in Hr as [f [Hf Hr]].
  apply list_elem_of_omap. exists f. split; [by apply Hfs|].
  by apply hit_of_mono with t.
Qed.

Lemma query_layers_mono item d x y arr1 arr1' arr2 :
  VectorTile.query_layers item d x y t arr1 = Ok arr1' ->
  (forall r, r ∈ arr1 -> r ∈ arr2) ->
  exists arr2', VectorTile.query_layers item d x y t' arr2 = Ok arr2'
                /\ forall r, r ∈ arr1' -> r ∈ arr2'.
Proof.
  revert arr1 arr2. induction item as [|f item IH]; intros arr1 arr2; simpl.
  { intros [= <-] Harr. by exists arr2. }
  assert (Hstep :
    (if pbf_tag f =? Tile_Encoding.LAYERS
     then layer_msg ← get_message f;
          arr' ← VectorTile.query_features
            (features_at_point (mk_datasource layer_msg (tile_x d) (tile_y d) (tile_z d)) x y t)
            x y t (get_name (mk_datasource layer_msg (tile_x d) (tile_y d) (tile_z d))) arr1;
          VectorTile.query_layers item d x y t arr'
     else VectorTile.query_layers item d x y t arr1) = Ok arr1' ->
    (forall r, r ∈ arr1 -> r ∈ arr2) ->
    exists arr2',
      (if pbf_tag f =? Tile_Encoding.LAYERS
       then layer_msg ← get_message f;
            arr' ← VectorTile.query_features
              (features_at_point (mk_datasource layer_msg (tile_x d) (tile_y d) (tile_z d)) x y t')
              x y t' (get_name (mk_datasource layer_msg (tile_x d) (tile_y d) (tile_z d))) arr2;
            VectorTile.query_layers item d x y t' arr'
       else VectorTile.query_layers item d x y t' arr2) = Ok arr2'
      /\ forall r, r ∈ arr1' -> r ∈ arr2').
  { destruct (pbf_tag f =? Tile_Encoding.LAYERS); [|apply IH].
    destruct (get_message f) as [layer_msg|]; [|done]. simpl.
    destruct (VectorTile.query_features _ _ _ t _ arr1) as [arr1m|] eqn:H1; [|done]. simpl.
    intros H2 Harr.
    destruct (query_features_mono _ _ _ _ _ _ _ arr2 (prefilter_mono _ x y) H1 Harr)
      as [arr2m [-> H3]]. simpl.
    by apply (IH arr1m arr2m). }
  destruct f; try done; apply Hstep.
Qed.

End query_monotone.

(** Claim C4.  Increasing the tolerance never removes a result: when the
    reprojection back to the input frame cannot fail and the spatial
    prefilter of the datasource keeps at tolerance [t'] what it keeps at
    [t <= t'], a result of the query at [t] (for a feature of any geometry
    type, so in particular for points and lines) is a result of the query
    at [t']. *)
Theorem query_tolerance_monotone `{M : mapnik_api} (d : merc_tile)
  (lon lat t t' : double) (layer_name : string) (arr : list query_result)
  (r : query_result) :
  (forall hx hy, is_Some (tr_backward hx hy)) ->
  (forall ds x y f, f ∈ features_at_point ds x y t -> f ∈ features_at_point ds x y t') ->
  d_le t t' = true ->
  VectorTile._query d lon lat t layer_name = Ok arr ->
  r ∈ arr ->
  exists arr', VectorTile._query d lon lat t' layer_name = Ok arr' /\ r ∈ arr'.
Proof.
  intros Hb Hpre Ht. unfold VectorTile._query.
  destruct (is_empty d); [by intros [= <-] ?%elem_of_nil|].
  destruct (tr_forward lon lat) as [[x y]|]; [|done].
  assert (Hgen : forall c1 c2 : except (list query_result),
    (forall a1, c1 = Ok a1 -> exists a2, c2 = Ok a2 /\ forall r, r ∈ a1 -> r ∈ a2) ->
    (c1 ≫= fun a => Ok (std_sort (fun a b => query_result_gt a b) a)) = Ok arr ->
    r ∈ arr ->
    exists arr', (c2 ≫= fun a => Ok (std_sort (fun a b => query_result_gt a b) a)) = Ok arr'
                 /\ r ∈ arr').
  { intros [a1|] c2 Hc; simpl; [|done]. intros [= <-] Hr.
    destruct (Hc a1 eq_refl) as [a2 [-> Ha]]. simpl. eexists. split; [done|].
    rewrite std_sort_Permutation. apply Ha. by rewrite std_sort_Permutation in Hr. }
  apply Hgen. intros a1.
  destruct (negb (string_empty layer_name)).
  - destruct (layer_reader d layer_name) as [layer_msg|].
    + intros H1. by eapply (query_features_mono t t' Hb Ht); [apply Hpre|..].
    + intros [= <-]. by exists [].
  - intros H1. by eapply (query_layers_mono t t' Hb Hpre Ht).
Qed.

(** ** The batch query *)

Section queryMany_properties.
Context `{M : mapnik_api}.

Lemma map_insert_new_idemp {V} (k : nat) (v : V) (m : gmap nat V) :
  VectorTile.map_insert_new k v (VectorTile.map_insert_new k v m)
  = VectorTile.map_insert_new k v m.
Proof.
  unfold VectorTile.map_insert_new at 2 3. destruct (m !! k) eqn:Hk.
  - unfold VectorTile.map_insert_new. by rewrite Hk.
  - unfold VectorTile.map_insert_new. by rewrite lookup_insert_eq.
Qed.

Lemma scan_points_spec f layer tolerance points p st :
  VectorTile.scan_idx (VectorTile.scan_points f layer tolerance points p st)
  = VectorTile.scan_idx st
  /\ VectorTile.scan_has_hit (VectorTile.scan_points f layer tolerance points p st)
     = VectorTile.scan_has_hit st || has_hit tolerance points f
  /\ VectorTile.scan_features (VectorTile.scan_points f layer tolerance points p st)
     = if has_hit tolerance points f
       then VectorTile.map_insert_new (VectorTile.scan_idx st) (feature_record layer f)
              (VectorTile.scan_features st)
       else VectorTile.scan_features st.
Proof.
  revert p st. induction points as [|pt points IH]; intros p st.
  { simpl. by rewrite orb_false_r. }
  cbn [VectorTile.scan_points].
  change (has_hit tolerance (pt :: points) f)
    with (point_hit f tolerance pt || has_hit tolerance points f).
  unfold point_hit, is_hit.
  destruct (d_ge _ _ && d_le _ _); [|apply IH].
  match goal with
  | |- context [VectorTile.scan_points _ _ _ _ _ ?s] =>
      destruct (IH (S p) s) as (H1 & H2 & H3)
  end.
  rewrite H1, H2, H3. cbn [VectorTile.scan_idx VectorTile.scan_has_hit
                           VectorTile.scan_features orb].
  rewrite orb_true_r. repeat split.
  destruct (has_hit tolerance points f); [|done]. apply map_insert_new_idemp.
Qed.

Lemma scan_points_hits f layer tolerance points p st :
  hits_ok tolerance (VectorTile.scan_hits st) ->
  hits_ok tolerance
    (VectorTile.scan_hits (VectorTile.scan_points f layer tolerance points p st)).
Proof.
  revert p st. induction points as [|pt points IH]; intros p st Hok; simpl; [done|].
  destruct (d_ge _ _ && d_le _ _) eqn:Hhit; [|by apply IH].
  apply IH. simpl. intros q l.
  destruct (VectorTile.scan_hits st !! p) as [point_hits|] eqn:Hp.
  - destruct (decide (p = q)) as [->|Hne].
    + rewrite lookup_insert_eq. intros [= <-]. apply Forall_app. split; [by eapply Hok|].
      by repeat constructor.
    + rewrite lookup_insert_ne by done. apply Hok.
  - destruct (decide (p = q)) as [->|Hne].
    + rewrite lookup_insert_eq. intros [= <-]. by repeat constructor.
    + rewrite lookup_insert_ne by done. apply Hok.
Qed.

Lemma scan_features_loop_hits fs layer tolerance points st :
  hits_ok tolerance (VectorTile.scan_hits st) ->
  hits_ok tolerance
    (VectorTile.scan_hits (VectorTile.scan_features_loop fs layer tolerance points st)).
Proof.
  revert st. induction fs as [|f fs IH]; intros st Hok; simpl; [done|].
  apply IH. simpl. by apply scan_points_hits.
Qed.

Lemma scan_features_loop_spec fs layer tolerance points st seen :
  VectorTile.scan_idx st = length (filter (fun f => has_hit tolerance points f = true) seen) ->
  (forall i : nat,
     VectorTile.scan_features st !! i
     = feature_record layer <$> filter (fun f => has_hit tolerance points f = true) seen !! i) ->
  forall i : nat,
    VectorTile.scan_features (VectorTile.scan_features_loop fs layer tolerance points st) !! i
    = feature_record layer
        <$> filter (fun f => has_hit tolerance points f = true) (seen ++ fs)%list !! i.
Proof.
  revert st seen. induction fs as [|f fs IH]; intros st seen Hidx Hfeat.
  { by rewrite app_nil_r. }
  replace (seen ++ f :: fs)%list with ((seen ++ [f]) ++ fs)%list by by rewrite <- app_assoc.
  cbn [VectorTile.scan_features_loop].
  match goal with
  | |- context [VectorTile.scan_points _ _ _ _ _ ?s] =>
      destruct (scan_points_spec f layer tolerance points 0 s) as (H1 & H2 & H3);
      set (st1 := VectorTile.scan_points f layer tolerance points 0 s) in *
  end.
  cbn [VectorTile.scan_idx VectorTile.scan_has_hit VectorTile.scan_features orb] in H1, H2, H3.
  apply IH; cbn [VectorTile.scan_idx VectorTile.scan_features]; rewrite ?H1, ?H2, ?H3, filter_app.
  - destruct (has_hit tolerance points f) eqn:Hf.
    + rewrite filter_cons_True, length_app by done. simpl. lia.
    + rewrite filter_cons_False, filter_nil, app_nil_r by (by rewrite Hf). done.
  - intros i. destruct (has_hit tolerance points f) eqn:Hf.
    + rewrite filter_cons_True, filter_nil by done.
      unfold VectorTile.map_insert_new.
      rewrite (Hfeat (VectorTile.scan_idx st)), Hidx.
      rewrite lookup_ge_None_2 by done. simpl.
      destruct (decide (i = length (filter (fun f => has_hit tolerance points f = true) seen)))
        as [->|Hne].
      * rewrite lookup_insert_eq, lookup_app_r, Nat.sub_diag by done. done.
      * rewrite lookup_insert_ne by done. rewrite Hfeat.
        destruct (decide (i < length (filter (fun f => has_hit tolerance points f = true) seen))%nat).
        -- by rewrite lookup_app_l.
        -- rewrite !lookup_ge_None_2; [done| |lia]. rewrite length_app. simpl. lia.
    + rewrite filter_cons_False, filter_nil, app_nil_r by (by rewrite Hf). apply Hfeat.
Qed.

Lemma reproject_points_Ok query bbox0 points0 bbox points :
  VectorTile.reproject_points query bbox0 points0 = Ok (bbox, points) ->
  exists new : list (double * double),
    points = (points0 ++ new)%list
    /\ Forall2 (fun q pt => tr_forward (lon q) (lat q) = Some pt) query new
    /\ bbox = bounding_box bbox0 new.
Proof.
  revert bbox0 points0. induction query as [|q query IH]; intros bbox0 points0; simpl.
  { intros [= <- <-]. exists []. by rewrite app_nil_r. }
  destruct (tr_forward (lon q) (lat q)) as [[x y]|] eqn:Hq; [|done].
  intros (new & -> & Hnew & ->)%IH. exists ((x, y) :: new). repeat split.
  - by rewrite <- app_assoc.
  - by constructor.
Qed.

(** *** The hits map *)

(** What the loop over the points adds for one feature: under the index of
    every point the feature hits, the hit, after the hits filed before. *)
Lemma scan_points_raw f layer tolerance points p st :
  (forall q l, VectorTile.scan_hits st !! q = Some l -> l <> []) ->
  (forall q l,
     VectorTile.scan_hits (VectorTile.scan_points f layer tolerance points p st) !! q = Some l ->
     l <> [])
  /\ forall q : nat,
       default [] (VectorTile.scan_hits (VectorTile.scan_points f layer tolerance points p st) !! q)
       = default [] (VectorTile.scan_hits st !! q)
         ++ match (if decide (p <= q)%nat then points !! (q - p)%nat else None) with
            | Some pt => option_list (hit_at tolerance pt (VectorTile.scan_idx st, f))
            | None => []
            end.
Proof.
  revert p st. induction points as [|pt points IH]; intros p st Hne.
  { split; [done|]. intros q. simpl. case_decide; by rewrite ?lookup_nil, app_nil_r. }
  cbn [VectorTile.scan_points].
  assert (Htail : forall q : nat,
            (if decide (p <= q)%nat then (pt :: points) !! (q - p)%nat else None)
            = if decide (q = p) then Some pt
              else if decide (S p <= q)%nat then points !! (q - S p)%nat else None).
  { intros q. destruct (decide (q = p)) as [->|Hq].
    - rewrite decide_True by lia. by rewrite Nat.sub_diag.
    - destruct (decide (p <= q)%nat), (decide (S p <= q)%nat); try lia; [|done].
      replace (q - p)%nat with (S (q - S p)) by lia. done. }
  destruct (d_ge _ _ && d_le _ _) eqn:Hhit.
  - match goal with
    | |- context [VectorTile.scan_points _ _ _ _ _ ?s] =>
        destruct (IH (S p) s) as [Hne' Hraw]
    end.
    { cbn [VectorTile.scan_hits]. intros q l.
      destruct (VectorTile.scan_hits st !! p) as [filed|] eqn:Hp;
        (destruct (decide (p = q)) as [->|Hq];
         [rewrite lookup_insert_eq; intros [= <-]; try done; by destruct filed
         |rewrite lookup_insert_ne by done; apply Hne]). }
    split; [exact Hne'|]. intros q. rewrite Hraw, Htail.
    cbn [VectorTile.scan_hits VectorTile.scan_idx].
    unfold hit_at, is_hit. cbn [fst snd]. 
    destruct (decide (q = p)) as [->|Hq].
    + rewrite decide_False by lia. rewrite Hhit, app_nil_r.
      destruct (VectorTile.scan_hits st !! p) as [filed|] eqn:Hp;
        by rewrite lookup_insert_eq.
    + destruct (VectorTile.scan_hits st !! p) as [filed|] eqn:Hp;
        by rewrite lookup_insert_ne by done.
  - destruct (IH (S p) st Hne) as [Hne' Hraw].
    split; [exact Hne'|]. intros q. rewrite Hraw, Htail.
    unfold hit_at, is_hit. cbn [fst snd].
    destruct (decide (q = p)) as [->|Hq]; [|done].
    rewrite decide_False by lia. by rewrite Hhit.
Qed.

(** A feature without a hit against any of the points has none against
    each of them. *)
Lemma hit_at_has_hit tolerance points pt idx f :
  pt ∈ points -> has_hit tolerance points f = false -> hit_at tolerance pt (idx, f) = None.
Proof.
  intros Hpt Hf. unfold hit_at. cbn [fst snd].
  destruct (is_hit _ _) eqn:Hhit; [|done].
  assert (has_hit tolerance points f = true); [|congruence].
  apply existsb_exists. exists pt. split; [by apply list_elem_of_In|done].
Qed.

Lemma point_hits_snoc tolerance points pt hitting f :
  pt ∈ points ->
  point_hits tolerance (hitting ++ (if has_hit tolerance points f then [f] else [])) pt
  = point_hits tolerance hitting pt ++ option_list (hit_at tolerance pt (length hitting, f)).
Proof.
  intros Hpt. unfold point_hits. destruct (has_hit tolerance points f) eqn:Hf.
  - rewrite imap_app, omap_app. f_equal. cbn [imap omap].
    rewrite Nat.add_0_r. simpl. by destruct (hit_at _ _ _).
  - rewrite app_nil_r, (hit_at_has_hit _ points) by done. by rewrite app_nil_r.
Qed.

(** The loop over the candidate features files, under every point, the
    hits of the point. *)
Lemma scan_features_loop_raw fs layer tolerance points st seen :
  VectorTile.scan_idx st = length (filter (fun f => has_hit tolerance points f = true) seen) ->
  (forall q l, VectorTile.scan_hits st !! q = Some l -> l <> []) ->
  (forall q : nat,
     default [] (VectorTile.scan_hits st !! q)
     = match points !! q with
       | Some pt =>
           point_hits tolerance (filter (fun f => has_hit tolerance points f = true) seen) pt
       | None => []
       end) ->
  (forall q l,
     VectorTile.scan_hits (VectorTile.scan_features_loop fs layer tolerance points st) !! q
     = Some l -> l <> [])
  /\ forall q : nat,
       default []
         (VectorTile.scan_hits (VectorTile.scan_features_loop fs layer tolerance points st) !! q)
       = match points !! q with
         | Some pt =>
             point_hits tolerance
               (filter (fun f => has_hit tolerance points f = true) (seen ++ fs)%list) pt
         | None => []
         end.
Proof.
  revert st seen. induction fs as [|f fs IH]; intros st seen Hidx Hne Hraw.
  { by rewrite app_nil_r. }
  replace (seen ++ f :: fs)%list with ((seen ++ [f]) ++ fs)%list by by rewrite <- app_assoc.
  cbn [VectorTile.scan_features_loop].
  match goal with
  | |- context [VectorTile.scan_points _ _ _ _ _ ?s] =>
      destruct (scan_points_spec f layer tolerance points 0 s) as (H1 & H2 & _);
      destruct (scan_points_raw f layer tolerance points 0 s) as [Hne1 Hraw1];
        [exact Hne|];
      set (st1 := VectorTile.scan_points f layer tolerance points 0 s) in *
  end.
  cbn [VectorTile.scan_idx VectorTile.scan_has_hit VectorTile.scan_hits orb] in H1, H2, Hraw1.
  assert (Hfilter : filter (fun f => has_hit tolerance points f = true) (seen ++ [f])%list
                    = (filter (fun f => has_hit tolerance points f = true) seen
                       ++ (if has_hit tolerance points f then [f] else []))%list).
  { rewrite filter_app. f_equal. destruct (has_hit tolerance points f) eqn:Hf.
    - by rewrite filter_cons_True.
    - rewrite filter_cons_False by (by rewrite Hf). done. }
  apply IH; cbn [VectorTile.scan_idx VectorTile.scan_hits].
  - rewrite H1, H2, Hfilter, length_app, Hidx.
    destruct (has_hit tolerance points f); simpl; lia.
  - exact Hne1.
  - intros q. rewrite Hraw1, Hraw, Hfilter, Nat.sub_0_r. rewrite decide_True by lia.
    destruct (points !! q) as [pt|] eqn:Hq; [|done].
    rewrite (point_hits_snoc _ points), Hidx; [done|]. by eapply list_elem_of_lookup_2.
Qed.

(** The result of [_queryMany], once the layer is found and the points
    are reprojected. *)
Lemma _queryMany_batch_result d query tolerance layer_name fields layer_msg bbox points :
  layer_reader d layer_name = Some layer_msg ->
  VectorTile.reproject_points query box2d_init [] = Ok (bbox, points) ->
  exists result : queryMany_result,
    VectorTile._queryMany d query tolerance layer_name fields = Ok result
    /\ let ds := mk_datasource layer_msg (tile_x d) (tile_y d) (tile_z d) in
       batch_result (get_name ds) tolerance points
         (features ds (VectorTile.queryMany_query ds (pad bbox tolerance) fields)) result.
Proof.
  intros Hlayer Hpoints. unfold VectorTile._queryMany. rewrite Hlayer, Hpoints.
  eexists. split; [reflexivity|]. cbn zeta. split; cbn [qm_features qm_hits].
  - intros idx. by apply (scan_features_loop_spec _ _ _ _ _ []).
  - intros p.
    match goal with
    | |- context [VectorTile.scan_features_loop ?fs ?layer _ _ ?s] =>
        destruct (scan_features_loop_raw fs layer tolerance points s []) as [Hne Hraw];
          [done|done|by intros q; destruct (points !! q)|];
        pose proof (scan_features_loop_hits fs layer tolerance points s) as Hok;
        set (st := VectorTile.scan_features_loop fs layer tolerance points s) in *
    end.
    specialize (Hraw p). cbn [app] in Hraw. rewrite lookup_fmap.
    destruct (VectorTile.scan_hits st !! p) as [l|] eqn:Hl; cbn [default fmap option_fmap option_map] in *.
    + assert (Hsorted : ascending_hits (std_sort VectorTile._queryManySort l)).
      { intros i j a b Hij Ha Hb.
        eapply (StronglySorted_lookup
                  (fun a b => d_le (hit_distance a) (hit_distance b) = true)); [|done..].
        apply (std_sort_sorted _ _ (fun h => is_nan (hit_distance h) = false)).
        - intros u v w _ _ _ Huv Hvw. by apply d_le_trans with (hit_distance v).
        - intros u v _ _ Hc. by apply d_lt_le.
        - intros u v Hu Hv Hc. by apply d_nlt_le.
        - eapply Forall_impl.
          + eapply (Hok); [|done]. by intros q l'.
          + intros h Hh. exact (is_hit_not_nan _ _ Hh). }
      assert (Hperm : std_sort VectorTile._queryManySort l ≡ₚ l)
        by apply std_sort_Permutation.
      assert (Hnil : std_sort VectorTile._queryManySort l <> []).
      { intros Hnil. rewrite Hnil in Hperm. apply Permutation_nil_l in Hperm.
        by apply (Hne p l). }
      destruct (points !! p) as [pt|] eqn:Hp.
      * exists (std_sort VectorTile._queryManySort l). rewrite <- Hraw.
        split; [done|]. split; [done|].
        by destruct (std_sort VectorTile._queryManySort l).
      * by apply (Hne p l) in Hl.
    + destruct (points !! p) as [pt|] eqn:Hp; [|done].
      exists []. by rewrite <- Hraw.
Qed.

End queryMany_properties.

(** Claim C5.  A batch query on a layer the tile has, with points that
    reproject, returns, and its result is this.  The features map lists,
    under the ids 0, 1, 2, ... and in the order the datasource yields them,
    exactly the candidate features that register a hit (a distance between
    0 and the tolerance) against at least one query point.  The hits map
    holds, under the index of every query point that is hit, the hits of
    that point, one for each feature of the features map that registers a
    hit against it, with the id of the feature and its distance to the
    point, in ascending order of distance; it holds nothing under the index
    of a point that is not hit. *)
Theorem queryMany_features_and_hits `{M : mapnik_api} (d : merc_tile)
  (query : list query_lonlat) (tolerance : double) (layer_name : string)
  (fields : list string) (layer_msg : pbf_reader) (bbox : box2d)
  (points : list (double * double)) :
  layer_reader d layer_name = Some layer_msg ->
  VectorTile.reproject_points query box2d_init [] = Ok (bbox, points) ->
  exists result : queryMany_result,
    VectorTile._queryMany d query tolerance layer_name fields = Ok result
    /\ let ds := mk_datasource layer_msg (tile_x d) (tile_y d) (tile_z d) in
       let candidates :=
         features ds (VectorTile.queryMany_query ds (pad bbox tolerance) fields) in
       let hitting := filter (fun f => has_hit tolerance points f = true) candidates in
       (forall idx : nat,
          qm_features result !! idx = feature_record (get_name ds) <$> hitting !! idx)
       /\ (forall (p : nat) (pt : double * double),
             points !! p = Some pt ->
             exists hits : list query_hit,
               hits ≡ₚ point_hits tolerance hitting pt
               /\ ascending_hits hits
               /\ qm_hits result !! p = match hits with [] => None | _ => Some hits end)
       /\ (forall p : nat, points !! p = None -> qm_hits result !! p = None).
Proof.
  intros Hlayer Hpoints.
  destruct (_queryMany_batch_result d query tolerance layer_name fields layer_msg bbox
              points Hlayer Hpoints) as (result & Hrun & Hfeatures & Hhits).
  exists result. split; [exact Hrun|]. cbn zeta. split; [exact Hfeatures|]. split.
  - intros p pt Hp. specialize (Hhits p). by rewrite Hp in Hhits.
  - intros p Hp. specialize (Hhits p). by rewrite Hp in Hhits.
Qed.

(** *** The layer is mandatory *)

Section queryMany_layer.
Context `{M : mapnik_api}.


End queryMany_layer.


(** ** The structural check *)

Section info_properties.
Context `{M : mapnik_api}.

Lemma info_layer_Ok layer_view st name layer_version :
  get_layer_name_and_version layer_view = Ok (name, layer_version) ->
  is_Some (match layer_is_valid layer_view with Ok r => Some r | Raise _ => None end) ->
  exists st',
    VectorTile.info_layer layer_view st = Ok st'
    /\ VectorTile.errors st ⊆ VectorTile.errors st'
    /\ VectorTile.layer_names_set st ⊆ VectorTile.layer_names_set st'
    /\ (string_empty name = false ->
        name ∈ VectorTile.layer_names_set st'
        /\ (name ∈ VectorTile.layer_names_set st ->
            TILE_REPEATED_LAYER_NAMES ∈ VectorTile.errors st')).
Proof.
  intros Hname Hvalid. unfold VectorTile.info_layer. rewrite Hname. simpl.
  destruct (layer_is_valid layer_view) as [[found counts]|]; [|by destruct Hvalid].
  simpl. eexists. split; [done|]. simpl. split; [|split; [|intros Hne; split]].
  - repeat case_match; set_solver.
  - case_match; set_solver.
  - rewrite Hne. set_solver.
  - intros Hin. rewrite Hne. simpl. rewrite bool_decide_eq_true_2 by done.
    case_match; set_solver.
Qed.

Lemma info_loop_step f st :
  readable_field f = true ->
  exists st',
    (forall rest, VectorTile.info_loop (f :: rest) st = VectorTile.info_loop rest st')
    /\ VectorTile.errors st ⊆ VectorTile.errors st'
    /\ VectorTile.layer_names_set st ⊆ VectorTile.layer_names_set st'
    /\ (forall layer_view name layer_version,
          f = pbf_message Tile_Encoding.LAYERS layer_view ->
          get_layer_name_and_version layer_view = Ok (name, layer_version) ->
          string_empty name = false ->
          name ∈ VectorTile.layer_names_set st'
          /\ (name ∈ VectorTile.layer_names_set st ->
              TILE_REPEATED_LAYER_NAMES ∈ VectorTile.errors st')).
Proof.
  intros Hf.
  destruct f as [tag v|tag v|tag v|tag layer_view| |tag']; simpl in Hf; [| | | |done|done];
    cbn [VectorTile.info_loop pbf_tag];
    destruct (tag =? Tile_Encoding.LAYERS) eqn:Htag; try done;
    try (eexists; split; [done|]; simpl; split; [set_solver|split; [done|]];
         intros layer_view' name v' [= -> _]; done).
  destruct (get_layer_name_and_version layer_view) as [[name layer_version]|] eqn:Hname;
    [|done].
  destruct (layer_is_valid layer_view) as [r|] eqn:Hvalid; [|done].
  destruct (info_layer_Ok layer_view st name layer_version Hname) as (st' & Hst' & He & Hn & Hr).
  { by rewrite Hvalid. }
  exists st'. split.
  - intros rest. simpl. by rewrite Hst'.
  - split; [done|]. split; [done|].
    intros layer_view' name' v' [= _ <-] Hname'. rewrite Hname in Hname'.
    injection Hname' as <- <-. apply Hr.
Qed.

Lemma info_loop_prefix pre st :
  Forall (fun f => readable_field f = true) pre ->
  exists st',
    (forall rest, VectorTile.info_loop (pre ++ rest) st = VectorTile.info_loop rest st')
    /\ VectorTile.errors st ⊆ VectorTile.errors st'
    /\ VectorTile.layer_names_set st ⊆ VectorTile.layer_names_set st'.
Proof.
  intros Hpre. revert st. induction Hpre as [|f pre Hf Hpre IH]; intros st.
  { by exists st. }
  destruct (info_loop_step f st Hf) as (st1 & H1 & He1 & Hn1 & _).
  destruct (IH st1) as (st' & H' & He' & Hn').
  exists st'. split; [|split; set_solver].
  intros rest. simpl app. by rewrite H1.
Qed.

(** The exceptions that end the loop never take an error back. *)
Lemma info_loop_errors tile_msg st :
  VectorTile.errors st ⊆ VectorTile.errors (VectorTile.info_loop tile_msg st).1.
Proof.
  revert st. induction tile_msg as [|f tile_msg IH]; intros st; [done|].
  assert (Hstep :
    VectorTile.errors st ⊆
    VectorTile.errors
      (if pbf_tag f =? Tile_Encoding.LAYERS
       then match layer_view ← get_message f; VectorTile.info_layer layer_view st with
            | Ok st1 => VectorTile.info_loop tile_msg st1
            | Raise _ => (st, true)
            end
       else VectorTile.info_loop tile_msg
              (VectorTile.mk_info_state (VectorTile.layers st)
                 ({[TILE_HAS_UNKNOWN_TAG]} ∪ VectorTile.errors st)
                 (VectorTile.has_errors st) (VectorTile.first_layer st)
                 (VectorTile.layer_names_set st) (VectorTile.version st))).1).
  { destruct (pbf_tag f =? Tile_Encoding.LAYERS).
    - destruct (get_message f) as [layer_view|]; simpl; [|done].
      destruct (VectorTile.info_layer layer_view st) as [st1|] eqn:Hst1; [|done].
      etrans; [|apply IH].
      unfold VectorTile.info_layer in Hst1.
      destruct (get_layer_name_and_version layer_view) as [[name v]|]; [|done].
      simpl in Hst1. destruct (layer_is_valid layer_view) as [[found counts]|]; [|done].
      simpl in Hst1. injection Hst1 as <-. simpl. repeat case_match; set_solver.
    - etrans; [|apply IH]. simpl. set_solver. }
  destruct f as [tag v|tag v|tag vs|tag fields| |tag]; try done; try apply Hstep.
  clear. cbn [VectorTile.info_loop]. destruct (tag =? Tile_Encoding.LAYERS); simpl; set_solver.
Qed.

End info_properties.

(** Claim C7.  When the message in the buffer holds two layers with the
    same non-empty name, and the reader gets as far as the second of them
    without an exception, [info] returns (it does not throw) an object
    whose [errors] is true and whose [tile_errors] lists
    TILE_REPEATED_LAYER_NAMES. *)
Theorem info_reports_repeated_layer_names `{M : mapnik_api} (data : bytes)
  (pre mid post : pbf_reader) (layer1 layer2 : pbf_reader) (name : string)
  (version1 version2 : Z) :
  VectorTile.info_message data
  = Ok (pre ++ [pbf_message Tile_Encoding.LAYERS layer1] ++ mid
        ++ [pbf_message Tile_Encoding.LAYERS layer2] ++ post)%list ->
  Forall (fun f => readable_field f = true)
    (pre ++ [pbf_message Tile_Encoding.LAYERS layer1] ++ mid
     ++ [pbf_message Tile_Encoding.LAYERS layer2])%list ->
  get_layer_name_and_version layer1 = Ok (name, version1) ->
  get_layer_name_and_version layer2 = Ok (name, version2) ->
  string_empty name = false ->
  exists (out : VectorTile.info_out) (tile_errors : list string),
    VectorTile.info [JsBuffer data] = Return out
    /\ VectorTile.out_errors out = true
    /\ VectorTile.out_tile_errors out = Some tile_errors
    /\ validity_error_to_string TILE_REPEATED_LAYER_NAMES ∈ tile_errors.
Proof.
  intros Hmsg Hread Hname1 Hname2 Hne.
  apply Forall_app in Hread as [Hpre Hread].
  apply Forall_cons in Hread as [Hl1 Hread].
  apply Forall_app in Hread as [Hmid Hl2].
  apply Forall_cons in Hl2 as [Hl2 _].
  destruct (info_loop_prefix pre VectorTile.info_initial Hpre) as (st1 & H1 & _ & _).
  destruct (info_loop_step _ st1 Hl1) as (st2 & H2 & _ & _ & Hin2).
  destruct (Hin2 layer1 name version1 eq_refl Hname1 Hne) as [Hin _].
  destruct (info_loop_prefix mid st2 Hmid) as (st3 & H3 & _ & Hn3).
  destruct (info_loop_step _ st3 Hl2) as (st4 & H4 & _ & _ & Hin4).
  destruct (Hin4 layer2 name version2 eq_refl Hname2 Hne) as [_ Hrep].
  assert (Hfinal : TILE_REPEATED_LAYER_NAMES ∈ VectorTile.errors (VectorTile.info_loop post st4).1).
  { apply info_loop_errors, Hrep, Hn3, Hin. }
  unfold VectorTile.info. simpl. rewrite Hmsg.
  rewrite H1. simpl app. rewrite H2, H3. simpl app. rewrite H4.
  destruct (VectorTile.info_loop post st4) as [st threw]. simpl in Hfinal.
  set (errors := if threw then _ else _).
  assert (Herr : TILE_REPEATED_LAYER_NAMES ∈ errors) by (subst errors; clear -Hfinal; destruct threw; set_solver).
  assert (Hnonempty : bool_decide (errors = ∅) = false).
  { apply bool_decide_eq_false. clear -Herr. set_solver. }
  eexists _, _. split; [done|]. simpl. rewrite Hnonempty. simpl.
  split; [by rewrite orb_true_r|]. split; [done|].
  unfold VectorTile.error_strings. apply list_elem_of_fmap. eexists. split; [done|].
  rewrite merge_sort_Permutation. by apply elem_of_elements.
Qed.

(** ** Replacing the data *)

(** Claim C10 (as amended).  [setData] and [setDataSync] are not atomic on
    error.  For a non-empty buffer and well-typed options the tile is
    cleared before the merge, so the call completes, and leaves the tile,
    as the merge of the buffer into the cleared tile does: an error of the
    merge reaches the caller (thrown, or handed to the callback) and the
    tile is left as the failed merge left the cleared tile.  Nothing of
    what the tile held before the call plays a part: two tiles that are
    the same once cleared give the same outcome and the same tile. *)
Theorem setData_clears_before_merge `{M : mapnik_api} (d : merc_tile)
  (data : bytes) (rest : list js_value) (validate upgrade : bool) :
  data <> [] ->
  VectorTile.setData_options (JsBuffer data :: rest) = Accept (validate, upgrade) ->
  let merged := merge_from_compressed_buffer (clear d) data validate upgrade in
  VectorTile.setDataSync d (JsBuffer data :: rest)
  = (match merged.1 with Some what => Throw Error what | None => Return () end, merged.2)
  /\ VectorTile.setData d (JsBuffer data :: rest)
     = (if negb (IsFunction (last_arg (JsBuffer data :: rest)))
        then match merged.1 with Some what => Throw Error what | None => Return () end
        else Callback (match merged.1 with Some what => Raise what | None => Ok () end),
        merged.2)
  /\ (forall d0 : merc_tile,
        clear d0 = clear d ->
        VectorTile.setDataSync d0 (JsBuffer data :: rest)
        = VectorTile.setDataSync d (JsBuffer data :: rest)
        /\ VectorTile.setData d0 (JsBuffer data :: rest)
           = VectorTile.setData d (JsBuffer data :: rest)).
Proof.
  intros Hdata Hopts merged.
  assert (Hsync : forall d0, clear d0 = clear d ->
            VectorTile._setDataSync d0 (JsBuffer data :: rest)
            = (match merged.1 with Some what => Throw Error what | None => Return () end,
               merged.2)).
  { intros d0 Hd0. unfold VectorTile._setDataSync. simpl.
    destruct data as [|b data]; [done|].
    simpl. rewrite Hopts. unfold VectorTile.clear_and_merge. rewrite Hd0.
    fold merged. by destruct merged as [[what|] d']. }
  assert (Hasync : forall d0, clear d0 = clear d ->
            VectorTile.setData d0 (JsBuffer data :: rest)
            = (if negb (IsFunction (last_arg (JsBuffer data :: rest)))
               then match merged.1 with Some what => Throw Error what | None => Return () end
               else Callback (match merged.1 with Some what => Raise what | None => Ok () end),
               merged.2)).
  { intros d0 Hd0. unfold VectorTile.setData. rewrite (Hsync d0 Hd0).
    destruct (negb (IsFunction _)); [done|].
    simpl. rewrite Hopts. unfold VectorTile.EIO_SetData, VectorTile.clear_and_merge.
    destruct data as [|b data]; [done|]. simpl. rewrite Hd0.
    fold merged. by destruct merged as [[what|] d']. }
  split; [by apply Hsync|]. split; [by apply Hasync|].
  intros d0 Hd0. unfold VectorTile.setDataSync.
  by rewrite (Hsync d0 Hd0), (Hsync d eq_refl), (Hasync d0 Hd0), (Hasync d eq_refl).
Qed.

(** Claim C10, as stated, fails: a merge that raises an error does not
    always leave the tile empty.  The buffer below holds the layer "roads"
    and then a field the tile format does not have; the merge appends the
    layer before it raises, and the tile is left with that layer. *)
Lemma setData_failed_merge_not_empty :
  ~ (forall (M : mapnik_api) (d : merc_tile) (data : bytes) (rest : list js_value)
            (what : string) (d' : merc_tile),
       data <> [] ->
       VectorTile.setDataSync d (JsBuffer data :: rest) = (Throw Error what, d') ->
       is_empty d' = true).
Proof.
  intros H.
  assert (Hrun : exists d',
     @VectorTile.setDataSync ref_api examples.two_points
       [JsBuffer (examples.roads_layer_bytes ++ examples.not_a_tile)]
     = (Throw Error "Vector Tile Buffer contains invalid tag", d')
     /\ is_empty d' = false).
  { eexists. split; by vm_compute. }
  destruct Hrun as (d' & Hrun & Hne).
  apply (H ref_api) in Hrun; [congruence|done].
Qed.

(** ** Point in polygon *)

Section polygon_properties.
Context `{M : mapnik_api}.
Variables (x y : double).

Lemma ring_loop_step pt0 pt1 ring inside :
  detail.ring_loop x y (pt0 :: pt1 :: ring) inside
  = detail.ring_loop x y (pt1 :: ring)
      (if pip (pt_x pt0) (pt_y pt0) (pt_x pt1) (pt_y pt1) x y then negb inside else inside).
Proof. reflexivity. Qed.

(** One more edge flips the parity exactly when the ray crosses it. *)
Lemma inside_ring_step pt0 pt1 ring :
  inside_ring x y (pt0 :: pt1 :: ring)
  = xorb (pip (pt_x pt0) (pt_y pt0) (pt_x pt1) (pt_y pt1) x y)
         (inside_ring x y (pt1 :: ring)).
Proof.
  unfold inside_ring. cbn [segments].
  destruct (pip (pt_x pt0) (pt_y pt0) (pt_x pt1) (pt_y pt1) x y) eqn:Hpip.
  - rewrite filter_cons_True by exact Hpip.
    cbn [length]. rewrite Nat.odd_succ, <- Nat.negb_odd. by destruct (Nat.odd _).
  - rewrite filter_cons_False by (unfold crosses; simpl; congruence).
    by destruct (Nat.odd _).
Qed.

(** The loop over the edges of a ring computes the parity of the edges
    the ray crosses. *)
Lemma ring_loop_xorb ring inside :
  detail.ring_loop x y ring inside = xorb inside (inside_ring x y ring).
Proof.
  revert inside.
  induction ring as [|pt0 ring IH]; intros inside; [by destruct inside|].
  destruct ring as [|pt1 ring]; [by destruct inside|].
  rewrite ring_loop_step, IH, inside_ring_step.
  destruct (pip _ _ _ _ _ _), inside, (inside_ring x y (pt1 :: ring)); done.
Qed.

Lemma polygon_loop_interior rings n inside :
  detail.polygon_loop x y rings (S n) inside
  = Some (xorb inside (even_odd x y (filter (fun r => has_four_points r = true) rings))).
Proof.
  revert n inside. induction rings as [|ring rings IH]; intros n inside; simpl.
  { by rewrite xorb_false_r. }
  unfold has_four_points at 1.
  destruct (Nat.ltb_spec (length ring) 4) as [Hlt|Hge].
  - rewrite filter_cons_False; [apply IH|].
    intros Hr. apply Nat.leb_le in Hr. lia.
  - rewrite filter_cons_True by (apply Nat.leb_le; lia).
    rewrite IH, ring_loop_xorb. simpl. by rewrite xorb_assoc.
Qed.

End polygon_properties.

(** The polygon case on a polygon with an exterior ring, in closed form. *)
Lemma p2p_polygon_rings `{M : mapnik_api} (x y : double)
  (exterior : linear_ring) (interior : list linear_ring) :
  detail.p2p_polygon x y (exterior :: interior)
  = if has_four_points exterior && inside_ring x y exterior
       && even_odd x y (exterior :: filter (fun r => has_four_points r = true) interior)
    then detail.mk_p2p d_zero d_zero d_zero
    else detail.p2p_no_hit.
Proof.
  unfold detail.p2p_polygon. cbn [detail.polygon_loop Nat.eqb].
  unfold has_four_points at 1.
  destruct (Nat.ltb_spec (length exterior) 4) as [Hlt|Hge].
  - by rewrite (proj2 (Nat.leb_gt _ _)) by lia.
  - rewrite (proj2 (Nat.leb_le _ _)) by lia.
    rewrite ring_loop_xorb, xorb_false_l. cbn [andb even_odd foldr].
    destruct (inside_ring x y exterior); [|done].
    cbn [negb andb]. rewrite polygon_loop_interior. done.
Qed.

(** Claim C3 (as amended).  The polygon case of the distance computation
    reports a hit at distance 0 exactly when the exterior ring has at least
    4 points, the point is inside the exterior ring, and the even-odd rule
    over the exterior ring and the interior rings with at least 4 points
    puts the point inside; in every other case, and for a polygon without
    rings, it reports no hit (distance -1). *)
Theorem p2p_polygon_even_odd `{M : mapnik_api} (x y : double)
  (exterior : linear_ring) (interior : list linear_ring) :
  detail.p2p_polygon x y [] = detail.p2p_no_hit
  /\ (detail.p2p_polygon x y (exterior :: interior) = detail.mk_p2p d_zero d_zero d_zero
      <-> has_four_points exterior = true
          /\ inside_ring x y exterior = true
          /\ even_odd x y (exterior :: filter (fun r => has_four_points r = true) interior)
             = true)
  /\ (detail.p2p_polygon x y (exterior :: interior) = detail.p2p_no_hit
      <-> ~ (has_four_points exterior = true
             /\ inside_ring x y exterior = true
             /\ even_odd x y (exterior :: filter (fun r => has_four_points r = true) interior)
                = true)).
Proof.
  split; [done|]. rewrite p2p_polygon_rings.
  set (rings := exterior :: filter _ interior).
  set (hit := has_four_points exterior && inside_ring x y exterior && even_odd x y rings).
  assert (Hhit : hit = true <-> has_four_points exterior = true
                               /\ inside_ring x y exterior = true
                               /\ even_odd x y rings = true).
  { subst hit. rewrite !andb_true_iff. tauto. }
  rewrite <- Hhit. destruct hit; split; split; intros H; try done.
Qed.

(** Three readings of the characterisation: a degenerate exterior ring is
    never hit; without holes a point inside the exterior ring is at
    distance 0; a point inside the exterior ring and inside the only hole
    is not a hit. *)
Lemma p2p_polygon_cases `{M : mapnik_api} (x y : double) (exterior hole : linear_ring)
  (interior : list linear_ring) :
  ((length exterior < 4)%nat ->
   detail.p2p_polygon x y (exterior :: interior) = detail.p2p_no_hit)
  /\ ((4 <= length exterior)%nat -> inside_ring x y exterior = true ->
      detail.p2p_polygon x y [exterior] = detail.mk_p2p d_zero d_zero d_zero)
  /\ ((4 <= length exterior)%nat -> inside_ring x y exterior = true ->
      (4 <= length hole)%nat -> inside_ring x y hole = true ->
      detail.p2p_polygon x y [exterior; hole] = detail.p2p_no_hit).
Proof.
  repeat split.
  - intros Hlt. rewrite p2p_polygon_rings.
    unfold has_four_points at 1. by rewrite (proj2 (Nat.leb_gt _ _)) by lia.
  - intros Hge Hin. rewrite p2p_polygon_rings.
    unfold has_four_points. rewrite (proj2 (Nat.leb_le _ _)) by lia.
    rewrite filter_nil. simpl. by rewrite Hin.
  - intros Hge Hin Hge' Hin'. rewrite p2p_polygon_rings.
    rewrite filter_cons_True by (apply Nat.leb_le; lia).
    unfold has_four_points. rewrite (proj2 (Nat.leb_le _ _)) by lia.
    rewrite filter_nil. simpl. by rewrite Hin, Hin'.
Qed.

(** Claim C3, as stated, fails: a point inside a hole can be a hit.  Here
    the point (5, 5) lies inside the exterior square 0..10 and inside both
    of two holes 2..8, and the distance is 0. *)
Lemma p2p_polygon_inside_two_holes :
  ~ (forall (M : mapnik_api) (x y : double) (exterior hole : linear_ring)
            (interior : list linear_ring),
       (4 <= length exterior)%nat -> hole ∈ interior -> inside_ring x y hole = true ->
       d_lt (detail.distance (detail.p2p_polygon x y (exterior :: interior))) d_zero = true).
Proof.
  intros H.
  specialize (H ref_api (double_of_Z 5) (double_of_Z 5) (examples.square 0 10)
                (examples.square 2 8) [examples.square 2 8; examples.square 2 8]).
  assert (Hd : d_lt (detail.distance
                 (@detail.p2p_polygon ref_api (double_of_Z 5) (double_of_Z 5)
                    [examples.square 0 10; examples.square 2 8; examples.square 2 8]))
                 d_zero = false) by (vm_compute; reflexivity).
  rewrite H in Hd; [done| |apply list_elem_of_here|vm_compute; reflexivity].
  simpl. lia.
Qed.

(** ** The size invariant *)

Lemma wrap_int32_range z : INT32_MIN <= wrap_int32 z <= INT32_MAX.
Proof.
  unfold wrap_int32, INT32_MIN, INT32_MAX.
  pose proof (Z.mod_pos_bound (z + 2147483648) 4294967296). lia.
Qed.

Lemma wrap_int32_small z : INT32_MIN <= z <= INT32_MAX -> wrap_int32 z = z.
Proof.
  unfold wrap_int32, INT32_MIN, INT32_MAX. intros Hz.
  rewrite Z.mod_small by lia. lia.
Qed.

Lemma Int32Value_range v : INT32_MIN <= Int32Value v <= INT32_MAX.
Proof. apply wrap_int32_range. Qed.

(** The check of the constructor and of [set_buffer_size] doubles the
    buffer size in [int]; it is the check of the invariant as long as the
    double fits. *)
Lemma doubled_buffer_check tile_size buffer_size :
  0 < tile_size <= INT32_MAX ->
  INT32_MIN <= buffer_size <= INT32_MAX ->
  -1073741824 <= buffer_size ->
  (tile_size + wrap_int32 (2 * buffer_size) <=? 0) = false ->
  tile_size + 2 * buffer_size > 0.
Proof.
  unfold INT32_MIN, INT32_MAX. intros Hts Hb Hlow Hcheck.
  apply Z.leb_gt in Hcheck.
  destruct (Z_lt_ge_dec buffer_size 1073741824) as [Hsmall|Hbig]; [|lia].
  rewrite wrap_int32_small in Hcheck by (unfold INT32_MIN, INT32_MAX; lia). lia.
Qed.

Lemma New_sizes_range info tile_size buffer_size :
  VectorTile.New_sizes info = Accept (tile_size, buffer_size) ->
  0 < tile_size <= INT32_MAX /\ INT32_MIN <= buffer_size <= INT32_MAX.
Proof.
  unfold VectorTile.New_sizes. intros H.
  pose proof (Int32Value_range (DoubleValue (Get (arg info 3) "tile_size"))) as Ht.
  pose proof (Int32Value_range (DoubleValue (Get (arg info 3) "buffer_size"))) as Hb.
  repeat case_match; simplify_eq/=;
    repeat match goal with
           | H : (_ <=? _) = false |- _ => apply Z.leb_gt in H
           end;
    unfold INT32_MIN, INT32_MAX in *; lia.
Qed.

(** The constructor establishes the invariant (for a buffer size whose
    double fits an [int]). *)
Lemma New_invariant info d :
  VectorTile.New true info = Return (VectorTile.Construct d) ->
  -1073741824 <= buffer_size d ->
  tile_invariant d.
Proof.
  unfold VectorTile.New. simpl.
  repeat (match goal with |- context [if ?c then _ else _] => destruct c eqn:? end; try done).
  destruct (VectorTile.New_sizes info) as [[ts bs]|] eqn:Hsizes; [|done].
  destruct (ts + wrap_int32 (2 * bs) <=? 0) eqn:Hcheck; [done|].
  intros [= <-] Hlow. unfold tile_invariant. simpl in *.
  apply New_sizes_range in Hsizes as [Hts Hbs].
  by apply doubled_buffer_check.
Qed.

(** [set_buffer_size] keeps the invariant, and a rejected assignment
    leaves the tile as it was. *)
Lemma set_buffer_size_invariant d value outcome d' :
  0 < tile_size d <= INT32_MAX ->
  VectorTile.set_buffer_size d value = (outcome, d') ->
  match outcome with
  | Return _ => -1073741824 <= buffer_size d' -> tile_invariant d'
  | _ => d' = d
  end.
Proof.
  unfold VectorTile.set_buffer_size. intros Hts.
  destruct (negb (IsNumber value)); [by intros [= <- <-]|].
  pose proof (Int32Value_range (DoubleValue value)) as Hv.
  pose proof (wrap_int32_range (2 * Int32Value (DoubleValue value))) as Hw.
  destruct (wrap_int32 _ <=? 0) eqn:Hcheck; intros [= <- <-]; [done|].
  simpl. intros Hlow. unfold tile_invariant. simpl.
  rewrite (wrap_int32_small (tile_size d)) in Hcheck by (unfold INT32_MIN, INT32_MAX in *; lia).
  apply Z.leb_gt in Hcheck.
  destruct (Z_lt_ge_dec (Int32Value (DoubleValue value)) 1073741824) as [Hsmall|Hbig];
    [|lia].
  rewrite (wrap_int32_small (2 * _)) in Hcheck by (unfold INT32_MIN, INT32_MAX in *; lia).
  destruct (Z_le_gt_dec (tile_size d + 2 * Int32Value (DoubleValue value)) INT32_MAX)
    as [Hfit|Hover].
  - rewrite wrap_int32_small in Hcheck by (unfold INT32_MIN, INT32_MAX in *; lia). lia.
  - unfold INT32_MAX in *. lia.
Qed.

(** Claim C2 (a defect of the code).  [set_tile_size] checks the new size
    alone.  The tile built by [new VectorTile(0, 0, 0, {tile_size: 4096,
    buffer_size: -2000})] satisfies the invariant; the assignment
    [tileSize = 100] is accepted on it and leaves a tile with
    [tile_size + 2 * buffer_size = -3900]. *)
Theorem set_tile_size_breaks_invariant :
  VectorTile.New true examples.narrow_buffer_args
  = Return (VectorTile.Construct examples.narrow_buffer_tile)
  /\ tile_invariant examples.narrow_buffer_tile
  /\ exists d' : merc_tile,
       VectorTile.set_tile_size examples.narrow_buffer_tile (examples.number 100)
       = (Return (), d')
       /\ tile_size d' + 2 * buffer_size d' = -3900
       /\ ~ tile_invariant d'.
Proof.
  split; [by vm_compute|]. split; [by vm_compute|].
  eexists. split; [by vm_compute|]. split; [done|].
  unfold tile_invariant. simpl. lia.
Qed.

(** ** The scale option of compositing *)

Section composite_properties.
Context `{M : mapnik_api}.

(** The synchronous entry point rejects a scale that is zero or negative
    before anything is rendered: the call throws and the target tile is
    untouched. *)
Lemma compositeSync_rejects_scale target vtiles options rest :
  Has options "scale" = true ->
  IsNumber (Get options "scale") = true ->
  d_le (DoubleValue (Get options "scale")) d_zero = true ->
  exists k msg,
    VectorTile.compositeSync target (JsArray vtiles :: options :: rest)
    = (Throw k msg, target).
Proof.
  intros Hhas Hnum Hle.
  assert (Hscale : VectorTile.ranged_option options "scale"
            "optional arg 'scale' must be a number" (fun v => d_le v d_zero)
            "optional arg 'scale' must be greater then zero" d_one
          = Reject TypeError "optional arg 'scale' must be greater then zero").
  { unfold VectorTile.ranged_option. by rewrite Hhas, Hnum, Hle. }
  assert (Hopts : exists k msg, VectorTile.compositeSync_options options = Reject k msg).
  { unfold VectorTile.compositeSync_options. rewrite Hscale.
    repeat match goal with
           | |- context [mbind _ ?m] =>
               lazymatch m with
               | Reject _ _ => fail
               | _ => destruct m; simpl; [|by eexists _, _]
               end
           end.
    by eexists _, _. }
  destruct Hopts as (k & msg & Hopts).
  unfold VectorTile.compositeSync, VectorTile._compositeSync, VectorTile.compositeSync_args.
  simpl. destruct vtiles as [|vt vtiles]; simpl; [by eexists _, _|].
  change (arg (JsArray (vt :: vtiles) :: options :: rest) 1) with options.
  destruct (IsObject options); simpl; [|by eexists _, _].
  rewrite Hopts. simpl. by eexists _, _.
Qed.

End composite_properties.

(** Claim C9 (a defect of the code).  The asynchronous [composite] only
    rejects a negative scale.  [composite([vt], {scale: 0}, callback)]
    passes the checks and renders with [scale_factor = 0], while
    [compositeSync([vt], {scale: 0})] throws "optional arg 'scale' must be
    greater then zero". *)
Theorem composite_accepts_scale_zero :
  (exists options : composite_options,
     @VectorTile.composite_args ref_api examples.scale_zero_async
     = Accept (options, [examples.empty_tile])
     /\ scale_factor options = d_zero)
  /\ @VectorTile.composite ref_api examples.empty_tile examples.scale_zero_async
     = (Callback (Ok ()), examples.empty_tile)
  /\ @VectorTile.compositeSync ref_api examples.empty_tile examples.scale_zero_sync
     = (Throw TypeError "optional arg 'scale' must be greater then zero",
        examples.empty_tile).
Proof.
  split; [eexists; split; by vm_compute|]. split; by vm_compute.
Qed.

(** ** The validity report *)

Section validity_properties.
Context `{M : mapnik_api}.

Lemma findings_of_nil f layer_name errors : findings_of f layer_name [] errors errors.
Proof. split; [by rewrite app_nil_r|constructor]. Qed.

Lemma findings_of_app f layer_name geoms1 geoms2 errors errors1 errors2 :
  findings_of f layer_name geoms1 errors errors1 ->
  findings_of f layer_name geoms2 errors1 errors2 ->
  findings_of f layer_name (geoms1 ++ geoms2) errors errors2.
Proof.
  intros [-> H1] [-> H2]. split.
  - by rewrite filter_app, omap_app, app_assoc.
  - rewrite filter_app. by apply Forall_app.
Qed.

Lemma check_once_Ok f layer_name geom errors errors' :
  check_once errors f layer_name geom = Ok errors' ->
  findings_of f layer_name [geom] errors errors'.
Proof.
  unfold check_once, emplace_not_valid, findings_of, finding.
  destruct (geometry_is_valid geom) as [[] msg] eqn:Hv; simpl.
  - intros [= <-]. rewrite filter_cons_False, filter_nil by (rewrite Hv; done).
    split; [by rewrite app_nil_r|constructor].
  - rewrite filter_cons_True, filter_nil by (rewrite Hv; done).
    destruct (to_geojson _) as [feature_str|] eqn:Hg; [|done]. intros [= <-]. simpl.
    rewrite Hg, Hv. simpl. split; [done|]. repeat constructor. rewrite Hg. by eexists.
Qed.

Lemma check_twice_Ok f layer_name geom errors errors' :
  check_twice errors f layer_name geom = Ok errors' ->
  findings_of f layer_name [geom] errors errors'.
Proof.
  intros H. apply check_once_Ok. revert H. unfold check_twice, check_once.
  by destruct (negb (geometry_is_valid geom).1).
Qed.

Lemma check_parts_Ok f layer_name parts errors errors' :
  check_parts errors f layer_name parts = Ok errors' ->
  findings_of f layer_name parts errors errors'.
Proof.
  revert errors. induction parts as [|part parts IH]; intros errors; simpl.
  { intros [= <-]. apply findings_of_nil. }
  destruct (check_once errors f layer_name part) as [errors1|] eqn:H1; [|done]. simpl.
  intros H2. apply (findings_of_app _ _ [part] parts _ errors1).
  - by apply check_once_Ok.
  - by apply IH.
Qed.

Lemma visitor_geom_valid_Ok f layer_name split_multi_features :
  forall geom errors errors',
    visitor_geom_valid f layer_name split_multi_features geom errors = Ok errors' ->
    findings_of f layer_name (tested_geometries split_multi_features geom) errors errors'.
Proof.
  fix IH 1. intros geom errors errors'.
  destruct geom as [|pt|line|poly|pts|lines|polys|geoms]; simpl.
  - clear IH. intros [= <-]. apply findings_of_nil.
  - clear IH. apply check_twice_Ok.
  - clear IH. apply check_twice_Ok.
  - clear IH. apply check_twice_Ok.
  - clear IH. apply check_twice_Ok.
  - clear IH. destruct split_multi_features; [apply check_parts_Ok|apply check_once_Ok].
  - clear IH. destruct split_multi_features; [apply check_parts_Ok|apply check_once_Ok].
  - revert errors. induction geoms as [|g geoms IHg]; intros errors; simpl.
    + clear IH. intros [= <-]. apply findings_of_nil.
    + destruct (visitor_geom_valid f layer_name split_multi_features g errors)
        as [errors1|] eqn:H1; simpl.
      * intros H2. apply (findings_of_app _ _ _ _ _ errors1).
        -- apply IH, H1.
        -- apply IHg, H2.
      * intros H2. exfalso. clear -H2.
        induction geoms as [|g' geoms IHg']; simpl in H2; [done|by apply IHg'].
Qed.

Lemma length_omap_is_Some {A B} (g : A -> option B) (l : list A) :
  Forall (fun a => is_Some (g a)) l -> length (omap g l) = length l.
Proof.
  induction 1 as [|a l [b Hb] Hall IH]; [done|].
  cbn [omap list_omap]. rewrite Hb. cbn [length]. by f_equal.
Qed.

(** What the visitor adds for one visit. *)
Lemma visit_Ok f layer_name split_multi_features geom errors errors' :
  visitor_geom_valid f layer_name split_multi_features geom errors = Ok errors' ->
  errors' = errors ++ expected_findings split_multi_features (mk_visit f layer_name geom)
  /\ length (expected_findings split_multi_features (mk_visit f layer_name geom))
     = length (offending split_multi_features geom).
Proof.
  intros [-> Hall]%visitor_geom_valid_Ok. split; [done|].
  unfold expected_findings, offending. simpl. by apply length_omap_is_Some.
Qed.

(** *** The features the report visits *)

Lemma reports_nil split_multi_features errors : reports split_multi_features [] errors errors.
Proof. split; [by rewrite app_nil_r|constructor]. Qed.

Lemma reports_app split_multi_features visits1 visits2 errors errors1 errors2 :
  reports split_multi_features visits1 errors errors1 ->
  reports split_multi_features visits2 errors1 errors2 ->
  reports split_multi_features (visits1 ++ visits2) errors errors2.
Proof.
  intros [-> H1] [-> H2]. split.
  - by rewrite flat_map_app, app_assoc.
  - by apply Forall_app.
Qed.

Lemma reports_visit f layer_name split_multi_features geom errors errors' :
  visitor_geom_valid f layer_name split_multi_features geom errors = Ok errors' ->
  reports split_multi_features [mk_visit f layer_name geom] errors errors'.
Proof.
  intros [-> Hlen]%visit_Ok. split; [simpl; by rewrite app_nil_r|].
  by repeat constructor.
Qed.

Lemma not_valid_features_Ok fs layer_name split_multi_features lat_lon errors errors' :
  not_valid_features fs layer_name split_multi_features lat_lon errors = Ok errors' ->
  reports split_multi_features (datasource_visits fs layer_name lat_lon) errors errors'.
Proof.
  revert errors. induction fs as [|f fs IH]; intros errors; simpl.
  { intros [= <-]. apply reports_nil. }
  destruct (visitor_geom_valid _ _ _ _ _) as [errors1|] eqn:H1; [|done]. simpl.
  intros H2. apply (reports_app _ [_] _ _ errors1); [by apply reports_visit|by apply IH].
Qed.

(** What the first loop over a layer message leaves in its locals. *)
Lemma last_snoc_default {A} (x : A) (l : list A) (d : A) :
  default d (last (x :: l)) = default x (last l).
Proof. rewrite last_cons. by destruct (last l). Qed.

Lemma read_layer_Ok layer_msg acc lf :
  read_layer layer_msg acc = Ok lf ->
  lf_features lf = (lf_features acc ++ feature_messages layer_msg)%list
  /\ lf_name lf = default (lf_name acc) (last (string_fields Layer_Encoding.NAME layer_msg))
  /\ lf_version lf
     = default (lf_version acc)
         (wrap_uint32 <$> last (varint_fields Layer_Encoding.VERSION layer_msg)).
Proof.
  revert acc. induction layer_msg as [|f rest IH]; intros acc.
  { simpl. intros [= <-]. by rewrite app_nil_r. }
  destruct f as [tag v|tag s|tag vs|tag fields| |tag']; [..|done|done];
    cbn [read_layer pbf_tag feature_messages string_fields varint_fields omap list_omap];
    fold (feature_messages rest) (string_fields Layer_Encoding.NAME rest)
      (varint_fields Layer_Encoding.VERSION rest).
  - destruct (tag =? Layer_Encoding.NAME) eqn:H1; [done|].
    destruct (tag =? Layer_Encoding.FEATURES) eqn:H2; [done|].
    destruct (tag =? Layer_Encoding.VERSION) eqn:H3; [|apply IH].
    intros Hrun. apply IH in Hrun as (Hf & Hn & Hv).
    cbn [lf_features lf_name lf_version] in *.
    split; [done|]. split; [done|]. rewrite Hv, last_cons.
    by destruct (last (varint_fields Layer_Encoding.VERSION rest)); simpl.
  - destruct (tag =? Layer_Encoding.NAME) eqn:H1.
    + intros Hrun. apply IH in Hrun as (Hf & Hn & Hv).
      cbn [lf_features lf_name lf_version] in *.
      split; [done|]. split; [|done]. rewrite Hn, last_cons.
      by destruct (last (string_fields Layer_Encoding.NAME rest)); simpl.
    + destruct (tag =? Layer_Encoding.FEATURES) eqn:H2; [done|].
      destruct (tag =? Layer_Encoding.VERSION) eqn:H3; [done|apply IH].
  - destruct (tag =? Layer_Encoding.NAME) eqn:H1; [done|].
    destruct (tag =? Layer_Encoding.FEATURES) eqn:H2; [done|].
    destruct (tag =? Layer_Encoding.VERSION) eqn:H3; [done|apply IH].
  - destruct (tag =? Layer_Encoding.NAME) eqn:H1; [done|].
    destruct (tag =? Layer_Encoding.FEATURES) eqn:H2.
    + intros Hrun. apply IH in Hrun as (Hf & Hn & Hv).
      cbn [lf_features lf_name lf_version] in *.
      split; [|done]. by rewrite Hf, <- app_assoc.
    + destruct (tag =? Layer_Encoding.VERSION) eqn:H3; [done|apply IH].
Qed.

(** What the loop over a feature message leaves in its locals. *)
Lemma read_feature_Ok feature_msg acc ff :
  read_feature feature_msg acc = Ok ff ->
  (ff_has_geom ff, ff_geom_itr ff)
  = match last (packed_fields Feature_Encoding.GEOMETRY feature_msg) with
    | Some vs => (true, vs)
    | None => (ff_has_geom acc, ff_geom_itr acc)
    end
  /\ (ff_has_geom_type ff, ff_geom_type_enum ff)
     = match last (varint_fields Feature_Encoding.TYPE feature_msg) with
       | Some v => (true, wrap_int32 v)
       | None => (ff_has_geom_type acc, ff_geom_type_enum acc)
       end.
Proof.
  revert acc. induction feature_msg as [|f rest IH]; intros acc.
  { simpl. by intros [= <-]. }
  destruct f as [tag v|tag s|tag vs|tag fields| |tag']; [..|done|done];
    cbn [read_feature pbf_tag packed_fields varint_fields omap list_omap];
    fold (packed_fields Feature_Encoding.GEOMETRY rest)
      (varint_fields Feature_Encoding.TYPE rest).
  - destruct (tag =? Feature_Encoding.ID) eqn:H1.
    + apply Z.eqb_eq in H1 as ->. cbn [Z.eqb Feature_Encoding.ID Feature_Encoding.TYPE
        Pos.eqb].
      intros Hrun. by apply IH in Hrun as (Hg & Ht).
    + destruct (tag =? Feature_Encoding.TYPE) eqn:H2.
      * intros Hrun. apply IH in Hrun as (Hg & Ht).
        cbn [ff_has_geom ff_geom_itr ff_has_geom_type ff_geom_type_enum] in *.
        split; [done|]. rewrite Ht, last_cons.
        by destruct (last (varint_fields Feature_Encoding.TYPE rest)); simpl.
      * destruct (tag =? Feature_Encoding.GEOMETRY) eqn:H3; [done|apply IH].
  - destruct (tag =? Feature_Encoding.ID) eqn:H1; [done|].
    destruct (tag =? Feature_Encoding.TYPE) eqn:H2; [done|].
    destruct (tag =? Feature_Encoding.GEOMETRY) eqn:H3; [done|apply IH].
  - destruct (tag =? Feature_Encoding.ID) eqn:H1; [done|].
    destruct (tag =? Feature_Encoding.TYPE) eqn:H2; [done|].
    destruct (tag =? Feature_Encoding.GEOMETRY) eqn:H3; [|apply IH].
    intros Hrun. apply IH in Hrun as (Hg & Ht).
    cbn [ff_has_geom ff_geom_itr ff_has_geom_type ff_geom_type_enum] in *.
    split; [|done]. rewrite Hg, last_cons.
    by destruct (last (packed_fields Feature_Encoding.GEOMETRY rest)); simpl.
  - destruct (tag =? Feature_Encoding.ID) eqn:H1; [done|].
    destruct (tag =? Feature_Encoding.TYPE) eqn:H2; [done|].
    destruct (tag =? Feature_Encoding.GEOMETRY) eqn:H3; [done|apply IH].
Qed.

Lemma not_valid_messages_Ok layer_features version layer_name split_multi_features
  errors errors' :
  not_valid_messages layer_features version layer_name split_multi_features errors
  = Ok errors' ->
  exists per_feature : list (list visit),
    Forall2 (message_visits version layer_name) layer_features per_feature
    /\ reports split_multi_features (concat per_feature) errors errors'.
Proof.
  revert errors. induction layer_features as [|feature_msg rest IH]; intros errors; simpl.
  { intros [= <-]. exists []. split; [constructor|apply reports_nil]. }
  destruct (read_feature _ _) as [ff|] eqn:Hff; [|done]. simpl.
  apply read_feature_Ok in Hff as [Hgeom Htype]. cbn [ff_has_geom ff_geom_itr
    ff_has_geom_type ff_geom_type_enum] in Hgeom, Htype.
  assert (Hfields :
    (ff_has_geom ff && ff_has_geom_type ff = true
     /\ geometry_field feature_msg = Some (ff_geom_itr ff)
     /\ type_field feature_msg = Some (ff_geom_type_enum ff))
    \/ (ff_has_geom ff && ff_has_geom_type ff = false
        /\ (geometry_field feature_msg = None \/ type_field feature_msg = None))).
  { unfold geometry_field, type_field.
    destruct (last (packed_fields _ _)) as [vs|], (last (varint_fields _ _)) as [v|];
      injection Hgeom as Hg1 Hg2; injection Htype as Ht1 Ht2; rewrite Hg1, Ht1; simpl.
    - left. by rewrite Hg2, Ht2.
    - right. by split; [|right].
    - right. by split; [|left].
    - right. by split; [|left]. }
  destruct Hfields as [(-> & Hg & Ht)|(-> & Hnone)].
  - destruct (decode_geometry _ _ _) as [geom|] eqn:Hdecode; [|done]. simpl.
    destruct (visitor_geom_valid _ _ _ _ _) as [errors1|] eqn:H1; [|done]. simpl.
    intros (per_feature & Hall & Hrep)%IH.
    exists ([mk_visit (mk_feature 1 geom []) layer_name geom] :: per_feature). split.
    + constructor; [|done]. unfold message_visits. rewrite Hg, Ht. by exists geom.
    + apply (reports_app _ [_] _ _ errors1); [by apply reports_visit|done].
  - simpl. intros (per_feature & Hall & Hrep)%IH. exists ([] :: per_feature). split; [|done].
    constructor; [|done]. unfold message_visits.
    destruct Hnone as [->| ->]; [done|]. by destruct (geometry_field feature_msg).
Qed.

Lemma layer_not_valid_Ok layer_msg x y z split_multi_features lat_lon web_merc
  errors errors' :
  layer_not_valid layer_msg x y z errors split_multi_features lat_lon web_merc
  = Ok errors' ->
  exists visits,
    layer_visits x y z lat_lon web_merc layer_msg visits
    /\ reports split_multi_features visits errors errors'.
Proof.
  unfold layer_not_valid, layer_visits. destruct (web_merc || lat_lon).
  - intros H%not_valid_features_Ok. by eexists.
  - destruct (read_layer _ _) as [lf|] eqn:Hlf; [|done]. simpl.
    apply read_layer_Ok in Hlf as (Hf & Hn & Hv). simpl in Hf, Hn, Hv.
    rewrite Hf, Hn, Hv.
    intros (per_feature & Hall & Hrep)%not_valid_messages_Ok.
    exists (concat per_feature). split; [|done]. by exists per_feature.
Qed.

Lemma not_valid_layers_Ok tile_msg v split_multi_features lat_lon web_merc errors errors' :
  not_valid_layers tile_msg v errors split_multi_features lat_lon web_merc = Ok errors' ->
  exists per_layer : list (list visit),
    Forall2 (layer_visits (tile_x v) (tile_y v) (tile_z v) lat_lon web_merc)
      (tile_layers tile_msg) per_layer
    /\ reports split_multi_features (concat per_layer) errors errors'.
Proof.
  revert errors. induction tile_msg as [|f rest IH]; intros errors.
  { simpl. intros [= <-]. exists []. split; [constructor|apply reports_nil]. }
  destruct f as [tag v'|tag s|tag vs|tag layer_msg| |tag']; [..|done|done];
    cbn [not_valid_layers pbf_tag tile_layers get_message];
    (destruct (tag =? Tile_Encoding.LAYERS); [|by apply IH]); try done.
  simpl.
  destruct (layer_not_valid _ _ _ _ _ _ _ _) as [errors1|] eqn:H1; [|done]. simpl.
  apply layer_not_valid_Ok in H1 as (visits1 & Hvisits1 & Hrep1).
  intros (per_layer & Hall & Hrep)%IH. exists (visits1 :: per_layer). split.
  - by constructor.
  - simpl. by apply reports_app with errors1.
Qed.

End validity_properties.

Section validity_report.
Context `{M : mapnik_api}.

(** Without [split_multi_features] a geometry that is not a collection is
    tested as a whole. *)
Lemma offending_whole geom :
  is_collection geom = false ->
  offending false geom = if fails_validity geom then [geom] else [].
Proof.
  unfold offending, fails_validity.
  destruct geom; try done; intros _; simpl;
    by destruct (geometry_is_valid _) as [[] msg] eqn:Hv;
      rewrite ?filter_cons_True, ?filter_cons_False, ?filter_nil by (rewrite Hv; done).
Qed.

Lemma finding_fields f layer_name geom e :
  finding f layer_name geom = Some e ->
  exists feature_str,
    to_geojson (mk_feature (feature_id f) geom (feature_data f)) = Some feature_str
    /\ layer e = layer_name
    /\ message e = (geometry_is_valid geom).2
    /\ geojson e = feature_collection_open +:+ feature_str +:+ feature_collection_close.
Proof.
  unfold finding. destruct (to_geojson _) as [feature_str|]; [|done].
  simpl. intros [= <-]. by exists feature_str.
Qed.

End validity_report.

(** Claim C8 (as amended).  The validity report is exhaustive, not
    fail-fast.  When the call returns, its result is the list, layer after
    layer and feature after feature, of the findings of every feature of
    the tile: every feature message with a geometry and a type of every
    layer message or, with [lat_lon] or [web_merc], every feature the
    datasource of every layer yields.  There is one finding for each tested
    geometry that fails the validity test.  Without [split_multi_features] the tested geometry of a
    feature is its whole geometry, so there is exactly one finding per
    offending feature; with it, each part of a multi line string or multi
    polygon is tested on its own.  Every finding carries the name of the
    layer, the message of the validity test (non-empty when the test never
    gives an empty one) and the feature printed as the only member of a
    FeatureCollection object. *)
Theorem validity_report_exhaustive `{M : mapnik_api} (d : merc_tile)
  (split_multi_features lat_lon web_merc : bool) (findings : list not_valid_feature) :
  vector_tile_not_valid d split_multi_features lat_lon web_merc = Ok findings ->
  exists visits : list visit,
    tile_visits d lat_lon web_merc visits
    /\ findings = flat_map (expected_findings split_multi_features) visits
    /\ (forall v, v ∈ visits ->
          length (expected_findings split_multi_features v)
          = length (offending split_multi_features (visit_geometry v)))
    /\ (split_multi_features = false ->
        forall v, v ∈ visits -> is_collection (visit_geometry v) = false ->
          length (expected_findings split_multi_features v)
          = if fails_validity (visit_geometry v) then 1%nat else 0%nat)
    /\ (forall e, e ∈ findings ->
          exists v g feature_str,
            v ∈ visits
            /\ g ∈ offending split_multi_features (visit_geometry v)
            /\ to_geojson (mk_feature (feature_id (visit_feature v)) g
                             (feature_data (visit_feature v))) = Some feature_str
            /\ layer e = visit_layer v
            /\ message e = (geometry_is_valid g).2
            /\ geojson e
               = feature_collection_open +:+ feature_str +:+ feature_collection_close
            /\ ((forall g', (geometry_is_valid g').1 = false ->
                            string_empty (geometry_is_valid g').2 = false) ->
                string_empty (message e) = false)).
Proof.
  unfold vector_tile_not_valid.
  intros (per_layer & Hvisits & Hfindings & Hlen)%not_valid_layers_Ok.
  simpl in Hfindings. set (visits := concat per_layer) in *.
  exists visits. split; [by exists per_layer|]. split; [done|].
  assert (Hlen' : forall v, v ∈ visits ->
            length (expected_findings split_multi_features v)
            = length (offending split_multi_features (visit_geometry v))).
  { intros v Hv. by eapply Forall_forall in Hlen. }
  split; [done|]. split.
  - intros -> v Hv Hnc. rewrite Hlen' by done. rewrite offending_whole by done.
    by destruct (fails_validity _).
  - intros e He. rewrite Hfindings in He.
    apply list_elem_of_In, in_flat_map in He as (v & Hv%list_elem_of_In & He%list_elem_of_In).
    apply list_elem_of_omap in He as (g & Hg & He).
    destruct (finding_fields _ _ _ _ He) as (feature_str & Hstr & Hlayer & Hmsg & Hjson).
    exists v, g, feature_str. repeat split; try done.
    intros Hmessages. rewrite Hmsg. apply Hmessages.
    unfold offending in Hg. by apply list_elem_of_filter in Hg as [? _].
Qed.

(** Claim C8, as stated, fails: the report can hold more findings than
    the tile has features.  With [split_multi_features] the one feature of
    [two_bowties_tile], a multi polygon of two bowties, yields two. *)
Lemma validity_report_one_finding_per_part :
  ~ (forall (M : mapnik_api) (d : merc_tile) (info : list js_value)
            (findings : list not_valid_feature),
       reportGeometryValiditySync d info = Return findings ->
       (length findings <= tile_feature_count d)%nat).
Proof.
  intros H.
  assert (Hrun : exists e1 e2,
     @reportGeometryValiditySync ref_api examples.two_bowties_tile
       [JsObject [("split_multi_features", JsBoolean true)]] = Return [e1; e2]).
  { eexists _, _. by vm_compute. }
  destruct Hrun as (e1 & e2 & Hrun). apply H in Hrun. vm_compute in Hrun. lia.
Qed.

(** A tile whose single feature is a bowtie polygon yields exactly one
    finding; on this path the feature id of the finding is the constant 1
    the feature is created with, not the id 7 of the message. *)
Lemma validity_report_bowtie :
  exists e : not_valid_feature,
    @reportGeometryValiditySync ref_api examples.bowtie_tile [] = Return [e]
    /\ layer e = "layer"
    /\ message e = "Geometry has invalid self-intersections"
    /\ nv_feature_id e = 1.
Proof. eexists. split; [by vm_compute|]. by vm_compute. Qed.

(** ** The order of the results of a query *)

(** Claim C1 (a defect of the code).  The comparator handed to
    [std::sort] in [_query] is [a > b], so the results come back with the
    farthest first.  On [two_points], the query at (0, 0) with tolerance 5
    returns the point at distance 2 before the point at distance 1: the
    result is not in ascending order of distance. *)
Theorem query_returns_farthest_first :
  @VectorTile.query ref_api examples.two_points examples.query_roads_args
  = Return [examples.far_result; examples.near_result]
  /\ d_lt (qr_distance examples.near_result) (qr_distance examples.far_result) = true
  /\ ~ ascending [examples.far_result; examples.near_result].
Proof.
  split; [by vm_compute|]. split; [by vm_compute|].
  intros H. specialize (H 0%nat 1%nat _ _ (Nat.lt_0_1) eq_refl eq_refl).
  by vm_compute in H.
Qed.

(** ** The theorems at concrete inputs *)

Lemma query_tolerance_monotone_witness :
  exists arr' : list query_result,
    @VectorTile._query ref_api examples.two_points d_zero d_zero (double_of_Z 5) "roads"
    = Ok arr'
    /\ examples.near_result ∈ arr'.
Proof.
  apply (@query_tolerance_monotone ref_api examples.two_points d_zero d_zero
           d_one (double_of_Z 5) "roads" [examples.near_result] examples.near_result).
  - intros hx hy. by eexists.
  - intros ds x y f Hf. exact Hf.
  - vm_compute. reflexivity.
  - vm_compute. reflexivity.
  - apply list_elem_of_here.
Defined.

Lemma queryMany_features_and_hits_witness :
  exists (result : queryMany_result) (hits : list query_hit),
    @VectorTile._queryMany ref_api examples.two_points [mk_lonlat d_zero d_zero]
      (double_of_Z 5) "roads" [] = Ok result
    /\ qm_features result !! 0%nat = Some (feature_record "roads" examples.near_point)
    /\ qm_features result !! 1%nat = Some (feature_record "roads" examples.far_point)
    /\ qm_features result !! 2%nat = None
    /\ qm_hits result !! 0%nat = Some hits
    /\ hits ≡ₚ [mk_query_hit d_one 0; mk_query_hit (double_of_Z 2) 1]
    /\ ascending_hits hits
    /\ qm_hits result !! 1%nat = None.
Proof.
  edestruct (@queryMany_features_and_hits ref_api examples.two_points
               [mk_lonlat d_zero d_zero] (double_of_Z 5) "roads" [])
    as (result & Hrun & Hfeatures & Hhits & Hnone).
  - vm_compute. reflexivity.
  - vm_compute. reflexivity.
  - destruct (Hhits 0%nat _ eq_refl) as (hits & Hperm & Hasc & Hfiled).
    vm_compute in Hperm.
    destruct hits as [|h hits]; [by apply Permutation_nil_l in Hperm|].
    exists result, (h :: hits).
    split; [exact Hrun|].
    split; [rewrite (Hfeatures 0%nat); vm_compute; reflexivity|].
    split; [rewrite (Hfeatures 1%nat); vm_compute; reflexivity|].
    split; [rewrite (Hfeatures 2%nat); vm_compute; reflexivity|].
    split; [exact Hfiled|].
    split; [exact Hperm|].
    split; [exact Hasc|].
    apply Hnone. reflexivity.
Defined.


Lemma info_reports_repeated_layer_names_witness :
  exists (out : VectorTile.info_out) (tile_errors : list string),
    @VectorTile.info ref_api [JsBuffer examples.two_roads_layers] = Return out
    /\ VectorTile.out_errors out = true
    /\ VectorTile.out_tile_errors out = Some tile_errors
    /\ "TILE_REPEATED_LAYER_NAMES" ∈ tile_errors.
Proof.
  apply (@info_reports_repeated_layer_names ref_api examples.two_roads_layers
           [] [] [] [pbf_string 1 "roads"] [pbf_string 1 "roads"] "roads" 1 1).
  - vm_compute. reflexivity.
  - repeat constructor.
  - vm_compute. reflexivity.
  - vm_compute. reflexivity.
  - reflexivity.
Defined.

Lemma validity_report_exhaustive_witness :
  exists (findings : list not_valid_feature) (visits : list visit),
    @vector_tile_not_valid ref_api examples.bowtie_tile false false false = Ok findings
    /\ @tile_visits ref_api examples.bowtie_tile false false visits
    /\ length visits = 1%nat
    /\ findings = flat_map (@expected_findings ref_api false) visits
    /\ length findings = 1%nat.
Proof.
  destruct (@vector_tile_not_valid ref_api examples.bowtie_tile false false false)
    as [findings|what] eqn:Hrun.
  - destruct (@validity_report_exhaustive ref_api examples.bowtie_tile false false false
                findings Hrun) as (visits & Hvisits & Hfindings & _).
    exists findings, visits. split; [reflexivity|]. split; [exact Hvisits|].
    split; [|split; [exact Hfindings|]].
    + destruct Hvisits as (per_layer & Hall & ->).
      unfold examples.bowtie_tile in Hall.
      cbn [tile_buffer tile_x tile_y tile_z tile_layers Tile_Encoding.LAYERS Z.eqb Pos.eqb]
        in Hall.
      inversion Hall as [|layer_msg visits1 ? ? Hlayer Hrest]; subst.
      inversion Hrest; subst.
      unfold layer_visits in Hlayer. cbn [orb] in Hlayer.
      destruct Hlayer as (per_feature & Hfeatures & ->).
      set (messages := feature_messages _) in Hfeatures.
      vm_compute in messages. subst messages.
      inversion Hfeatures as [|feature_msg visits2 ? ? Hfeature Hrest']; subst.
      inversion Hrest'; subst.
      unfold message_visits in Hfeature.
      set (g := geometry_field _) in Hfeature. vm_compute in g. subst g.
      set (ty := type_field _) in Hfeature. vm_compute in ty. subst ty.
      destruct Hfeature as (geom & _ & ->). reflexivity.
    + vm_compute in Hrun. injection Hrun as <-. reflexivity.
  - vm_compute in Hrun. discriminate Hrun.
Defined.

Lemma setData_clears_before_merge_witness :
  @VectorTile.setDataSync ref_api examples.two_points [JsBuffer examples.not_a_tile]
  = (Throw Error "Vector Tile Buffer contains invalid tag", clear examples.two_points)
  /\ @VectorTile.setData ref_api examples.two_points
       [JsBuffer examples.not_a_tile; JsFunction]
     = (Callback (Raise "Vector Tile Buffer contains invalid tag"),
        clear examples.two_points)
  /\ @VectorTile.setDataSync ref_api (clear examples.two_points)
       [JsBuffer examples.not_a_tile]
     = @VectorTile.setDataSync ref_api examples.two_points [JsBuffer examples.not_a_tile].
Proof.
  destruct (@setData_clears_before_merge ref_api examples.two_points examples.not_a_tile
              [] false false) as (Hsync & _ & Hfree); [discriminate|reflexivity|].
  destruct (@setData_clears_before_merge ref_api examples.two_points examples.not_a_tile
              [JsFunction] false false) as (_ & Hasync & _); [discriminate|reflexivity|].
  split; [|split].
  - etransitivity; [exact Hsync|]. vm_compute. reflexivity.
  - etransitivity; [exact Hasync|]. vm_compute. reflexivity.
  - apply (Hfree (clear examples.two_points)). reflexivity.
Defined.

(** * Further properties *)

(** ** The closest part of a multi geometry *)

Lemma d_le_refl a : is_nan a = false -> d_le a a = true.
Proof.
  unfold d_le, SFleb, SFcompare.
  destruct a as [[]|[]| |[] ma ea]; simpl; try done; intros _;
    rewrite ?Z.compare_refl, ?Pos.compare_cont_refl; simpl;
    by rewrite ?Pos.compare_refl.
Qed.

Lemma d_le_nlt a b : d_le a b = true -> d_lt b a = false.
Proof.
  unfold d_lt, d_le, SFltb, SFleb, SFcompare.
  destruct a as [[]|[]| |[] ma ea], b as [[]|[]| |[] mb eb];
    simpl; try done; intros H; order_cases; simpl in *; try done; try lia.
Qed.

Lemma keep_closer_eta p2p p2p_sub :
  detail.keep_closer p2p p2p_sub = p2p_sub \/ detail.keep_closer p2p p2p_sub = p2p.
Proof.
  unfold detail.keep_closer. destruct (_ && _); [left|by right]. by destruct p2p_sub.
Qed.

Section closest_part.
Context {A : Type} (sub : A -> detail.p2p_result).

Lemma closest_so_far_step seen p2p a :
  closest_so_far sub seen p2p ->
  closest_so_far sub (seen ++ [a]) (detail.keep_closer p2p (sub a)).
Proof.
  unfold closest_so_far, detail.keep_closer, p2p_is_hit.
  intros [[-> Hnone]|(Hhit & (a0 & Ha0 & Hsub) & Hmin)].
  - destruct (d_ge (detail.distance (sub a)) d_zero) eqn:Ha; simpl.
    + right. destruct (sub a) as [dist hx hy] eqn:Hs. simpl in *.
      split; [done|]. split.
      { exists a. split; [set_solver|done]. }
      apply Forall_app. split.
      * eapply Forall_impl; [exact Hnone|]. simpl. intros b Hb Hb'. congruence.
      * constructor; [|constructor]. rewrite Hs. simpl. intros _.
        apply d_le_refl. by apply d_le_not_nan in Ha as [_ ?].
    + left. split; [done|]. apply Forall_app. split; [done|]. by repeat constructor.
  - rewrite (d_le_nlt _ _ Hhit). simpl.
    destruct (d_ge (detail.distance (sub a)) d_zero) eqn:Ha; simpl.
    + destruct (d_lt (detail.distance (sub a)) (detail.distance p2p)) eqn:Hlt.
      * right. destruct (sub a) as [dist hx hy] eqn:Hs. simpl in *.
        split; [done|]. split.
        { exists a. split; [set_solver|done]. }
        apply Forall_app. split.
        -- eapply Forall_impl; [exact Hmin|]. simpl. intros b Hb Hb'.
           eapply d_le_trans; [by apply d_lt_le|by apply Hb].
        -- constructor; [|constructor]. rewrite Hs. simpl. intros _.
           apply d_le_refl. by apply d_le_not_nan in Ha as [_ ?].
      * right. split; [done|]. split.
        { exists a0. split; [set_solver|done]. }
        apply Forall_app. split; [done|]. constructor; [|constructor]. intros _.
        apply d_nlt_le; [|by apply d_le_not_nan in Hhit as [_ ?]|done].
        by apply d_le_not_nan in Ha as [_ ?].
    + right. split; [done|]. split.
      { exists a0. split; [set_solver|done]. }
      apply Forall_app. split; [done|]. constructor; [|constructor]. congruence.
Qed.

Lemma closest_so_far_fold l seen p2p :
  closest_so_far sub seen p2p ->
  closest_so_far sub (seen ++ l)
    (fold_left (fun p2p a => detail.keep_closer p2p (sub a)) l p2p).
Proof.
  revert seen p2p. induction l as [|a l IH]; intros seen p2p H; simpl.
  { by rewrite app_nil_r. }
  rewrite (assoc_L (++) seen [a] l : seen ++ a :: l = (seen ++ [a]) ++ l).
  by apply IH, closest_so_far_step.
Qed.

End closest_part.

Lemma closest_so_far_fmap {A B} (f : A -> B) (sub : B -> detail.p2p_result) l p2p :
  closest_so_far (fun a => sub (f a)) l p2p -> closest_so_far sub (f <$> l) p2p.
Proof.
  intros [[-> H]|(Hhit & (a & Ha & Hsub) & Hmin)]; [left|right].
  - split; [done|]. by apply Forall_fmap.
  - split; [done|]. split; [|by apply Forall_fmap].
    exists (f a). split; [|done]. apply list_elem_of_fmap. by exists a.
Qed.

Lemma closest_so_far_nil {A} (sub : A -> detail.p2p_result) :
  closest_so_far sub [] detail.p2p_no_hit.
Proof. left. split; [done|constructor]. Qed.

Lemma p2p_distance_closest_so_far `{M : mapnik_api} (x y : double) (geom : geometry) :
  is_multi_geometry geom = true ->
  closest_so_far (fun g => path_to_point_distance g x y) (sub_geometries geom)
    (path_to_point_distance geom x y).
Proof.
  unfold path_to_point_distance.
  destruct geom as [|pt|line|poly|pts|lines|polys|geoms]; try done; intros _; simpl.
  - apply closest_so_far_fmap.
    apply (closest_so_far_fold (detail.p2p_point x y) pts []), closest_so_far_nil.
  - apply closest_so_far_fmap.
    apply (closest_so_far_fold (detail.p2p_line_string x y) lines []), closest_so_far_nil.
  - apply closest_so_far_fmap.
    apply (closest_so_far_fold (detail.p2p_polygon x y) polys []), closest_so_far_nil.
  - apply (closest_so_far_fold (detail.p2p_distance x y) geoms []), closest_so_far_nil.
Qed.

(** X1.  For a multi geometry or a collection, the distance computation
    returns the closest of its parts: when the result is a hit, it is the
    result of one of the parts and no part that is a hit is closer; when it
    is not, it is the default result and no part is a hit. *)
Theorem p2p_distance_closest_part `{M : mapnik_api} (x y : double) (geom : geometry) :
  is_multi_geometry geom = true ->
  let part := fun g => path_to_point_distance g x y in
  let r := path_to_point_distance geom x y in
  (p2p_is_hit r = true ->
   (exists g, g ∈ sub_geometries geom /\ part g = r)
   /\ Forall (fun g => p2p_is_hit (part g) = true ->
                       d_le (detail.distance r) (detail.distance (part g)) = true)
        (sub_geometries geom))
  /\ (p2p_is_hit r = false ->
      r = detail.p2p_no_hit
      /\ Forall (fun g => p2p_is_hit (part g) = false) (sub_geometries geom)).
Proof.
  intros Hmulti part r.
  destruct (p2p_distance_closest_so_far x y geom Hmulti)
    as [[Hr Hnone]|(Hhit & Hfrom & Hmin)]; fold r in Hr || fold r in Hhit, Hfrom, Hmin.
  - split; [|done]. rewrite Hr. discriminate.
  - split; [done|]. congruence.
Qed.

Lemma p2p_distance_closest_part_witness :
  let part := fun g => @path_to_point_distance ref_api g d_zero d_zero in
  let r := @path_to_point_distance ref_api samples.two_points_geometry d_zero d_zero in
  (p2p_is_hit r = true ->
   (exists g, g ∈ sub_geometries samples.two_points_geometry /\ part g = r)
   /\ Forall (fun g => p2p_is_hit (part g) = true ->
                       d_le (detail.distance r) (detail.distance (part g)) = true)
        (sub_geometries samples.two_points_geometry))
  /\ (p2p_is_hit r = false ->
      r = detail.p2p_no_hit
      /\ Forall (fun g => p2p_is_hit (part g) = false)
           (sub_geometries samples.two_points_geometry)).
Proof.
  apply (@p2p_distance_closest_part ref_api d_zero d_zero samples.two_points_geometry).
  reflexivity.
Defined.

(** ** The hit on a line string *)

Lemma line_string_loop_fold `{M : mapnik_api} (x y : double) (geom : line_string)
  (p2p : detail.p2p_result) :
  detail.line_string_loop x y geom p2p
  = fold_left (fun p2p s => detail.keep_closer p2p (segment_result x y s)) (segments geom) p2p.
Proof.
  revert p2p. induction geom as [|pt0 geom IH]; intros p2p; [done|].
  destruct geom as [|pt1 geom]; [done|].
  change (detail.line_string_loop x y (pt0 :: pt1 :: geom) p2p)
    with (detail.line_string_loop x y (pt1 :: geom)
            (detail.keep_closer p2p (segment_result x y (pt0, pt1)))).
  by rewrite IH.
Qed.

(** X2.  The line string case returns the closest of the segments of the
    line: when the result is a hit, its distance is the distance to one of
    the segments, the reported position is the first end point of that
    segment, and no segment that is a hit is closer; when it is not, it is
    the default result.  A line string with fewer than two points has no
    segment and is never a hit. *)
Theorem p2p_line_string_closest_segment `{M : mapnik_api} (x y : double)
  (geom : line_string) :
  let r := detail.p2p_line_string x y geom in
  (p2p_is_hit r = true ->
   (exists s, s ∈ segments geom /\ r = segment_result x y s)
   /\ Forall (fun s => p2p_is_hit (segment_result x y s) = true ->
                       d_le (detail.distance r) (detail.distance (segment_result x y s))
                       = true)
        (segments geom))
  /\ (p2p_is_hit r = false -> r = detail.p2p_no_hit)
  /\ ((length geom < 2)%nat -> r = detail.p2p_no_hit).
Proof.
  intros r.
  assert (H : closest_so_far (segment_result x y) (segments geom) r).
  { subst r. unfold detail.p2p_line_string. rewrite line_string_loop_fold.
    apply (closest_so_far_fold (segment_result x y) (segments geom) []),
      closest_so_far_nil. }
  split; [|split].
  - intros Hhit. destruct H as [[Hr _]|(_ & (s & Hs & Hsub) & Hmin)].
    + by rewrite Hr in Hhit.
    + split; [by exists s|done].
  - intros Hhit. destruct H as [[Hr _]|(Hhit' & _)]; [done|congruence].
  - intros Hlen. subst r. by destruct geom as [|pt0 [|pt1 geom]]; simpl in *; try lia.
Qed.

(** ** Polygons: containment is binary *)

Lemma p2p_polygon_binary `{M : mapnik_api} (x y : double) (poly : polygon) :
  detail.p2p_polygon x y poly = p2p_inside \/ detail.p2p_polygon x y poly = detail.p2p_no_hit.
Proof.
  unfold detail.p2p_polygon. destruct (detail.polygon_loop _ _ _ _ _) as [[]|]; auto.
Qed.

(** X3.  For a polygon and for a multi polygon the distance computation
    has two results only: distance 0 with the position (0, 0), or the
    default result (distance -1); the tolerance plays no part. *)
Theorem p2p_polygon_distance_binary `{M : mapnik_api} (x y : double) :
  (forall poly : polygon,
     path_to_point_distance (geom_polygon poly) x y = p2p_inside
     \/ path_to_point_distance (geom_polygon poly) x y = detail.p2p_no_hit)
  /\ (forall polys : list polygon,
        (path_to_point_distance (geom_multi_polygon polys) x y = p2p_inside
         /\ exists poly, poly ∈ polys /\ detail.p2p_polygon x y poly = p2p_inside)
        \/ (path_to_point_distance (geom_multi_polygon polys) x y = detail.p2p_no_hit
            /\ Forall (fun poly => detail.p2p_polygon x y poly = detail.p2p_no_hit) polys)).
Proof.
  split; [intros poly; apply p2p_polygon_binary|]. intros polys.
  unfold path_to_point_distance. simpl. unfold detail.p2p_multi_polygon.
  destruct (closest_so_far_fold (detail.p2p_polygon x y) polys [] detail.p2p_no_hit
              (closest_so_far_nil _)) as [[Hr Hnone]|(Hhit & (poly & Hpoly & Hsub) & _)].
  - right. split; [done|]. eapply Forall_impl; [exact Hnone|]. simpl.
    intros poly Hp. destruct (p2p_polygon_binary x y poly) as [H|H]; [|done].
    by rewrite H in Hp.
  - left. simpl in *. rewrite <- Hsub in Hhit |- *.
    destruct (p2p_polygon_binary x y poly) as [H|H]; [|by rewrite H in Hhit].
    split; [done|]. by exists poly.
Qed.

(** ** What a query returns *)

Section query_results.
Context `{M : mapnik_api}.

Lemma hit_of_layer layer x y tolerance f r :
  hit_of layer x y tolerance f = Some r -> qr_layer r = layer /\ qr_feature r = f.
Proof.
  unfold hit_of. destruct (tr_backward _ _) as [[hx hy]|]; [|done].
  destruct (is_hit _ _); [|done]. by intros [= <-].
Qed.

Lemma query_features_layer fs x y tolerance layer arr arr' (P : query_result -> Prop) :
  VectorTile.query_features fs x y tolerance layer arr = Ok arr' ->
  (forall r, qr_layer r = layer -> qr_feature r ∈ fs -> P r) ->
  Forall P arr -> Forall P arr'.
Proof.
  intros H HP Harr. apply query_features_Ok in H as ->.
  apply Forall_app. split; [done|]. apply Forall_forall. intros r Hr.
  apply list_elem_of_omap in Hr as (f & Hf & Hr). apply hit_of_layer in Hr as [? ?].
  apply HP; [done|]. by subst.
Qed.

End query_results.

(** X4.  Every result of a query that returns is a hit: its distance is
    at least 0 and at most the tolerance.  So a query with a negative or
    NaN tolerance, which the binding does not reject, has no result.  When
    a layer is named, every result carries that layer name. *)
Theorem query_results_within_tolerance `{M : mapnik_api} (d : merc_tile)
  (lon lat tolerance : double) (layer_name : string) (arr : list query_result) :
  VectorTile._query d lon lat tolerance layer_name = Ok arr ->
  Forall (fun r => d_le d_zero (qr_distance r) = true
                   /\ d_le (qr_distance r) tolerance = true) arr
  /\ (d_le d_zero tolerance = false -> arr = [])
  /\ (string_empty layer_name = false -> Forall (fun r => qr_layer r = layer_name) arr).
Proof.
  intros Hq.
  assert (Hhits : Forall (fun r => d_le d_zero (qr_distance r) = true
                                   /\ d_le (qr_distance r) tolerance = true) arr).
  { eapply Forall_impl; [exact (_query_hits _ _ _ _ _ _ Hq)|]. simpl.
    intros r Hr. unfold is_hit, d_ge in Hr. by apply andb_prop in Hr. }
  split; [done|]. split.
  - intros Htol. destruct arr as [|r arr]; [done|].
    apply Forall_cons in Hhits as [[H0 H1] _].
    by rewrite (d_le_trans _ _ _ H0 H1) in Htol.
  - intros Hname. revert Hq. unfold VectorTile._query.
    destruct (is_empty d); [by intros [= <-]|].
    destruct (tr_forward lon lat) as [[x y]|]; [|done].
    rewrite Hname. simpl.
    destruct (layer_reader d layer_name) as [layer_msg|]; simpl.
    + destruct (VectorTile.query_features _ _ _ _ _ _) as [arr0|] eqn:H0; [|done].
      simpl. intros [= <-]. rewrite std_sort_Permutation.
      eapply (query_features_layer _ _ _ _ _ _ _ _ H0); [|constructor]. by intros r.
    + by intros [= <-].
Qed.

Lemma query_results_within_tolerance_witness :
  Forall (fun r => d_le d_zero (qr_distance r) = true
                   /\ d_le (qr_distance r) (double_of_Z 5) = true)
    [examples.far_result; examples.near_result]
  /\ (d_le d_zero (double_of_Z 5) = false -> [examples.far_result; examples.near_result] = [])
  /\ (string_empty "roads" = false ->
      Forall (fun r => qr_layer r = "roads") [examples.far_result; examples.near_result]).
Proof.
  apply (@query_results_within_tolerance ref_api examples.two_points d_zero d_zero
           (double_of_Z 5) "roads").
  vm_compute. reflexivity.
Defined.

(** ** The two maps of a batch query *)

Section queryMany_maps.
Context `{M : mapnik_api}.

Lemma map_insert_new_mono {V} (k : nat) (v : V) (m : gmap nat V) (i : nat) :
  is_Some (m !! i) -> is_Some (VectorTile.map_insert_new k v m !! i).
Proof.
  unfold VectorTile.map_insert_new. destruct (m !! k) eqn:Hk; [done|].
  intros Hi. destruct (decide (i = k)) as [->|]; [by rewrite Hk in Hi|].
  by rewrite lookup_insert_ne.
Qed.

Lemma map_insert_new_self {V} (k : nat) (v : V) (m : gmap nat V) :
  is_Some (VectorTile.map_insert_new k v m !! k).
Proof.
  unfold VectorTile.map_insert_new. destruct (m !! k) eqn:Hk; [by rewrite Hk|].
  by rewrite lookup_insert_eq.
Qed.

Lemma scan_points_refer f layer tolerance points p n st :
  (p + length points <= n)%nat ->
  hits_refer_to_features n (VectorTile.scan_features st) (VectorTile.scan_hits st) ->
  let st' := VectorTile.scan_points f layer tolerance points p st in
  hits_refer_to_features n (VectorTile.scan_features st') (VectorTile.scan_hits st').
Proof.
  revert p st. induction points as [|pt points IH]; intros p st Hn Hst; [done|].
  cbn [VectorTile.scan_points]. simpl in Hn.
  destruct (_ && _); [|apply IH; [lia|done]].
  apply IH; [lia|]. cbn [VectorTile.scan_features VectorTile.scan_hits VectorTile.scan_idx].
  set (hit := mk_query_hit _ _).
  intros q l Hq.
  assert (Hold : forall h l0, VectorTile.scan_hits st !! q = Some l0 -> h ∈ l0 ->
                   is_Some (VectorTile.map_insert_new (VectorTile.scan_idx st)
                              (mk_query_result layer d_zero d_zero d_zero f)
                              (VectorTile.scan_features st) !! hit_feature_id h)).
  { intros h l0 Hl0 Hh. apply map_insert_new_mono. by eapply Hst. }
  destruct (decide (q = p)) as [->|Hne].
  - destruct (VectorTile.scan_hits st !! p) as [point_hits|] eqn:Hp;
      rewrite lookup_insert_eq in Hq; injection Hq as <-.
    + split; [lia|]. split; [by destruct point_hits|].
      intros h [Hh| ->%list_elem_of_singleton]%elem_of_app.
      * by eapply Hold.
      * apply map_insert_new_self.
    + split; [lia|]. split; [done|].
      intros h ->%list_elem_of_singleton. apply map_insert_new_self.
  - assert (Hq' : VectorTile.scan_hits st !! q = Some l).
    { destruct (VectorTile.scan_hits st !! p); by rewrite lookup_insert_ne in Hq. }
    destruct (Hst q l Hq') as (? & ? & ?). split; [done|]. split; [done|].
    intros h Hh. by eapply Hold.
Qed.

Lemma scan_features_loop_refer fs layer tolerance points st :
  hits_refer_to_features (length points) (VectorTile.scan_features st)
    (VectorTile.scan_hits st) ->
  let st' := VectorTile.scan_features_loop fs layer tolerance points st in
  hits_refer_to_features (length points) (VectorTile.scan_features st')
    (VectorTile.scan_hits st').
Proof.
  revert st. induction fs as [|f fs IH]; intros st Hst; [done|].
  cbn [VectorTile.scan_features_loop]. apply IH.
  cbn [VectorTile.scan_features VectorTile.scan_hits].
  by apply (scan_points_refer f layer tolerance points 0 (length points)).
Qed.

End queryMany_maps.

(** X5.  In the result of a batch query every list of hits is filed under
    the index of one of the query points and is not empty, and every hit
    in it is within the tolerance and names, by its feature id, an entry of
    the features map. *)
Theorem queryMany_hits_refer_to_features `{M : mapnik_api} (d : merc_tile)
  (query : list query_lonlat) (tolerance : double) (layer_name : string)
  (fields : list string) (result : queryMany_result) :
  VectorTile._queryMany d query tolerance layer_name fields = Ok result ->
  forall (p : nat) (hits : list query_hit),
    qm_hits result !! p = Some hits ->
    (p < length query)%nat /\ hits <> []
    /\ forall h, h ∈ hits ->
         is_Some (qm_features result !! hit_feature_id h)
         /\ is_hit (hit_distance h) tolerance = true.
Proof.
  unfold VectorTile._queryMany.
  destruct (layer_reader d layer_name) as [layer_msg|]; [|done].
  destruct (VectorTile.reproject_points query box2d_init []) as [[bbox points]|] eqn:Hpts;
    [|done].
  simpl. intros [= <-] p hits Hp. simpl in Hp.
  apply reproject_points_Ok in Hpts as (new & -> & Hnew & _). simpl in *.
  apply Forall2_length in Hnew.
  set (st := VectorTile.scan_features_loop _ _ _ _ _) in *.
  rewrite lookup_fmap in Hp.
  destruct (VectorTile.scan_hits st !! p) as [l|] eqn:Hl; [|done]. injection Hp as <-.
  assert (Hrefer : hits_refer_to_features (length new) (VectorTile.scan_features st)
                     (VectorTile.scan_hits st)).
  { apply scan_features_loop_refer. intros q l0 Hq. simpl in Hq. by rewrite lookup_empty in Hq. }
  assert (Hok : hits_ok tolerance (VectorTile.scan_hits st)).
  { apply scan_features_loop_hits. intros q l0 Hq. simpl in Hq. by rewrite lookup_empty in Hq. }
  destruct (Hrefer p l Hl) as (Hlt & Hne & Hfeat).
  split; [lia|]. split.
  { intros Hnil. apply Hne. apply Permutation_nil_r.
    rewrite <- Hnil. symmetry. apply std_sort_Permutation. }
  intros h Hh. rewrite std_sort_Permutation in Hh. split; [by apply Hfeat|].
  specialize (Hok p l Hl). rewrite Forall_forall in Hok. by apply Hok.
Qed.

Lemma queryMany_hits_refer_to_features_witness :
  match @VectorTile._queryMany ref_api examples.two_points [mk_lonlat d_zero d_zero]
          (double_of_Z 5) "roads" [] with
  | Ok result =>
      forall (p : nat) (hits : list query_hit),
        qm_hits result !! p = Some hits ->
        (p < length [mk_lonlat d_zero d_zero])%nat /\ hits <> []
        /\ forall h, h ∈ hits ->
             is_Some (qm_features result !! hit_feature_id h)
             /\ is_hit (hit_distance h) (double_of_Z 5) = true
  | Raise _ => False
  end.
Proof.
  destruct (@VectorTile._queryMany ref_api examples.two_points [mk_lonlat d_zero d_zero]
              (double_of_Z 5) "roads" []) as [result|what] eqn:Hrun.
  - exact (@queryMany_hits_refer_to_features ref_api examples.two_points
             [mk_lonlat d_zero d_zero] (double_of_Z 5) "roads" [] result Hrun).
  - vm_compute in Hrun. discriminate Hrun.
Defined.

(** ** The address of a new tile *)

(** X6.  A tile the constructor creates has an address inside the grid of
    its zoom level, [0 <= x, y < 2^z] with [z >= 0], a positive tile size,
    and no layer. *)
Theorem New_address_in_range (info : list js_value) (d : merc_tile) :
  VectorTile.New true info = Return (VectorTile.Construct d) ->
  0 <= tile_z d
  /\ 0 <= tile_x d < 2 ^ tile_z d
  /\ 0 <= tile_y d < 2 ^ tile_z d
  /\ 0 < tile_size d
  /\ is_empty d = true.
Proof.
  unfold VectorTile.New. simpl.
  destruct (IsExternal (arg info 0)); [done|].
  destruct (length info <? 3)%nat; [done|].
  destruct (_ || _ || _); [done|].
  set (z := Int32Value (DoubleValue (arg info 0))).
  set (x := Int32Value (DoubleValue (arg info 1))).
  set (y := Int32Value (DoubleValue (arg info 2))).
  destruct ((z <? 0) || (x <? 0) || (y <? 0)) eqn:Hneg; [done|].
  apply orb_false_elim in Hneg as [[Hz Hx]%orb_false_elim Hy].
  apply Z.ltb_ge in Hz, Hx, Hy.
  destruct (x >=? VectorTile.max_at_zoom z) eqn:Hxmax; [done|].
  destruct (y >=? VectorTile.max_at_zoom z) eqn:Hymax; [done|].
  destruct (VectorTile.New_sizes info) as [[tile_size buffer_size]|] eqn:Hsizes; [|done].
  destruct (_ <=? 0); [done|]. intros [= <-]. simpl.
  apply New_sizes_range in Hsizes as [Hsize _].
  rewrite Z.geb_leb in Hxmax, Hymax. apply Z.leb_gt in Hxmax, Hymax.
  assert (Hgrid : x < 2 ^ z /\ y < 2 ^ z).
  { revert Hxmax Hymax. unfold VectorTile.max_at_zoom, INT64_MIN.
    destruct (z <? 63); lia. }
  repeat split; try lia; done.
Qed.

Lemma New_address_in_range_witness :
  0 <= tile_z examples.narrow_buffer_tile
  /\ 0 <= tile_x examples.narrow_buffer_tile < 2 ^ tile_z examples.narrow_buffer_tile
  /\ 0 <= tile_y examples.narrow_buffer_tile < 2 ^ tile_z examples.narrow_buffer_tile
  /\ 0 < tile_size examples.narrow_buffer_tile
  /\ is_empty examples.narrow_buffer_tile = true.
Proof.
  apply (New_address_in_range examples.narrow_buffer_args). vm_compute. reflexivity.
Defined.

(** ** The options of the two entry points of [composite] *)

Section composite_options_agree.
Context `{M : mapnik_api}.

Lemma ranged_option_change options key msg1 msg2 (p1 p2 : double -> bool) r1 r2 default v :
  VectorTile.ranged_option options key msg1 p1 r1 default = Accept v ->
  (p1 v = false -> p2 v = false) ->
  VectorTile.ranged_option options key msg2 p2 r2 default = Accept v.
Proof.
  unfold VectorTile.ranged_option. destruct (Has options key); [|done].
  destruct (negb _); [done|]. destruct (p1 _) eqn:Hp1; [done|].
  intros [= <-] Hp. by rewrite Hp.
Qed.

Lemma boolean_option_change options key k1 k2 msg1 msg2 default v :
  boolean_option options key k1 msg1 default = Accept v ->
  boolean_option options key k2 msg2 default = Accept v.
Proof.
  unfold boolean_option. destruct (Has options key); [|done]. by destruct (negb _).
Qed.

Lemma threading_mode_option_change options msg1 msg2 v :
  VectorTile.threading_mode_option options msg1 = Accept v ->
  VectorTile.threading_mode_option options msg2 = Accept v.
Proof.
  unfold VectorTile.threading_mode_option. destruct (Has options _); [|done].
  destruct (negb (IsNumber _)); [done|]. by destruct (_ && _).
Qed.

Lemma d_nle_nlt a b : d_le a b = false -> d_lt a b = false.
Proof.
  intros H. destruct (d_lt a b) eqn:Hlt; [|done]. by rewrite (d_lt_le _ _ Hlt) in H.
Qed.

Lemma composite_options_sync_async options c :
  VectorTile.compositeSync_options options = Accept c ->
  VectorTile.composite_options_async options = Accept c.
Proof.
  unfold VectorTile.compositeSync_options, VectorTile.composite_options_async.
  intros H. bind_inv H. injection H as <-.
  rewrite (ranged_option_change _ _ _ _ _ _ _ _ _ _ E (fun H => H)),
    (boolean_option_change _ _ _ _ _ _ _ _ E1),
    (boolean_option_change _ _ _ _ _ _ _ _ E2),
    (threading_mode_option_change _ _ _ _ E4),
    (ranged_option_change _ _ _ _ _ _ _ _ _ _ E5 (d_nle_nlt _ _)),
    (ranged_option_change _ _ _ _ _ _ _ _ _ _ E6 (fun H => H)).
  reflexivity.
Qed.

Lemma composite_options_async_sync options c :
  VectorTile.composite_options_async options = Accept c ->
  d_le (scale_factor c) d_zero = false ->
  VectorTile.compositeSync_options options = Accept c.
Proof.
  unfold VectorTile.compositeSync_options, VectorTile.composite_options_async.
  intros H. bind_inv H. injection H as <-. simpl. intros Hscale.
  rewrite (ranged_option_change _ _ _ _ _ _ _ _ _ _ E (fun H => H)),
    (boolean_option_change _ _ _ _ _ _ _ _ E0),
    (boolean_option_change _ _ _ _ _ _ _ _ E1),
    (threading_mode_option_change _ _ _ _ E3),
    (ranged_option_change _ _ _ _ _ _ _ _ _ _ E5 (fun _ => Hscale)),
    (ranged_option_change _ _ _ _ _ _ _ _ _ _ E6 (fun H => H)).
  reflexivity.
Qed.

End composite_options_agree.

(** X7.  The synchronous and the asynchronous entry point of [composite]
    read an options object the same way, up to the text of the messages
    and one bound: what [compositeSync] accepts, [composite] accepts with
    the same values; and what [composite] accepts with a scale factor that
    is not less than or equal to zero, [compositeSync] accepts with the same
    values. *)
Theorem composite_options_agree `{M : mapnik_api} (options : js_value)
  (c : composite_options) :
  (VectorTile.compositeSync_options options = Accept c ->
   VectorTile.composite_options_async options = Accept c)
  /\ (VectorTile.composite_options_async options = Accept c ->
      d_le (scale_factor c) d_zero = false ->
      VectorTile.compositeSync_options options = Accept c).
Proof.
  split; [apply composite_options_sync_async|apply composite_options_async_sync].
Qed.

(** ** Sources of [composite] that are not tiles *)

Section composite_sources.
Context `{M : mapnik_api}.

Lemma unwrap_tiles_Reject vtiles v :
  v ∈ vtiles -> (forall vt, v <> JsVectorTile vt) ->
  exists k msg, VectorTile.unwrap_tiles vtiles = Reject k msg.
Proof.
  intros Hv Hnot. induction vtiles as [|val vtiles IH]; [by apply elem_of_nil in Hv|].
  apply elem_of_cons in Hv as [<-|Hv].
  - destruct v; simpl; try by eexists _, _. by destruct (Hnot tile).
  - destruct (IH Hv) as (k & msg & Hrest).
    destruct val; simpl; try by eexists _, _. rewrite Hrest. simpl. by eexists _, _.
Qed.

Lemma compositeSync_args_Reject info v :
  v ∈ ArrayItems (arg info 0) -> (forall vt, v <> JsVectorTile vt) ->
  exists k msg, VectorTile.compositeSync_args info = Reject k msg.
Proof.
  intros Hv Hnot. unfold VectorTile.compositeSync_args.
  destruct (_ || _); [by eexists _, _|]. destruct (_ <? _)%nat; [by eexists _, _|].
  destruct (unwrap_tiles_Reject _ _ Hv Hnot) as (k & msg & ->).
  match goal with |- context [mbind _ ?m] => destruct m end; simpl; by eexists _, _.
Qed.

Lemma composite_args_Reject info v :
  v ∈ ArrayItems (arg info 0) -> (forall vt, v <> JsVectorTile vt) ->
  exists k msg, VectorTile.composite_args info = Reject k msg.
Proof.
  intros Hv Hnot. unfold VectorTile.composite_args.
  destruct (negb _); [by eexists _, _|]. destruct (_ <? _)%nat; [by eexists _, _|].
  destruct (unwrap_tiles_Reject _ _ Hv Hnot) as (k & msg & ->).
  match goal with |- context [mbind _ ?m] => destruct m end; simpl; by eexists _, _.
Qed.

End composite_sources.

(** X8.  When the array of sources holds a value that is not a
    [VectorTile], both entry points of [composite] throw before any
    compositing and leave the target as it was, whatever the options and
    the other sources are. *)
Theorem composite_rejects_non_tiles `{M : mapnik_api} (target : merc_tile)
  (info : list js_value) (v : js_value) :
  v ∈ ArrayItems (arg info 0) ->
  (forall vt, v <> JsVectorTile vt) ->
  (exists k msg, VectorTile.compositeSync target info = (Throw k msg, target))
  /\ (exists k msg, VectorTile.composite target info = (Throw k msg, target)).
Proof.
  intros Hv Hnot.
  assert (Hsync : exists k msg,
             VectorTile._compositeSync target info = (Throw k msg, target)).
  { unfold VectorTile._compositeSync.
    destruct (compositeSync_args_Reject info v Hv Hnot) as (k & msg & ->).
    by eexists _, _. }
  split; [done|]. unfold VectorTile.composite. destruct (_ || _); [done|].
  destruct (composite_args_Reject info v Hv Hnot) as (k & msg & ->). by eexists _, _.
Qed.

Lemma composite_rejects_non_tiles_witness :
  (exists k msg,
     @VectorTile.compositeSync ref_api examples.empty_tile
       [JsArray [JsVectorTile examples.two_points; JsNull]]
     = (Throw k msg, examples.empty_tile))
  /\ (exists k msg,
        @VectorTile.composite ref_api examples.empty_tile
          [JsArray [JsVectorTile examples.two_points; JsNull]]
        = (Throw k msg, examples.empty_tile)).
Proof.
  apply (@composite_rejects_non_tiles ref_api examples.empty_tile
           [JsArray [JsVectorTile examples.two_points; JsNull]] JsNull).
  - vm_compute. apply list_elem_of_further, list_elem_of_here.
  - intros vt. discriminate.
Defined.

(** ** The [errors] flag of [info] *)

Section info_flag.
Context `{M : mapnik_api}.

Lemma info_layer_flag layer_view st st' :
  VectorTile.info_layer layer_view st = Ok st' ->
  (VectorTile.has_errors st = true
   <-> Exists (fun l => is_Some (VectorTile.li_errors l)) (VectorTile.layers st)) ->
  (VectorTile.has_errors st' = true
   <-> Exists (fun l => is_Some (VectorTile.li_errors l)) (VectorTile.layers st')).
Proof.
  unfold VectorTile.info_layer.
  destruct (get_layer_name_and_version layer_view) as [[layer_name layer_version]|]; [|done].
  simpl. destruct (layer_is_valid layer_view) as [[found counts]|]; [|done]. simpl.
  intros [= <-] Hst. simpl. rewrite Exists_app, Exists_cons, Exists_nil. simpl.
  destruct (bool_decide _); simpl.
  - rewrite Hst. split; [by left|]. intros [?|[[? [=]]|[]]]. done.
  - split; [|done]. intros _. right. left. by eexists.
Qed.

Lemma info_loop_flag tile_msg st :
  (VectorTile.has_errors st = true
   <-> Exists (fun l => is_Some (VectorTile.li_errors l)) (VectorTile.layers st)) ->
  let st' := (VectorTile.info_loop tile_msg st).1 in
  VectorTile.has_errors st' = true
  <-> Exists (fun l => is_Some (VectorTile.li_errors l)) (VectorTile.layers st').
Proof.
  revert st. induction tile_msg as [|f tile_msg IH]; intros st Hst; [done|].
  destruct f as [tag v|tag v|tag vs|tag fields| |tag'];
    [..|done|by cbn [VectorTile.info_loop]; destruct (tag' =? Tile_Encoding.LAYERS)];
    cbn [VectorTile.info_loop pbf_tag];
    (destruct (tag =? Tile_Encoding.LAYERS); [|by apply IH]); simpl; try done.
  destruct (VectorTile.info_layer fields st) as [st1|] eqn:H1; [|done].
  apply IH. by eapply info_layer_flag.
Qed.

Lemma info_loop_corrupt tile_msg st :
  pbf_corrupt ∈ tile_msg \/ (exists tag, pbf_truncated tag ∈ tile_msg) ->
  (VectorTile.info_loop tile_msg st).2 = true.
Proof.
  revert st. induction tile_msg as [|f tile_msg IH]; intros st Hin.
  { destruct Hin as [Hin|[tag Hin]]; by apply elem_of_nil in Hin. }
  assert (Hcases : f = pbf_corrupt \/ (exists tag, f = pbf_truncated tag)
                   \/ (pbf_corrupt ∈ tile_msg \/ (exists tag, pbf_truncated tag ∈ tile_msg))).
  { destruct Hin as [Hin|[tag Hin]]; apply elem_of_cons in Hin as [<-|Hin]; eauto. }
  clear Hin. destruct Hcases as [->|[[tag ->]|Hin]];
    [done|by cbn [VectorTile.info_loop]; destruct (tag =? Tile_Encoding.LAYERS)|].
  destruct f as [tag v|tag v|tag vs|tag fields| |tag];
    [..|done|by cbn [VectorTile.info_loop]; destruct (tag =? Tile_Encoding.LAYERS)];
    cbn [VectorTile.info_loop pbf_tag];
    (destruct (_ =? Tile_Encoding.LAYERS); [|by apply IH]);
    simpl; try done.
  destruct (VectorTile.info_layer fields st); [by apply IH|done].
Qed.

End info_flag.

(** X9.  In the object [info] returns, [errors] is true exactly when the
    object lists tile errors or one of its layers lists errors. *)
Theorem info_errors_flag `{M : mapnik_api} (info : list js_value)
  (out : VectorTile.info_out) :
  VectorTile.info info = Return out ->
  VectorTile.out_errors out = true
  <-> is_Some (VectorTile.out_tile_errors out)
      \/ Exists (fun l => is_Some (VectorTile.li_errors l)) (VectorTile.out_layers out).
Proof.
  unfold VectorTile.info. destruct (_ || _); [done|]. destruct (negb _); [done|].
  set (run := match VectorTile.info_message _ with Ok _ => _ | Raise _ => _ end).
  assert (Hflag : VectorTile.has_errors run.1 = true
                  <-> Exists (fun l => is_Some (VectorTile.li_errors l))
                        (VectorTile.layers run.1)).
  { subst run. destruct (VectorTile.info_message _) as [tile_msg|].
    - apply info_loop_flag. simpl. rewrite Exists_nil. split; [done|tauto].
    - simpl. rewrite Exists_nil. split; [done|tauto]. }
  destruct run as [st threw]. simpl in Hflag. intros [= <-]. simpl.
  rewrite orb_true_iff, Hflag. destruct (bool_decide _); simpl.
  - split; [intros [?|[=]]; by right|]. intros [[? [=]]|?]. by left.
  - split; [intros _; left; by eexists|]. intros _. by right.
Qed.

Lemma info_errors_flag_witness :
  match @VectorTile.info ref_api [JsBuffer examples.two_roads_layers] with
  | Return out =>
      VectorTile.out_errors out = true
      <-> is_Some (VectorTile.out_tile_errors out)
          \/ Exists (fun l => is_Some (VectorTile.li_errors l)) (VectorTile.out_layers out)
  | _ => False
  end.
Proof.
  destruct (@VectorTile.info ref_api [JsBuffer examples.two_roads_layers])
    as [out|k msg|outcome] eqn:Hrun.
  - exact (@info_errors_flag ref_api [JsBuffer examples.two_roads_layers] out Hrun).
  - vm_compute in Hrun. discriminate Hrun.
  - vm_compute in Hrun. discriminate Hrun.
Defined.

(** X10.  [info] never throws on a buffer it cannot read.  When the
    buffer does not inflate, or its message holds bytes the reader cannot
    decode (bytes that hold no field, or a field whose value is cut short),
    the call returns an object with [errors] true whose tile errors hold
    INVALID_PBF_BUFFER. *)
Theorem info_reports_invalid_buffer `{M : mapnik_api} (data : bytes)
  (rest : list js_value) :
  ((exists what, VectorTile.info_message data = Raise what)
   \/ (exists tile_msg, VectorTile.info_message data = Ok tile_msg
                        /\ pbf_corrupt ∈ tile_msg)
   \/ (exists tile_msg tag, VectorTile.info_message data = Ok tile_msg
                            /\ pbf_truncated tag ∈ tile_msg)) ->
  exists (out : VectorTile.info_out) (tile_errors : list string),
    VectorTile.info (JsBuffer data :: rest) = Return out
    /\ VectorTile.out_errors out = true
    /\ VectorTile.out_tile_errors out = Some tile_errors
    /\ validity_error_to_string INVALID_PBF_BUFFER ∈ tile_errors.
Proof.
  intros Hbad. unfold VectorTile.info. simpl.
  set (run := match VectorTile.info_message _ with Ok _ => _ | Raise _ => _ end).
  assert (Hthrew : run.2 = true).
  { subst run.
    destruct Hbad as [[what ->]|[(tile_msg & -> & Hin)|(tile_msg & tag & -> & Hin)]];
      [done|apply info_loop_corrupt; by left|apply info_loop_corrupt; right; by exists tag]. }
  destruct run as [st threw]. simpl in Hthrew. subst threw.
  assert (Hne : bool_decide ({[INVALID_PBF_BUFFER]} ∪ VectorTile.errors st
                             = (∅ : gset validity_error)) = false).
  { apply bool_decide_eq_false. clear. set_solver. }
  eexists _, _. split; [done|]. simpl. rewrite Hne. simpl.
  split; [by rewrite orb_true_r|]. split; [done|].
  unfold VectorTile.error_strings. apply list_elem_of_fmap. eexists. split; [done|].
  rewrite merge_sort_Permutation. apply elem_of_elements. clear. set_solver.
Qed.

Lemma info_reports_invalid_buffer_witness :
  exists (out : VectorTile.info_out) (tile_errors : list string),
    @VectorTile.info ref_api [JsBuffer [Byte.x1a; Byte.x07; Byte.x0a]] = Return out
    /\ VectorTile.out_errors out = true
    /\ VectorTile.out_tile_errors out = Some tile_errors
    /\ "INVALID_PBF_BUFFER" ∈ tile_errors.
Proof.
  apply (@info_reports_invalid_buffer ref_api [Byte.x1a; Byte.x07; Byte.x0a] []).
  right. right. exists [pbf_truncated 3], 3.
  split; [vm_compute; reflexivity|apply list_elem_of_here].
Defined.

(** ** The validity report, returned or handed to a callback *)

(** X11.  With a callback as its last argument [reportGeometryValidity]
    hands to the callback the report that [reportGeometryValiditySync]
    returns for the arguments before it, and only that one. *)
Theorem reportGeometryValidity_callback `{M : mapnik_api} (d : merc_tile)
  (args : list js_value) (findings : list not_valid_feature) :
  reportGeometryValiditySync d args = Return findings
  <-> reportGeometryValidity d (args ++ [JsFunction]) = Callback (Ok findings).
Proof.
  unfold reportGeometryValiditySync, _reportGeometryValiditySync, reportGeometryValidity.
  assert (Hlast : last_arg (args ++ [JsFunction]) = JsFunction).
  { unfold last_arg. by rewrite last_snoc. }
  rewrite Hlast, length_app. simpl.
  destruct args as [|o args]; simpl.
  - destruct (vector_tile_not_valid d false false false); split; by intros [= ->].
  - replace (length args + 1)%nat with (S (length args)) by lia. simpl.
    change (arg (o :: args ++ [JsFunction]) 0) with o. change (arg (o :: args) 0) with o.
    destruct (negb (IsObject o)); [done|].
    destruct (validity_options o) as [[[split_multi_features lat_lon] web_merc]|]; [|done].
    destruct (vector_tile_not_valid d _ _ _); split; by intros [= ->].
Qed.

(** ** The simplicity report *)

Section simplicity_report.
Context `{M : mapnik_api} `{T : tile_api}.

Lemma layer_not_simple_spec layer_msg v errors :
  layer_not_simple layer_msg (tile_x v) (tile_y v) (tile_z v) errors
  = errors ++ not_simple_in_layer v layer_msg.
Proof.
  unfold layer_not_simple, not_simple_in_layer, everything. simpl.
  match goal with |- context [features ?ds ?q] => generalize (features ds q) end.
  intros fs. revert errors.
  induction fs as [|f fs IH]; intros errors; simpl; [by rewrite app_nil_r|].
  rewrite IH. destruct (geometry_is_simple (feature_geometry f)) eqn:Hs; simpl.
  - by rewrite filter_cons_False by congruence.
  - rewrite filter_cons_True by done. by rewrite <- app_assoc.
Qed.

Lemma not_simple_layers_Ok tile_msg v errors errors' :
  not_simple_layers tile_msg v errors = Ok errors' ->
  errors' = errors ++ flat_map (not_simple_in_layer v) (tile_layers tile_msg).
Proof.
  revert errors. induction tile_msg as [|f tile_msg IH]; intros errors.
  { simpl. intros [= <-]. by rewrite app_nil_r. }
  destruct f as [tag v0|tag v0|tag vs|tag fields| |tag']; [..|done|done];
    cbn [not_simple_layers tile_layers pbf_tag];
    (destruct (tag =? Tile_Encoding.LAYERS); [|by apply IH]); simpl; try done.
  intros ->%IH. by rewrite layer_not_simple_spec, <- app_assoc.
Qed.

End simplicity_report.

(** X12.  The simplicity report is exhaustive and ordered: what
    [reportGeometrySimplicitySync] returns, and what [reportGeometrySimplicity]
    returns or hands to its callback, is the list, layer after layer and
    feature after feature, of the layer name and id of every feature whose
    geometry is not simple. *)
Theorem simplicity_report_exhaustive `{M : mapnik_api} `{T : tile_api} (d : merc_tile)
  (info : list js_value) (errors : list not_simple_feature) :
  reportGeometrySimplicitySync d info = Return errors
  \/ reportGeometrySimplicity d info = Return errors
  \/ reportGeometrySimplicity d info = Callback (Ok errors) ->
  errors = flat_map (not_simple_in_layer d) (tile_layers (tile_buffer d)).
Proof.
  unfold reportGeometrySimplicitySync, reportGeometrySimplicity,
    _reportGeometrySimplicitySync, vector_tile_not_simple.
  assert (Hrun : forall e, not_simple_layers (tile_buffer d) d [] = Ok e ->
                   e = flat_map (not_simple_in_layer d) (tile_layers (tile_buffer d))).
  { intros e He. by apply not_simple_layers_Ok in He. }
  destruct (not_simple_layers (tile_buffer d) d []) as [e|what].
  - specialize (Hrun e eq_refl).
    intros [[= <-]|[H|H]]; [done|..]; revert H;
      destruct (length info =? 0)%nat; try (by intros [= <-]);
      destruct (negb _); by intros [= <-].
  - intros [[=]|[H|H]]; revert H;
      destruct (length info =? 0)%nat; try done; by destruct (negb _).
Qed.

Lemma simplicity_report_exhaustive_witness :
  exists errors : list not_simple_feature,
    @reportGeometrySimplicity ref_api ref_tile_api examples.bowtie_tile [JsFunction]
    = Callback (Ok errors)
    /\ errors
       = flat_map (@not_simple_in_layer ref_api ref_tile_api examples.bowtie_tile)
           (tile_layers (tile_buffer examples.bowtie_tile))
    /\ errors = [mk_not_simple_feature "layer" 7].
Proof.
  exists [mk_not_simple_feature "layer" 7].
  assert (Hrun : @reportGeometrySimplicity ref_api ref_tile_api examples.bowtie_tile
                   [JsFunction]
                 = Callback (Ok [mk_not_simple_feature "layer" 7]))
    by (vm_compute; reflexivity).
  split; [exact Hrun|]. split; [|reflexivity].
  apply (@simplicity_report_exhaustive ref_api ref_tile_api examples.bowtie_tile
           [JsFunction]).
  right. right. exact Hrun.
Defined.

(** ** Replacing data is clearing and adding *)

(** X13.  Once its arguments are accepted (a buffer that is not empty and
    well-typed options), [setData] is [clear] followed by [addData]: the
    call completes the same way and leaves the same tile as [addData] on the
    cleared tile, through both the synchronous and the asynchronous form. *)
Theorem setData_is_clear_then_addData `{M : mapnik_api} (d : merc_tile)
  (info : list js_value) (validate upgrade : bool) :
  IsBuffer (arg info 0) = true ->
  VectorTile.BufferData (arg info 0) <> [] ->
  VectorTile.setData_options info = Accept (validate, upgrade) ->
  VectorTile.setDataSync d info = VectorTile_data.addDataSync (clear d) info
  /\ VectorTile.setData d info = VectorTile_data.addData (clear d) info.
Proof.
  intros Hbuf Hdata Hopts.
  assert (Hlen : (length info <? 1)%nat = false).
  { destruct info; [done|]. done. }
  assert (Hobj : IsObject (arg info 0) = true) by (by destruct (arg info 0)).
  assert (Hne : (length (VectorTile.BufferData (arg info 0)) <=? 0)%nat = false).
  { destruct (VectorTile.BufferData (arg info 0)); [done|]. done. }
  assert (Hopts' : VectorTile_data.addData_options info = Accept (validate, upgrade)).
  { exact Hopts. }
  assert (Hsync : VectorTile._setDataSync d info
                  = VectorTile_data._addDataSync (clear d) info).
  { unfold VectorTile._setDataSync, VectorTile_data._addDataSync,
      VectorTile.clear_and_merge.
    rewrite Hlen, Hobj, Hbuf, Hne, Hopts, Hopts'. simpl.
    by destruct (merge_from_compressed_buffer _ _ _ _) as [[what|] d']. }
  split; [exact Hsync|].
  unfold VectorTile.setData, VectorTile_data.addData. rewrite Hsync.
  destruct (negb (IsFunction (last_arg info))); [done|].
  rewrite Hlen, Hobj, Hbuf, Hopts, Hopts'. simpl.
  unfold VectorTile.EIO_SetData, VectorTile_data.EIO_AddData, VectorTile.clear_and_merge.
  rewrite Hne. by destruct (merge_from_compressed_buffer _ _ _ _) as [[what|] d'].
Qed.

Lemma setData_is_clear_then_addData_witness :
  @VectorTile.setDataSync ref_api examples.two_points [JsBuffer examples.roads_layer_bytes]
  = @VectorTile_data.addDataSync ref_api (clear examples.two_points)
      [JsBuffer examples.roads_layer_bytes]
  /\ @VectorTile.setData ref_api examples.two_points [JsBuffer examples.roads_layer_bytes]
     = @VectorTile_data.addData ref_api (clear examples.two_points)
         [JsBuffer examples.roads_layer_bytes].
Proof.
  apply (@setData_is_clear_then_addData ref_api examples.two_points
           [JsBuffer examples.roads_layer_bytes] false false).
  - reflexivity.
  - discriminate.
  - reflexivity.
Defined.

(** ** GeoJSON of a tile *)

Lemma append_assoc (a b c : string) : (a +:+ b) +:+ c = a +:+ (b +:+ c).
Proof.
  induction a as [|ch a IH]; [done|].
  change (String ch ((a +:+ b) +:+ c) = String ch (a +:+ (b +:+ c))). by rewrite IH.
Qed.

Lemma append_nil_r (a : string) : a +:+ EmptyString = a.
Proof.
  induction a as [|ch a IH]; [done|].
  change (String ch (a +:+ EmptyString) = String ch a). by rewrite IH.
Qed.

Section geojson.
Context `{M : mapnik_api} `{T : tile_api}.

Lemma layer_features_to_geojson_Ok fs result first result' first' :
  layer_features_to_geojson fs result first = Ok (result', first') ->
  exists strs,
    Forall2 (fun f str => to_geojson (reprojected f) = Some str) fs strs
    /\ result' = result +:+ (if first then join newline_comma strs
                             else prefixed newline_comma strs)
    /\ first' = first && bool_decide (strs = []).
Proof.
  revert result first. induction fs as [|f fs IH]; intros result first; simpl.
  { intros [= <- <-]. exists []. split; [constructor|].
    destruct first; simpl; by rewrite append_nil_r. }
  fold (reprojected f). destruct (to_geojson (reprojected f)) as [str|] eqn:Hstr; [|done].
  intros (strs & Hstrs & -> & ->)%IH. exists (str :: strs).
  split; [by constructor|]. split; [|by rewrite andb_false_r].
  destruct first; simpl; by rewrite !append_assoc.
Qed.

Lemma layer_to_geojson_Ok layer_msg result v hit result' :
  layer_to_geojson layer_msg result (tile_x v) (tile_y v) (tile_z v) = Ok (hit, result') ->
  exists strs,
    layer_strings v layer_msg strs
    /\ result' = result +:+ join newline_comma strs
    /\ hit = negb (bool_decide (strs = [])).
Proof.
  unfold layer_to_geojson, layer_strings. fold (everything (mk_datasource layer_msg
    (tile_x v) (tile_y v) (tile_z v))).
  destruct (layer_features_to_geojson _ _ _) as [[r first]|] eqn:Hloop; [|done].
  simpl. intros [= <- <-].
  apply layer_features_to_geojson_Ok in Hloop as (strs & Hstrs & -> & ->).
  by exists strs.
Qed.

Lemma write_geojson_all_loop_Ok tile_msg v result first s :
  write_geojson_all_loop tile_msg v result first = Ok s ->
  exists texts,
    Forall2 (layer_strings v) (tile_layers tile_msg) texts
    /\ s = result +:+ (if first then join "," else prefixed ",")
                        (join newline_comma <$> filter (fun strs => strs <> []) texts).
Proof.
  revert result first. induction tile_msg as [|f tile_msg IH]; intros result first.
  { simpl. intros [= <-]. exists []. split; [constructor|].
    destruct first; simpl; by rewrite append_nil_r. }
  destruct f as [tag v0|tag v0|tag vs|tag fields| |tag']; [..|done|done];
    cbn [write_geojson_all_loop tile_layers pbf_tag];
    (destruct (tag =? Tile_Encoding.LAYERS); [|by apply IH]); simpl; try done.
  destruct (layer_to_geojson _ _ _ _ _) as [[hit features]|] eqn:Hlayer; [|done]. simpl.
  apply layer_to_geojson_Ok in Hlayer as (strs & Hstrs & -> & ->).
  destruct strs as [|str strs]; simpl.
  - intros (texts & Htexts & ->)%IH. exists ([] :: texts). split; [by constructor|].
    by rewrite filter_cons_False by (by intros H).
  - intros (texts & Htexts & ->)%IH. exists ((str :: strs) :: texts).
    split; [by constructor|]. rewrite filter_cons_True by done.
    change (EmptyString +:+ ?x) with x.
    destruct first; simpl; by rewrite !append_assoc.
Qed.

Lemma next_name_Ok layer_msg name :
  next_name layer_msg = Ok name -> default EmptyString name = first_name layer_msg.
Proof.
  induction layer_msg as [|f layer_msg IH]; [by intros [= <-]|].
  destruct f as [tag v0|tag v0|tag vs|tag fields| |tag']; [..|done|done];
    cbn [next_name first_name pbf_tag];
    (destruct (tag =? Layer_Encoding.NAME); [|by apply IH]); try done.
  by intros [= <-].
Qed.

Lemma write_geojson_array_loop_Ok tile_msg v result first s :
  write_geojson_array_loop tile_msg v result first = Ok s ->
  exists texts,
    Forall2 (layer_strings v) (tile_layers tile_msg) texts
    /\ s = result +:+ (if first then join "," else prefixed ",")
                        (zip_with layer_collection (first_name <$> tile_layers tile_msg)
                           texts).
Proof.
  revert result first. induction tile_msg as [|f tile_msg IH]; intros result first.
  { simpl. intros [= <-]. exists []. split; [constructor|].
    destruct first; simpl; by rewrite append_nil_r. }
  destruct f as [tag v0|tag v0|tag vs|tag fields| |tag']; [..|done|done];
    cbn [write_geojson_array_loop tile_layers pbf_tag];
    (destruct (tag =? Tile_Encoding.LAYERS); [|by apply IH]); simpl; try done.
  destruct (next_name fields) as [name|] eqn:Hname; [|done]. simpl.
  apply next_name_Ok in Hname as ->.
  destruct (layer_to_geojson _ _ _ _ _) as [[hit features]|] eqn:Hlayer; [|done]. simpl.
  apply layer_to_geojson_Ok in Hlayer as (strs & Hstrs & -> & ->).
  intros (texts & Htexts & ->)%IH. exists (strs :: texts). split; [by constructor|].
  cbn [zip_with].
  change (list_fmap _ _ first_name (tile_layers tile_msg))
    with (first_name <$> tile_layers tile_msg).
  generalize (zip_with layer_collection (first_name <$> tile_layers tile_msg) texts).
  intros rest. unfold layer_collection.
  destruct strs as [|str strs], first; repeat case_bool_decide; try done;
    cbn [negb join prefixed]; rewrite ?append_assoc, ?append_nil_r; reflexivity.
Qed.

End geojson.

(** X14.  The text [toGeoJSON] writes for [__all__] is one feature
    collection that holds the features of every layer, in the order of the
    layers: the GeoJSON texts of the features of a layer are separated by a
    line feed and a comma, the layers that have features by a comma, and a
    layer without features leaves nothing, not even a separator. *)
Theorem write_geojson_all_text `{M : mapnik_api} (v : merc_tile) (s : string) :
  write_geojson_all EmptyString v = Ok s ->
  exists texts : list (list string),
    Forall2 (layer_strings v) (tile_layers (tile_buffer v)) texts
    /\ s = feature_collection_open
           +:+ join "," (join newline_comma <$> filter (fun strs => strs <> []) texts)
           +:+ "]}".
Proof.
  unfold write_geojson_all.
  destruct (write_geojson_all_loop _ _ _ _) as [r|] eqn:Hloop; [|done]. simpl.
  intros [= <-]. apply write_geojson_all_loop_Ok in Hloop as (texts & Htexts & ->).
  exists texts. split; [done|]. by rewrite append_assoc.
Qed.

(** X15.  The text [toGeoJSON] writes for [__array__] is an array with one
    feature collection per layer of the tile, in order and separated by
    commas; each carries the name in the first name field of the layer and
    the GeoJSON texts of its features, separated by a line feed and a comma
    (none for a layer without features). *)
Theorem write_geojson_array_text `{M : mapnik_api} (v : merc_tile) (s : string) :
  write_geojson_array EmptyString v = Ok s ->
  exists texts : list (list string),
    Forall2 (layer_strings v) (tile_layers (tile_buffer v)) texts
    /\ s = "[" +:+ join "," (zip_with layer_collection
                               (first_name <$> tile_layers (tile_buffer v)) texts)
           +:+ "]".
Proof.
  unfold write_geojson_array.
  destruct (write_geojson_array_loop _ _ _ _) as [r|] eqn:Hloop; [|done]. simpl.
  intros [= <-]. apply write_geojson_array_loop_Ok in Hloop as (texts & Htexts & ->).
  exists texts. split; [done|]. by rewrite append_assoc.
Qed.

Lemma write_geojson_all_text_witness :
  match @write_geojson_all ref_api EmptyString examples.two_points with
  | Ok s =>
      exists texts : list (list string),
        Forall2 (@layer_strings ref_api examples.two_points)
          (tile_layers (tile_buffer examples.two_points)) texts
        /\ s = feature_collection_open
               +:+ join "," (join newline_comma <$> filter (fun strs => strs <> []) texts)
               +:+ "]}"
  | Raise _ => False
  end.
Proof.
  destruct (@write_geojson_all ref_api EmptyString examples.two_points)
    as [s|what] eqn:Hrun.
  - exact (@write_geojson_all_text ref_api examples.two_points s Hrun).
  - vm_compute in Hrun. discriminate Hrun.
Defined.

Lemma write_geojson_array_text_witness :
  match @write_geojson_array ref_api EmptyString examples.two_points with
  | Ok s =>
      exists texts : list (list string),
        Forall2 (@layer_strings ref_api examples.two_points)
          (tile_layers (tile_buffer examples.two_points)) texts
        /\ s = "[" +:+ join "," (zip_with layer_collection
                                   (first_name <$> tile_layers (tile_buffer examples.two_points))
                                   texts)
               +:+ "]"
  | Raise _ => False
  end.
Proof.
  destruct (@write_geojson_array ref_api EmptyString examples.two_points)
    as [s|what] eqn:Hrun.
  - exact (@write_geojson_array_text ref_api examples.two_points s Hrun).
  - vm_compute in Hrun. discriminate Hrun.
Defined.

(** X16.  When [toGeoJSONSync] returns the text of one layer, the layer
    asked for exists: an index is at least 0 and less than the number of
    layers, a name is one the tile reads a layer for; and the text is the
    feature collection of that layer, with its name and the GeoJSON texts of
    its features. *)
Theorem toGeoJSON_single_layer `{M : mapnik_api} `{T : tile_api} (v : merc_tile)
  (info : list js_value) (s : string) :
  toGeoJSONSync v info = Return s ->
  match arg info 0 with
  | JsNumber n =>
      let layer_idx := Int32Value n in
      0 <= layer_idx
      /\ (Z.to_nat layer_idx < length (get_layers v))%nat
      /\ exists layer_msg layer_name strs,
           layer_reader_at v (Z.to_nat layer_idx) = Some layer_msg
           /\ get_layers v !! Z.to_nat layer_idx = Some layer_name
           /\ layer_strings v layer_msg strs
           /\ s = layer_collection layer_name strs
  | JsString layer_name =>
      layer_name = "__array__" \/ layer_name = "__all__"
      \/ exists layer_msg strs,
           layer_reader v layer_name = Some layer_msg
           /\ layer_strings v layer_msg strs
           /\ s = layer_collection layer_name strs
  | _ => False
  end.
Proof.
  unfold toGeoJSONSync, _toGeoJSONSync. destruct (length info <? 1)%nat; [done|].
  destruct (arg info 0) as [| |b|n|layer_name|items|props| |data| |tile]; try done; simpl.
  - destruct (Int32Value n <? 0) eqn:Hneg; [done|]. apply Z.ltb_ge in Hneg.
    destruct (_ >=? _); [done|]. unfold write_geojson_layer_index.
    destruct (layer_reader_at v _) as [layer_msg|] eqn:Hreader; [|done].
    destruct (_ <? length _)%nat eqn:Hlen; [|done]. apply Nat.ltb_lt in Hlen.
    destruct (get_layers v !! _) as [name|] eqn:Hname;
      [|by apply lookup_ge_None in Hname; lia]. simpl.
    destruct (layer_to_geojson _ _ _ _ _) as [[hit result]|] eqn:Hlayer; [|done].
    simpl. intros [= <-].
    apply layer_to_geojson_Ok in Hlayer as (strs & Hstrs & -> & _).
    split; [done|]. split; [done|]. exists layer_msg, name, strs.
    repeat split; try done. unfold layer_collection. by rewrite !append_assoc.
  - destruct (String.eqb_spec layer_name "__array__") as [->|_]; [by left|].
    destruct (String.eqb_spec layer_name "__all__") as [->|_]; [by right; left|].
    unfold write_geojson_layer_name.
    destruct (layer_reader v layer_name) as [layer_msg|] eqn:Hreader; [|done].
    destruct (layer_to_geojson _ _ _ _ _) as [[hit result]|] eqn:Hlayer; [|done].
    simpl. intros [= <-].
    apply layer_to_geojson_Ok in Hlayer as (strs & Hstrs & -> & _).
    right; right. exists layer_msg, strs.
    repeat split; try done. unfold layer_collection. by rewrite !append_assoc.
Qed.

Lemma toGeoJSON_single_layer_witness :
  match @toGeoJSONSync ref_api ref_tile_api examples.two_points [examples.number 0] with
  | Return s =>
      0 <= 0
      /\ (Z.to_nat 0 < length (@get_layers ref_tile_api examples.two_points))%nat
      /\ exists layer_msg layer_name strs,
           @layer_reader_at ref_tile_api examples.two_points (Z.to_nat 0) = Some layer_msg
           /\ @get_layers ref_tile_api examples.two_points !! Z.to_nat 0 = Some layer_name
           /\ @layer_strings ref_api examples.two_points layer_msg strs
           /\ s = layer_collection layer_name strs
  | _ => False
  end.
Proof.
  destruct (@toGeoJSONSync ref_api ref_tile_api examples.two_points [examples.number 0])
    as [s|k msg|outcome] eqn:Hrun.
  - exact (@toGeoJSON_single_layer ref_api ref_tile_api examples.two_points
             [examples.number 0] s Hrun).
  - vm_compute in Hrun. discriminate Hrun.
  - vm_compute in Hrun. discriminate Hrun.
Defined.

(** ** Reading the data keeps the tile *)

Section getData_keeps.
Context `{T : tile_api}.

Lemma getData_options_release options k o :
  getData_options options k = Accept o ->
  gd_release o = true -> Get options "release" = JsBoolean true.
Proof.
  unfold getData_options. intros H. bind_inv H. injection H as <-. simpl. intros ->.
  revert E0. unfold boolean_option. destruct (Has options "release"); [|done].
  destruct (Get options "release") as [| |[]| | | | | | | |]; done.
Qed.

Lemma _getDataSync_keeps d info :
  Get (arg info 0) "release" <> JsBoolean true -> (_getDataSync d info).2 = d.
Proof.
  intros Hrelease. unfold _getDataSync.
  match goal with |- context [match ?m with Accept _ => _ | Reject _ _ => _ end] =>
    destruct m as [o|k msg] eqn:Hopts
  end; [|done].
  assert (Ho : gd_release o = false).
  { destruct (gd_release o) eqn:Hr; [|done]. destruct (0 <? length info)%nat.
    - destruct (negb _); [done|]. by apply getData_options_release in Hopts.
    - by injection Hopts as <-. }
  rewrite Ho. destruct (_ <=? 0)%nat; [done|]. destruct (_ >=? _); [done|].
  destruct (gd_compress o); [|done]. by destruct (zlib_compress _ _ _).
Qed.

End getData_keeps.

(** X17.  Reading the data of a tile does not change the tile unless the
    option [release] is true: whatever else the arguments are, and whether
    the call returns, throws or goes through the callback, [getDataSync] and
    [getData] leave the tile as it was. *)
Theorem getData_keeps_the_tile `{T : tile_api} (d : merc_tile) (info : list js_value) :
  Get (arg info 0) "release" <> JsBoolean true ->
  (getDataSync d info).2 = d /\ (getData d info).2 = d.
Proof.
  intros Hrelease. split; [by apply _getDataSync_keeps|].
  unfold getData. destruct (_ || _); [by apply _getDataSync_keeps|].
  match goal with |- context [match ?m with Accept _ => _ | Reject _ _ => _ end] =>
    destruct m as [o|k msg] eqn:Hopts
  end; [|done].
  assert (Ho : gd_release o = false).
  { destruct (gd_release o) eqn:Hr; [|done]. destruct (1 <? length info)%nat.
    - destruct (negb _); [done|]. by apply getData_options_release in Hopts.
    - by injection Hopts as <-. }
  unfold after_get_data, get_data. rewrite Ho.
  destruct (gd_compress o); [destruct (zlib_compress _ _ _) as [data|]; [|done]|];
    destruct (negb (_ =? 0)%nat); try done;
    destruct (_ <=? 0)%nat; try done; by destruct (_ >=? _).
Qed.

Lemma getData_keeps_the_tile_witness :
  (@getDataSync ref_tile_api examples.two_points
     [JsObject [("compression", JsString "gzip")]]).2 = examples.two_points
  /\ (@getData ref_tile_api examples.two_points
        [JsObject [("compression", JsString "gzip")]]).2 = examples.two_points.
Proof.
  apply (@getData_keeps_the_tile ref_tile_api examples.two_points
           [JsObject [("compression", JsString "gzip")]]).
  discriminate.
Defined.

(** ** The options of [getData] *)

(** X18.  The options [getData] and [getDataSync] accept are in range: the
    compression level is the default of the library or a whole number from
    0 to 9, the strategy is one of the five the binding names, and
    compression is on only for the string gzip (any other string means no
    compression). *)
Theorem getData_options_in_range `{T : tile_api} (options : js_value)
  (release_kind : error_kind) (o : get_data_options) :
  getData_options options release_kind = Accept o ->
  (gd_level o = Z_DEFAULT_COMPRESSION \/ 0 <= gd_level o <= 9)
  /\ gd_strategy o ∈ [Z_FILTERED; Z_HUFFMAN_ONLY; Z_RLE; Z_FIXED; Z_DEFAULT_STRATEGY]
  /\ (gd_compress o = true <-> Has options "compression" = true
                               /\ Get options "compression" = JsString "gzip").
Proof.
  unfold getData_options. intros H. bind_inv H. injection H as <-.
  cbn [gd_level gd_strategy gd_compress]. split; [|split].
  - revert E1. unfold level_option. destruct (Has options "level"); [|by intros [= <-]; left].
    destruct (negb _); [done|]. destruct (_ || _) eqn:Hrange; [done|].
    intros [= <-]. right. apply orb_false_elim in Hrange as [Hlo Hhi].
    rewrite Z.gtb_ltb in Hhi. apply Z.ltb_ge in Hlo, Hhi. lia.
  - revert E2. unfold strategy_option.
    destruct (Has options "strategy"); [|intros [= <-]; set_solver].
    destruct (negb _); [done|].
    repeat (destruct (String.eqb _ _); [intros [= <-]; set_solver|]). done.
  - revert E. unfold compression_option.
    destruct (Has options "compression"); [|intros [= <-]; split; [done|by intros [? ?]]].
    destruct (Get options "compression") as [| | | |s| | | | | |]; try done.
    cbn [IsString negb TOSTR]. intros Ha.
    replace a with (String.eqb "gzip" s) by congruence. clear Ha. destruct (String.eqb_spec "gzip" s) as [<-|Hne]; [by split|].
    split; [done|]. intros [_ [= ->]]. by destruct Hne.
Qed.

Lemma getData_options_in_range_witness :
  (3 = -1 \/ 0 <= 3 <= 9)
  /\ 3 ∈ [1; 2; 3; 4; 0]
  /\ (true = true
      <-> Has (JsObject [("compression", JsString "gzip"); ("level", examples.number 3);
                         ("strategy", JsString "RLE")]) "compression" = true
          /\ Get (JsObject [("compression", JsString "gzip"); ("level", examples.number 3);
                            ("strategy", JsString "RLE")]) "compression" = JsString "gzip").
Proof.
  apply (@getData_options_in_range ref_tile_api
           (JsObject [("compression", JsString "gzip"); ("level", examples.number 3);
                      ("strategy", JsString "RLE")])
           Error (mk_get_data_options true false 3 3)).
  vm_compute. reflexivity.
Defined.

(** ** A query returns the hits, all of them and once *)

Section query_exact.
Context `{M : mapnik_api}.

Lemma query_layers_Ok item d x y tolerance arr arr' :
  VectorTile.query_layers item d x y tolerance arr = Ok arr' ->
  arr' = arr ++ flat_map (layer_hits d x y tolerance) (tile_layers item).
Proof.
  revert arr. induction item as [|f item IH]; intros arr.
  { simpl. intros [= <-]. by rewrite app_nil_r. }
  destruct f as [tag v0|tag v0|tag vs|tag fields| |tag']; [..|done|done];
    cbn [VectorTile.query_layers tile_layers pbf_tag];
    (destruct (tag =? Tile_Encoding.LAYERS); [|by apply IH]); simpl; try done.
  destruct (VectorTile.query_features _ _ _ _ _ _) as [arr1|] eqn:H1; [|done]. simpl.
  apply query_features_Ok in H1 as ->. intros ->%IH. by rewrite <- app_assoc.
Qed.

End query_exact.

(** X19.  A query that returns gives back exactly the hits, each once:
    without a layer name the result is a rearrangement of the hits of every
    layer of the tile, in the order of the layers; with a layer name it is a
    rearrangement of the hits of the layer the tile reads for that name, and
    empty when there is none. *)
Theorem query_returns_the_hits `{M : mapnik_api} (d : merc_tile)
  (lon lat tolerance x y : double) (layer_name : string) (arr : list query_result) :
  is_empty d = false ->
  tr_forward lon lat = Some (x, y) ->
  VectorTile._query d lon lat tolerance layer_name = Ok arr ->
  arr ≡ₚ (if string_empty layer_name
          then flat_map (layer_hits d x y tolerance) (tile_layers (tile_buffer d))
          else match layer_reader d layer_name with
               | Some layer_msg => named_layer_hits d x y tolerance layer_name layer_msg
               | None => []
               end).
Proof.
  intros Hempty Hforward. unfold VectorTile._query. rewrite Hempty, Hforward.
  destruct (string_empty layer_name); simpl.
  - destruct (VectorTile.query_layers _ _ _ _ _ _) as [arr0|] eqn:H0; [|done].
    simpl. intros [= <-]. apply query_layers_Ok in H0 as ->.
    by rewrite std_sort_Permutation.
  - destruct (layer_reader d layer_name) as [layer_msg|]; simpl.
    + destruct (VectorTile.query_features _ _ _ _ _ _) as [arr0|] eqn:H0; [|done].
      simpl. intros [= <-]. apply query_features_Ok in H0 as ->.
      by rewrite std_sort_Permutation.
    + by intros [= <-].
Qed.

Lemma query_returns_the_hits_witness :
  [examples.far_result; examples.near_result]
  ≡ₚ (if string_empty "roads"
      then flat_map (@layer_hits ref_api examples.two_points d_zero d_zero (double_of_Z 5))
             (tile_layers (tile_buffer examples.two_points))
      else match @layer_reader ref_api examples.two_points "roads" with
           | Some layer_msg =>
               @named_layer_hits ref_api examples.two_points d_zero d_zero (double_of_Z 5)
                 "roads" layer_msg
           | None => []
           end).
Proof.
  apply (@query_returns_the_hits ref_api examples.two_points d_zero d_zero
           (double_of_Z 5) d_zero d_zero "roads").
  - reflexivity.
  - reflexivity.
  - vm_compute. reflexivity.
Defined.

(** ** The feature counts of [info] *)

Section info_counts.
Context `{M : mapnik_api}.

Lemma info_layer_totals layer_view st st' :
  VectorTile.info_layer layer_view st = Ok st' ->
  Forall layer_totals (VectorTile.layers st) -> Forall layer_totals (VectorTile.layers st').
Proof.
  unfold VectorTile.info_layer.
  destruct (get_layer_name_and_version layer_view) as [[layer_name layer_version]|]; [|done].
  simpl. destruct (layer_is_valid layer_view) as [[found counts]|]; [|done]. simpl.
  intros [= <-] Hst. simpl. apply Forall_app. split; [done|].
  constructor; [|constructor]. split; [done|]. simpl. split.
  - by destruct layer_name.
  - case_bool_decide as Herrs; [done|]. unfold VectorTile.error_strings.
    intros [= Hnil]. apply fmap_nil_inv in Hnil.
    match type of Hnil with
    | merge_sort ?R ?l = [] => pose proof (merge_sort_Permutation R l) as Hperm
    end.
    rewrite Hnil in Hperm. symmetry in Hperm.
    apply Permutation_nil_r, elements_empty_inv in Hperm.
    apply Herrs. by apply leibniz_equiv.
Qed.

Lemma info_loop_totals tile_msg st :
  Forall layer_totals (VectorTile.layers st) ->
  Forall layer_totals (VectorTile.layers (VectorTile.info_loop tile_msg st).1).
Proof.
  revert st. induction tile_msg as [|f tile_msg IH]; intros st Hst; [done|].
  destruct f as [tag v|tag v|tag vs|tag fields| |tag'];
    [..|done|by cbn [VectorTile.info_loop]; destruct (tag' =? Tile_Encoding.LAYERS)];
    cbn [VectorTile.info_loop pbf_tag];
    (destruct (tag =? Tile_Encoding.LAYERS); [|by apply IH]); simpl; try done.
  destruct (VectorTile.info_layer fields st) as [st1|] eqn:H1; [|done].
  apply IH. by eapply info_layer_totals.
Qed.

End info_counts.

(** X20.  Every layer in the object [info] returns is consistent: its
    feature count is the sum of its point, line string, polygon, unknown
    and raster counts, a name it carries is not the empty string, and a
    list of errors it carries is not empty. *)
Theorem info_layers_consistent `{M : mapnik_api} (info : list js_value)
  (out : VectorTile.info_out) :
  VectorTile.info info = Return out ->
  Forall layer_totals (VectorTile.out_layers out).
Proof.
  unfold VectorTile.info. destruct (_ || _); [done|]. destruct (negb _); [done|].
  set (run := match VectorTile.info_message _ with Ok _ => _ | Raise _ => _ end).
  assert (Hrun : Forall layer_totals (VectorTile.layers run.1)).
  { subst run. destruct (VectorTile.info_message _) as [tile_msg|].
    - apply info_loop_totals. constructor.
    - constructor. }
  destruct run as [st threw]. by intros [= <-].
Qed.

Lemma info_layers_consistent_witness :
  match @VectorTile.info ref_api [JsBuffer examples.two_roads_layers] with
  | Return out => Forall layer_totals (VectorTile.out_layers out)
  | _ => False
  end.
Proof.
  destruct (@VectorTile.info ref_api [JsBuffer examples.two_roads_layers])
    as [out|k msg|outcome] eqn:Hrun.
  - exact (@info_layers_consistent ref_api [JsBuffer examples.two_roads_layers] out Hrun).
  - vm_compute in Hrun. discriminate Hrun.
  - vm_compute in Hrun. discriminate Hrun.
Defined.

(** ** Adding and replacing data, with and without a callback *)

(** X21.  With a callback as its last argument, [addData] and [setData]
    leave the tile in the state that [addDataSync] and [setDataSync] leave
    it in for the arguments before the callback, and the callback gets a
    success exactly when the synchronous form returns. *)
Theorem data_callback_same_tile `{M : mapnik_api} (d : merc_tile) (args : list js_value) :
  (VectorTile_data.addData d (args ++ [JsFunction])).2
  = (VectorTile_data.addDataSync d args).2
  /\ (VectorTile.setData d (args ++ [JsFunction])).2 = (VectorTile.setDataSync d args).2
  /\ (forall d', VectorTile_data.addDataSync d args = (Return (), d')
                 <-> VectorTile_data.addData d (args ++ [JsFunction])
                     = (Callback (Ok ()), d'))
  /\ (forall d', VectorTile.setDataSync d args = (Return (), d')
                 <-> VectorTile.setData d (args ++ [JsFunction]) = (Callback (Ok ()), d')).
Proof.
  unfold VectorTile_data.addData, VectorTile_data.addDataSync, VectorTile_data._addDataSync,
    VectorTile.setData, VectorTile.setDataSync, VectorTile._setDataSync,
    VectorTile_data.EIO_AddData, VectorTile.EIO_SetData,
    VectorTile_data.addData_options, VectorTile.setData_options.
  assert (Hlast : last_arg (args ++ [JsFunction]) = JsFunction).
  { unfold last_arg. by rewrite last_snoc. }
  rewrite Hlast, length_app. simpl.
  destruct args as [|a [|o args]]; simpl.
  - repeat split; intros; done.
  - change (arg [a; JsFunction] 0) with a. change (arg [a] 0) with a.
    change (arg [a; JsFunction] 1) with JsFunction. simpl.
    destruct (negb (IsObject a)); [repeat split; intros; done|].
    destruct (negb (IsBuffer a)); [repeat split; intros; done|]. simpl.
    destruct (_ <=? 0)%nat; [repeat split; intros; done|].
    unfold VectorTile.clear_and_merge.
    destruct (merge_from_compressed_buffer d _ _ _) as [[what|] d1],
      (merge_from_compressed_buffer (clear d) _ _ _) as [[what'|] d2];
      repeat split; simpl; intros; congruence.
  - replace (length args + 1)%nat with (S (length args)) by lia. simpl.
    change (arg (a :: o :: args ++ [JsFunction]) 0) with a.
    change (arg (a :: o :: args) 0) with a.
    change (arg (a :: o :: args ++ [JsFunction]) 1) with o.
    change (arg (a :: o :: args) 1) with o.
    destruct (negb (IsObject a)); [repeat split; intros; done|].
    destruct (negb (IsBuffer a)); [repeat split; intros; done|]. simpl.
    destruct (negb (IsObject o)); [by destruct (_ <=? 0)%nat; repeat split; intros|].
    destruct (boolean_option o "validate" _ _ _) as [validate|k msg]; simpl;
      [|by destruct (_ <=? 0)%nat; repeat split; intros].
    destruct (boolean_option o "upgrade" _ _ _) as [upgrade|k msg]; simpl;
      [|by destruct (_ <=? 0)%nat; repeat split; intros].
    destruct (_ <=? 0)%nat; [repeat split; intros; done|].
    unfold VectorTile.clear_and_merge.
    destruct (merge_from_compressed_buffer d _ _ _) as [[what|] d1],
      (merge_from_compressed_buffer (clear d) _ _ _) as [[what'|] d2];
      repeat split; simpl; intros; congruence.
Qed.

(** ** The size invariant along a script *)

Lemma assign_keeps_sizes d a :
  size_checked a ->
  0 < tile_size d <= INT32_MAX -> -1073741824 <= buffer_size d -> tile_invariant d ->
  tile_size (assign d a) = tile_size d
  /\ -1073741824 <= buffer_size (assign d a)
  /\ tile_invariant (assign d a).
Proof.
  intros [Hnot Hlow] Hts Hbs Hinv. destruct a as [p value]. simpl in *.
  unfold assign. destruct p; simpl; [| | |done|].
  - unfold VectorTile.set_tile_x.
    destruct (negb (IsNumber value)); [done|]. by destruct (_ <? 0).
  - unfold VectorTile.set_tile_y.
    destruct (negb (IsNumber value)); [done|]. by destruct (_ <? 0).
  - unfold VectorTile.set_tile_z.
    destruct (negb (IsNumber value)); [done|]. by destruct (_ <? 0).
  - destruct (VectorTile.set_buffer_size d value) as [outcome d'] eqn:Hset.
    pose proof (set_buffer_size_invariant d value outcome d' Hts Hset) as Hkept.
    unfold VectorTile.set_buffer_size in Hset.
    destruct (negb (IsNumber value)); [by injection Hset as <- <-|].
    destruct (wrap_int32 _ <=? 0); injection Hset as <- <-; [done|].
    simpl in *. split; [done|]. split; [by apply Hlow|]. apply Hkept. by apply Hlow.
Qed.

(** X22.  A tile object built by the constructor satisfies
    [tile_size + 2 * buffer_size > 0], and keeps satisfying it, with its
    tile size unchanged, under every sequence of assignments to [x], [y],
    [z] and [bufferSize], accepted or rejected, as long as no buffer size is
    below -2^30. *)
Theorem size_invariant_kept (info : list js_value) (d : merc_tile)
  (assignments : list (tile_property * js_value)) :
  VectorTile.New true info = Return (VectorTile.Construct d) ->
  -1073741824 <= buffer_size d ->
  Forall size_checked assignments ->
  tile_invariant (assign_all d assignments)
  /\ tile_size (assign_all d assignments) = tile_size d.
Proof.
  intros Hnew Hbs Hall.
  pose proof (New_invariant info d Hnew Hbs) as Hinv.
  assert (Hts : 0 < tile_size d <= INT32_MAX).
  { revert Hnew. unfold VectorTile.New. simpl.
    repeat (match goal with |- context [if ?c then _ else _] => destruct c eqn:? end;
            try done).
    destruct (VectorTile.New_sizes info) as [[ts bs]|] eqn:Hsizes; [|done].
    destruct (ts + wrap_int32 (2 * bs) <=? 0); [done|].
    intros [= <-]. simpl. by apply New_sizes_range in Hsizes as [Hts _]. }
  clear Hnew. unfold assign_all.
  revert d Hbs Hinv Hts. induction Hall as [|a assignments Ha _ IH]; intros d Hbs Hinv Hts.
  - done.
  - simpl. destruct (assign_keeps_sizes d a Ha Hts Hbs Hinv) as (Hsame & Hbs' & Hinv').
    destruct (IH (assign d a) Hbs' Hinv') as [Hfinal Hsize]; [by rewrite Hsame|].
    split; [done|]. by rewrite Hsize.
Qed.

Lemma size_invariant_kept_witness :
  tile_invariant
    (assign_all examples.narrow_buffer_tile
       [(prop_bufferSize, examples.number (-2040)); (prop_x, examples.number 3);
        (prop_bufferSize, examples.number (-3000)); (prop_z, examples.number 2)])
  /\ tile_size
       (assign_all examples.narrow_buffer_tile
          [(prop_bufferSize, examples.number (-2040)); (prop_x, examples.number 3);
           (prop_bufferSize, examples.number (-3000)); (prop_z, examples.number 2)])
     = tile_size examples.narrow_buffer_tile.
Proof.
  apply (size_invariant_kept examples.narrow_buffer_args).
  - vm_compute. reflexivity.
  - vm_compute. discriminate.
  - repeat constructor; simpl; try discriminate; intros _; vm_compute; discriminate.
Defined.
